(** * Interactive video overlays: sequencing, quiz branching and reports

    A shallow embedding of the server-side script of the interactive video
    overlay tool (the Apps Script file with [getOverlaysForVideo],
    [parseNextAction], [shuffleArray], [getAppSettings],
    [updateAppSettings] and [getStudentReport]) and the properties its
    specification states about it, followed by the rest of the script
    ([ensureRequiredSheets], [getDefaultVideo], [extractYouTubeVideoId],
    [recordQuizAttempt], [recordUserEvent], [saveUserNote], [getUserNotes],
    [getQuizPerformanceReport]) and further properties of the code.

    Conventions of the embedding.
    - A spreadsheet cell and any other dynamically typed JavaScript value is
      a [value]: a string, a number, a boolean, [null] or [undefined].
      Numbers in cells are integers ([Z], below 10^21 in magnitude, where
      their decimal form has no exponent), and counts are below 2^53.  A
      number that the script computes by a division, a product or a sum is
      a [number]: the double nearest to the exact result, given by its
      exact value ([round_double]), or NaN or an infinity; the range of the
      exponent of a double and the sign of a zero are not represented.  A
      [Date] appears only where the script reads one as a date, in column A
      of the User Data sheet.
    - Strings are Rocq strings read as sequences of ASCII characters; case
      conversion and trimming are those of ECMAScript on that range.
    - A sheet returned by [getDataRange().getValues()] is a list of rows, a
      row is a list of cells, and [row[i]] beyond the end is [undefined].
    - A call that raises a JavaScript exception is [Thrown]; every entry
      point catches it and returns its error object.
    - [Math.random] is a sequence of draws: the [n]-th call returns
      [Math_random n]; the number of calls made so far is threaded through
      the code that shuffles. *)

From Stdlib Require Import ZArith QArith Qabs Qround Qpower Ascii String List Permutation.
From Stdlib Require Import Sorting.Sorted DecimalString DecimalPos DecimalZ Lia Lqa.
From stdpp Require Import gmap strings list fin_maps.

Local Open Scope string_scope.
Local Open Scope Z_scope.
Local Open Scope list_scope.

(** ** JavaScript values and the built-ins the script relies on *)

Module JS.

Inductive value : Type :=
  | VUndefined
  | VNull
  | VBool (b : bool)
  | VNum (n : Z)
  | VStr (s : string).

#[global] Instance value_eq_dec : EqDecision value.
Proof. solve_decision. Defined.

(** The result of running code that may raise. *)
Inductive outcome (A : Type) : Type :=
  | Returned (a : A)
  | Thrown.
Arguments Returned {A} a.
Arguments Thrown {A}.

Definition bind {A B} (m : outcome A) (f : A -> outcome B) : outcome B :=
  match m with
  | Returned a => f a
  | Thrown => Thrown
  end.

#[global] Instance outcome_bind : MBind outcome := fun A B f m => bind m f.
#[global] Instance outcome_ret : MRet outcome := @Returned.

(** ToBoolean. *)
Definition truthy (v : value) : bool :=
  match v with
  | VUndefined | VNull => false
  | VBool b => b
  | VNum n => negb (n =? 0)
  | VStr s => negb (String.eqb s "")
  end.

(** [a || b] on values. *)
Definition or_else (a b : value) : value := if truthy a then a else b.

(** [a === b]. *)
Definition strict_eq (a b : value) : bool := bool_decide (a = b).

Definition string_of_Z (n : Z) : string := NilZero.string_of_int (Z.to_int n).

(** [String(v)], also used when a value becomes a property key or is
    spliced into a template literal. *)
Definition ToString (v : value) : string :=
  match v with
  | VUndefined => "undefined"
  | VNull => "null"
  | VBool true => "true"
  | VBool false => "false"
  | VNum n => string_of_Z n
  | VStr s => s
  end.

(** [v.toString()]: a property access on [undefined] or [null] raises. *)
Definition toString (v : value) : outcome string :=
  match v with
  | VUndefined | VNull => Thrown
  | _ => Returned (ToString v)
  end.

(** [row[i]]. *)
Definition cell (row : list value) (i : nat) : value :=
  match row !! i with
  | Some v => v
  | None => VUndefined
  end.

(** *** Characters and strings *)

Definition is_upper (c : ascii) : bool :=
  let n := nat_of_ascii c in (65 <=? n)%nat && (n <=? 90)%nat.
Definition is_lower (c : ascii) : bool :=
  let n := nat_of_ascii c in (97 <=? n)%nat && (n <=? 122)%nat.
Definition lower_char (c : ascii) : ascii :=
  if is_upper c then ascii_of_nat (nat_of_ascii c + 32) else c.
Definition upper_char (c : ascii) : ascii :=
  if is_lower c then ascii_of_nat (nat_of_ascii c - 32) else c.

Fixpoint map_string (f : ascii -> ascii) (s : string) : string :=
  match s with
  | EmptyString => EmptyString
  | String c s' => String (f c) (map_string f s')
  end.

Definition toLowerCase_str : string -> string := map_string lower_char.
Definition toUpperCase_str : string -> string := map_string upper_char.

(** A method of [String.prototype] called on a value: it exists on strings
    only, so the call raises on every other value. *)
Definition string_method {A} (f : string -> A) (v : value) : outcome A :=
  match v with
  | VStr s => Returned (f s)
  | _ => Thrown
  end.

Definition toLowerCase : value -> outcome string := string_method toLowerCase_str.
Definition toUpperCase : value -> outcome string := string_method toUpperCase_str.

(** White space and line terminators: TAB, LF, VT, FF, CR, SP. *)
Definition is_white (c : ascii) : bool :=
  let n := nat_of_ascii c in
  ((9 <=? n)%nat && (n <=? 13)%nat) || (n =? 32)%nat.

Fixpoint trim_start (s : string) : string :=
  match s with
  | EmptyString => EmptyString
  | String c s' => if is_white c then trim_start s' else s
  end.

(** The string without its trailing white space. *)
Fixpoint trim_end (s : string) : string :=
  match s with
  | EmptyString => EmptyString
  | String c s' =>
      match trim_end s' with
      | EmptyString => if is_white c then EmptyString else String c EmptyString
      | t => String c t
      end
  end.

Definition trim (s : string) : string := trim_end (trim_start s).

(** [s.split(sep)] for a one-character separator: the maximal pieces
    between separators, in order; never empty. *)
Fixpoint split (sep : ascii) (s : string) : list string :=
  match s with
  | EmptyString => [EmptyString]
  | String c s' =>
      if Ascii.eqb c sep then EmptyString :: split sep s'
      else match split sep s' with
           | piece :: rest => String c piece :: rest
           | [] => [String c EmptyString]
           end
  end.

Definition startsWith (s p : string) : bool := String.prefix p s.

(** [s.includes(p)]. *)
Fixpoint includes (s p : string) : bool :=
  String.prefix p s ||
  match s with
  | EmptyString => false
  | String _ s' => includes s' p
  end.

(** *** parseInt(v, 10) *)

Definition digit_of (c : ascii) : option Z :=
  let n := nat_of_ascii c in
  if (48 <=? n)%nat && (n <=? 57)%nat then Some (Z.of_nat (n - 48)) else None.

(** Reads the longest run of decimal digits at the front of [s], on top of
    the digits [acc] already read. *)
Fixpoint digits_prefix (acc : option Z) (s : string) : option Z :=
  match s with
  | EmptyString => acc
  | String c s' =>
      match digit_of c with
      | Some d => digits_prefix (Some (10 * default 0 acc + d)) s'
      | None => acc
      end
  end.

(** [parseInt] of a string: leading white space is skipped, one sign is
    accepted, then the digits; [None] is NaN. *)
Definition parseInt_str (s : string) : option Z :=
  match trim_start s with
  | String "-" s' => Z.opp <$> digits_prefix None s'
  | String "+" s' => digits_prefix None s'
  | s' => digits_prefix None s'
  end.

Definition parseInt (v : value) : option Z := parseInt_str (ToString v).

(** *** Arithmetic on doubles

    A number that the script computes is a double, given by its exact
    value, or one of the values that are not finite.  The result of a
    division, a product or a sum is the double nearest to the exact result,
    the one with the even mantissa on a tie. *)

Inductive number : Type :=
  | Finite (x : Q)
  | NaN
  | Infinity (negative : bool).

(** The [e] with [2^e <= x < 2^(e+1)], for a positive [x]. *)
Definition floor_log2 (x : Q) : Z :=
  let k := Z.log2 (Qnum x) - Z.log2 (Z.pos (Qden x)) in
  if Qle_bool (2 ^ k) x then k else k - 1.

(** The integer nearest to [x], the even one on a tie. *)
Definition round_half_even (x : Q) : Z :=
  let f := Qfloor x in
  match Qcompare (x - inject_Z f) (1 # 2) with
  | Lt => f
  | Gt => f + 1
  | Eq => if Z.even f then f else f + 1
  end.

(** The double nearest to a positive [x]: a mantissa of 53 bits, between
    2^52 and 2^53, times a power of 2. *)
Definition round_positive (x : Q) : Q :=
  let e := floor_log2 x - 52 in
  (inject_Z (round_half_even (x / 2 ^ e)) * 2 ^ e)%Q.

(** The double nearest to [x], as a fraction in lowest terms. *)
Definition round_double (x : Q) : Q :=
  match Qnum x with
  | Z0 => 0%Q
  | Z.pos _ => Qred (round_positive x)
  | Z.neg _ => Qred (- round_positive (- x))
  end.

(** A count as a number. *)
Definition Number_of_nat (n : nat) : number := Finite (inject_Z (Z.of_nat n)).

(** [a / b]. *)
Definition Number_div (a b : number) : number :=
  match a, b with
  | NaN, _ => NaN
  | _, NaN => NaN
  | Infinity _, Infinity _ => NaN
  | Infinity s, Finite y => Infinity (xorb s (negb (Qle_bool 0 y)))
  | Finite _, Infinity _ => Finite 0
  | Finite x, Finite y =>
      if Qeq_bool y 0 then
        if Qeq_bool x 0 then NaN else Infinity (negb (Qle_bool 0 x))
      else Finite (round_double (x / y))
  end.

(** [a * b]. *)
Definition Number_mul (a b : number) : number :=
  match a, b with
  | NaN, _ => NaN
  | _, NaN => NaN
  | Infinity s, Infinity t => Infinity (xorb s t)
  | Infinity s, Finite y =>
      if Qeq_bool y 0 then NaN else Infinity (xorb s (negb (Qle_bool 0 y)))
  | Finite x, Infinity s =>
      if Qeq_bool x 0 then NaN else Infinity (xorb s (negb (Qle_bool 0 x)))
  | Finite x, Finite y => Finite (round_double (x * y))
  end.

(** [(a / b) * 100] on two counts. *)
Definition percentage (a b : nat) : number :=
  Number_mul (Number_div (Number_of_nat a) (Number_of_nat b)) (Finite 100).

End JS.
Export JS.

(** ** Configuration *)

Module CONFIG.
Module SHEETS.
Definition VIDEOS := "Videos".
Definition OVERLAYS := "Overlays".
Definition QUIZ_ANALYTICS := "Quiz Analytics".
Definition USER_DATA := "User Data".
Definition SETTINGS := "Settings".
Definition USER_NOTES := "User Notes".
End SHEETS.
Module OVERLAY_TYPES.
Definition INFO := "info".
Definition QUIZ_MULTIPLE_CHOICE := "quiz".
Definition QUIZ_TRUE_FALSE := "true_false".
Definition QUIZ_MATCHING := "matching".
End OVERLAY_TYPES.
Module NEXT_ACTIONS.
Definition CONTINUE := "continue".
Definition NEXT_QUESTION := "next_question".
Definition IF_CORRECT := "if_correct".
Definition IF_INCORRECT := "if_incorrect".
Definition END := "end".
End NEXT_ACTIONS.
End CONFIG.
Import CONFIG.

(** ** The action resolver *)

Record action_data := { action : string; param : value }.

(** [nextAction.split(':')[1].trim()]. *)
Definition split_param (nextAction : string) : outcome value :=
  match split ":" nextAction !! 1%nat with
  | Some piece => Returned (VStr (trim piece))
  | None => Thrown
  end.

Definition parseNextAction (nextAction : value) : outcome action_data :=
  if negb (truthy nextAction) then
    mret {| action := NEXT_ACTIONS.CONTINUE; param := VNull |}
  else if bool_decide (nextAction ∈
            [VStr NEXT_ACTIONS.CONTINUE; VStr NEXT_ACTIONS.NEXT_QUESTION;
             VStr NEXT_ACTIONS.END]) then
    mret {| action := ToString nextAction; param := VNull |}
  else
    s ← string_method (fun s => s) nextAction;
    if startsWith s (NEXT_ACTIONS.IF_CORRECT +:+ ":") then
      p ← split_param s;
      mret {| action := NEXT_ACTIONS.IF_CORRECT; param := p |}
    else if startsWith s (NEXT_ACTIONS.IF_INCORRECT +:+ ":") then
      p ← split_param s;
      mret {| action := NEXT_ACTIONS.IF_INCORRECT; param := p |}
    else
      mret {| action := NEXT_ACTIONS.CONTINUE; param := VNull |}.

(** ** Overlays *)

Record quiz_option := {
  opt_text : value;
  opt_isCorrect : bool;
  opt_feedback : value
}.

Record image_data := {
  img_url : value;
  img_width : value;
  img_height : value
}.

Record overlay := {
  ov_id : string;
  ov_timestamp : Z;
  ov_title : value;
  ov_content : value;
  ov_type : string;
  ov_nextAction : string;
  ov_actionParam : value;
  ov_options : list quiz_option;
  ov_explanation : value;
  ov_correctFeedback : value;
  ov_incorrectFeedback : value;
  ov_groupName : value;
  ov_image : option image_data
}.

#[global] Instance quiz_option_eq_dec : EqDecision quiz_option.
Proof. solve_decision. Defined.

(** [overlay.actionParam = v]. *)
Definition set_actionParam (o : overlay) (v : value) : overlay :=
  {| ov_id := ov_id o; ov_timestamp := ov_timestamp o; ov_title := ov_title o;
     ov_content := ov_content o; ov_type := ov_type o;
     ov_nextAction := ov_nextAction o; ov_actionParam := v;
     ov_options := ov_options o; ov_explanation := ov_explanation o;
     ov_correctFeedback := ov_correctFeedback o;
     ov_incorrectFeedback := ov_incorrectFeedback o;
     ov_groupName := ov_groupName o; ov_image := ov_image o |}.

(** [overlay.options = l]. *)
Definition set_options (o : overlay) (l : list quiz_option) : overlay :=
  {| ov_id := ov_id o; ov_timestamp := ov_timestamp o; ov_title := ov_title o;
     ov_content := ov_content o; ov_type := ov_type o;
     ov_nextAction := ov_nextAction o; ov_actionParam := ov_actionParam o;
     ov_options := l; ov_explanation := ov_explanation o;
     ov_correctFeedback := ov_correctFeedback o;
     ov_incorrectFeedback := ov_incorrectFeedback o;
     ov_groupName := ov_groupName o; ov_image := ov_image o |}.

(** [overlay.image = img]. *)
Definition set_image (o : overlay) (img : image_data) : overlay :=
  {| ov_id := ov_id o; ov_timestamp := ov_timestamp o; ov_title := ov_title o;
     ov_content := ov_content o; ov_type := ov_type o;
     ov_nextAction := ov_nextAction o; ov_actionParam := ov_actionParam o;
     ov_options := ov_options o; ov_explanation := ov_explanation o;
     ov_correctFeedback := ov_correctFeedback o;
     ov_incorrectFeedback := ov_incorrectFeedback o;
     ov_groupName := ov_groupName o; ov_image := Some img |}.

(** The names every plain object inherits from [Object.prototype]; reading
    one of them on an object that has no own property of that name yields
    the inherited (truthy) function or object. *)
Definition Object_prototype_keys : list string :=
  ["constructor"; "__defineGetter__"; "__defineSetter__"; "hasOwnProperty";
   "__lookupGetter__"; "__lookupSetter__"; "isPrototypeOf";
   "propertyIsEnumerable"; "toString"; "valueOf"; "__proto__";
   "toLocaleString"].

(** [obj[key] = v] on a plain object, seen on its own properties: the
    assignment to [__proto__] goes to the inherited setter and defines
    nothing. *)
Definition set_property {A} (key : string) (v : A) (obj : gmap string A)
  : gmap string A :=
  if bool_decide (key = "__proto__") then obj else <[key := v]> obj.

(** What [getOverlaysForVideo] hands back on success.  [overlaysByTitle]
    holds references to the overlay objects of [overlays]; a reference is
    represented by the [id] of the object, which is unique to it. *)
Record overlays_data := {
  overlays : list overlay;
  groups : gmap string (list string);
  overlaysByTitle : gmap string string
}.

(** A result object of an entry point: the payload, or [{error: message}].
    For a caught exception the message keeps the script's own prefix; the
    engine's text of the exception is not represented. *)
Inductive response (A : Type) : Type :=
  | Success (a : A)
  | Error (message : string).
Arguments Success {A} a.
Arguments Error {A} message.

(** [[a[i], a[j]] = [a[j], a[i]]].  Both indices are inside the array
    whenever [Math.random] stays inside its interval (see
    [shuffle_swap_is_assignment]); an assignment beyond the end of the
    array, which would lengthen it, is not represented. *)
Definition swap {A} (a : list A) (i j : nat) : list A :=
  match a !! i, a !! j with
  | Some x, Some y => <[j := x]> (<[i := y]> a)
  | _, _ => a
  end.

(** [type.includes('quiz') || type.includes('true_false')]. *)
Definition is_question (type : string) : bool :=
  includes type "quiz" || includes type "true_false".

(** The [forEach] over the pieces of the correct-answer field. *)
Definition correct_options (correctFeedback : value) (correctAnswers : list string)
  : list quiz_option :=
  omap (fun answer =>
          if negb (String.eqb (trim answer) "") then
            Some {| opt_text := VStr (trim answer); opt_isCorrect := true;
                    opt_feedback := or_else correctFeedback (VStr "Correct!") |}
          else None) correctAnswers.

(** One turn of the loop [for (j = 7; j <= 9; j++)]: the option pushed for
    column [j], if any. *)
Definition incorrect_option (incorrectFeedback : value) (cellj : value)
  : outcome (list quiz_option) :=
  if truthy cellj then
    s ← toString cellj;
    if negb (String.eqb (trim s) "") then
      mret [{| opt_text := cellj; opt_isCorrect := false;
               opt_feedback := or_else incorrectFeedback (VStr "Incorrect.") |}]
    else mret []
  else mret [].

(** The [forEach] that looks for a TRUE and a FALSE option. *)
Fixpoint scan_true_false (options : list quiz_option) (hasTrueOption hasFalseOption : bool)
  : outcome (bool * bool) :=
  match options with
  | [] => mret (hasTrueOption, hasFalseOption)
  | option :: rest =>
      u1 ← toUpperCase (opt_text option);
      u2 ← toUpperCase (opt_text option);
      scan_true_false rest
        (if String.eqb u1 "TRUE" then true else hasTrueOption)
        (if String.eqb u2 "FALSE" then true else hasFalseOption)
  end.

Definition missing_option (incorrectFeedback : value) (text : string) : quiz_option :=
  {| opt_text := VStr text; opt_isCorrect := false;
     opt_feedback := or_else incorrectFeedback (VStr "Incorrect.") |}.

(** The block [if (type === 'true_false') { ... }]. *)
Definition ensure_true_false (type : string) (incorrectFeedback : value)
    (options : list quiz_option) : outcome (list quiz_option) :=
  if String.eqb type "true_false" then
    '(hasTrueOption, hasFalseOption) ← scan_true_false options false false;
    let options1 :=
      if negb hasTrueOption
      then options ++ [missing_option incorrectFeedback "TRUE"] else options in
    let options2 :=
      if negb hasFalseOption
      then options1 ++ [missing_option incorrectFeedback "FALSE"] else options1 in
    mret options2
  else mret options.

(** State of the loop over the rows of the Overlays sheet. *)
Record build_state := {
  st_overlays : list overlay;
  st_groups : gmap string (list string);
  st_overlaysByTitle : gmap string string;
  st_calls : nat
}.

(** [if (!groups[name]) groups[name] = []; groups[name].push(id)].  A name
    inherited from [Object.prototype] reads as truthy and has no [push]. *)
Definition add_to_group (name id : string) (groups : gmap string (list string))
  : outcome (gmap string (list string)) :=
  match groups !! name with
  | Some ids => mret (<[name := ids ++ [id]]> groups)
  | None =>
      if bool_decide (name ∈ Object_prototype_keys) then Thrown
      else mret (<[name := [id]]> groups)
  end.

(** [array.sort(compare)]: the sort is stable, and for a comparator that
    orders by an integer key its result is the one stable sorted
    rearrangement (see [Array_sort_unique]); it is computed here by
    insertion from the right. *)
Fixpoint sort_insert {A} (compare : A -> A -> Z) (x : A) (l : list A) : list A :=
  match l with
  | [] => [x]
  | y :: l' =>
      if compare x y <=? 0 then x :: y :: l'
      else y :: sort_insert compare x l'
  end.

Definition Array_sort {A} (compare : A -> A -> Z) (l : list A) : list A :=
  foldr (sort_insert compare) [] l.

(** The inner loop [for (j = i + 1; j < overlays.length; j++)]. *)
Definition find_next_question (overlays : list overlay) (i : nat) : option overlay :=
  List.find (fun o => is_question (ov_type o)) (drop (S i) overlays).

(** The body of the loop over the sorted overlays, at index [i]. *)
Definition link_step (i : nat) (overlays : list overlay) : list overlay :=
  match overlays !! i with
  | Some overlay =>
      if String.eqb (ov_nextAction overlay) NEXT_ACTIONS.NEXT_QUESTION then
        match find_next_question overlays i with
        | Some nextQuestion =>
            <[i := set_actionParam overlay (VNum (ov_timestamp nextQuestion))]> overlays
        | None => overlays
        end
      else overlays
  | None => overlays
  end.

(** [n] turns of that loop, starting at index [i]. *)
Fixpoint link_loop (n i : nat) (overlays : list overlay) : list overlay :=
  match n with
  | O => overlays
  | S n' => link_loop n' (S i) (link_step i overlays)
  end.

Definition link_next_questions (overlays : list overlay) : list overlay :=
  link_loop (length overlays) 0 overlays.

(** The store of the objects [shuffleArray] can see: array objects hold
    references to their elements, option objects hold their fields.
    References are natural numbers. *)
Record heap := {
  arrays : gmap nat (list nat);
  objects : gmap nat quiz_option
}.

Definition set_array (h : heap) (a : nat) (elements : list nat) : heap :=
  {| arrays := <[a := elements]> (arrays h); objects := objects h |}.

Section Randomised.

(** [Math_random n] is what the [n]-th call of [Math.random()] returns. *)
Variable Math_random : nat -> Q.

(** [Math.floor(Math.random() * (i + 1))], for the call number [calls]. *)
Definition random_index (calls i : nat) : nat :=
  Z.to_nat (Qfloor (Math_random calls * inject_Z (Z.of_nat (i + 1)))).

(** The loop [for (i = newArray.length - 1; i > 0; i--)], entered with
    [i]; it returns the array and the number of calls made. *)
Fixpoint shuffle_loop {A} (i calls : nat) (newArray : list A) : list A * nat :=
  match i with
  | O => (newArray, calls)
  | S i' => shuffle_loop i' (S calls) (swap newArray i (random_index calls i))
  end.

(** [shuffleArray] on the contents of the array. *)
Definition shuffleArray {A} (array : list A) (calls : nat) : list A * nat :=
  let newArray := array in
  shuffle_loop (length newArray - 1) calls newArray.

(** [shuffleArray] on the store: [[...array]] allocates a new array object
    with the same element references, and the loop swaps inside it. *)
Fixpoint shuffle_loop_heap (newArray : nat) (i calls : nat) (h : heap) : heap * nat :=
  match i with
  | O => (h, calls)
  | S i' =>
      let h' :=
        match arrays h !! newArray with
        | Some elements =>
            set_array h newArray (swap elements i (random_index calls i))
        | None => h
        end in
      shuffle_loop_heap newArray i' (S calls) h'
  end.

Definition shuffleArray_heap (array : nat) (calls : nat) (h : heap)
  : outcome (nat * heap * nat) :=
  match arrays h !! array with
  | Some elements =>
      let newArray := fresh (dom (arrays h)) in
      let h1 := set_array h newArray elements in
      let '(h2, calls') := shuffle_loop_heap newArray (length elements - 1) calls h1 in
      mret (newArray, h2, calls')
  | None => Thrown
  end.

(** *** The row parser *)

Variable videoTitle : value.

(** The options of a quiz-family row, and the number of calls of
    [Math.random] after building them. *)
Definition build_options (type : string) (row : list value)
    (correctFeedback incorrectFeedback : value) (calls : nat)
  : outcome (list quiz_option * nat) :=
  if is_question type then
    let correctAnswer := cell row 6 in
    if truthy correctAnswer then
      s ← toString correctAnswer;
      let correctAnswers := split "|" s in
      let options0 := correct_options correctFeedback correctAnswers in
      i7 ← incorrect_option incorrectFeedback (cell row 7);
      i8 ← incorrect_option incorrectFeedback (cell row 8);
      i9 ← incorrect_option incorrectFeedback (cell row 9);
      let options1 := options0 ++ i7 ++ i8 ++ i9 in
      options2 ← ensure_true_false type incorrectFeedback options1;
      mret (shuffleArray options2 calls)
    else mret ([], calls)
  else mret ([], calls).

(** The body of the loop over the rows up to [overlays.push(overlay)]:
    [None] when the row is not of this video or is skipped, otherwise the
    overlay built from row number [i]. *)
Definition parse_row (i : nat) (row : list value) (calls : nat)
  : outcome (option (overlay * nat)) :=
  if truthy (cell row 0) && strict_eq (cell row 0) videoTitle then
    let timestamp := parseInt (cell row 1) in
    let title := cell row 2 in
    let content := cell row 3 in
    type ← (if truthy (cell row 4) then toLowerCase (cell row 4)
            else mret OVERLAY_TYPES.INFO);
    let nextAction := or_else (cell row 5) (VStr "continue") in
    match timestamp with
    | None => mret None
    | Some timestamp =>
        if (timestamp =? 0) || negb (truthy title) || negb (truthy content)
        then mret None
        else
          nextActionData ← parseNextAction nextAction;
          let overlay :=
            {| ov_id := "overlay-" +:+ string_of_Z (Z.of_nat i);
               ov_timestamp := timestamp;
               ov_title := title;
               ov_content := content;
               ov_type := type;
               ov_nextAction := action nextActionData;
               ov_actionParam := param nextActionData;
               ov_options := [];
               ov_explanation := or_else (cell row 11) (VStr "");
               ov_correctFeedback := or_else (cell row 12) (VStr "");
               ov_incorrectFeedback := or_else (cell row 13) (VStr "");
               ov_groupName := or_else (cell row 10) (VStr "");
               ov_image := None |} in
          '(options, calls') ←
             build_options type row (ov_correctFeedback overlay)
               (ov_incorrectFeedback overlay) calls;
          let overlay := set_options overlay options in
          let overlay :=
            if truthy (cell row 14) then
              set_image overlay
                {| img_url := cell row 14;
                   img_width := or_else (cell row 15) (VStr "auto");
                   img_height := or_else (cell row 16) (VStr "auto") |}
            else overlay in
          mret (Some (overlay, calls'))
    end
  else mret None.

(** One turn of the loop over the rows. *)
Definition process_row (i : nat) (row : list value) (st : build_state)
  : outcome build_state :=
  parsed ← parse_row i row (st_calls st);
  match parsed with
  | None => mret st
  | Some (overlay, calls') =>
      let overlays := st_overlays st ++ [overlay] in
      let overlaysByTitle :=
        set_property (ToString (ov_title overlay)) (ov_id overlay)
          (st_overlaysByTitle st) in
      groups ← (if truthy (ov_groupName overlay)
                then add_to_group (ToString (ov_groupName overlay))
                       (ov_id overlay) (st_groups st)
                else mret (st_groups st));
      mret {| st_overlays := overlays; st_groups := groups;
              st_overlaysByTitle := overlaysByTitle; st_calls := calls' |}
  end.

(** The loop [for (i = 1; i < overlaysData.length; i++)], from row [i] on. *)
Fixpoint process_rows (i : nat) (rows : list (list value)) (st : build_state)
  : outcome build_state :=
  match rows with
  | [] => mret st
  | row :: rest =>
      st' ← process_row i row st;
      process_rows (S i) rest st'
  end.

Definition initial_state (calls : nat) : build_state :=
  {| st_overlays := []; st_groups := ∅; st_overlaysByTitle := ∅;
     st_calls := calls |}.

Definition by_timestamp (a b : overlay) : Z := ov_timestamp a - ov_timestamp b.

(** The body of the [try] block once the sheet has been read. *)
Definition build_overlays (overlaysData : list (list value)) (calls : nat)
  : outcome overlays_data :=
  st ← process_rows 1 (drop 1 overlaysData) (initial_state calls);
  let overlays := Array_sort by_timestamp (st_overlays st) in
  let overlays := link_next_questions overlays in
  mret {| overlays := overlays; groups := st_groups st;
          overlaysByTitle := st_overlaysByTitle st |}.

(** [getOverlaysForVideo(videoTitle)]; [overlaysSheet] is the data range of
    the Overlays sheet, [None] when the spreadsheet has no such sheet. *)
Definition getOverlaysForVideo (overlaysSheet : option (list (list value)))
    (calls : nat) : response overlays_data :=
  match overlaysSheet with
  | None => Error "Overlays tab not found"
  | Some overlaysData =>
      match build_overlays overlaysData calls with
      | Returned result => Success result
      | Thrown => Error "Error getting overlays: "
      end
  end.

End Randomised.

(** ** Application settings

    The Settings sheet is the list of its rows, header first; [None] when
    the spreadsheet has no such sheet.  [appendRow] adds the row it is given
    below the last row.  What a cell then holds is the spreadsheet's matter:
    [updateAppSettings] is the writer on a store that keeps each cell as it
    was written, [updateAppSettings_entered] the writer on a sheet that
    reads what it is given as if it were typed in. *)

Definition getDefaultSettings : gmap string value :=
  list_to_map
    [("TeacherModeEnabled", VBool true); ("AllowNotes", VBool true);
     ("ShowProgressBar", VBool true); ("ShowStudentReport", VBool true);
     ("PrimaryColor", VStr "#4285f4"); ("SecondaryColor", VStr "#34a853");
     ("AllowSkipping", VBool false); ("RequireCorrectAnswers", VBool false)].

(** The body of the loop of [getAppSettings] for one row. *)
Definition read_setting (settings : gmap string value) (row : list value)
  : gmap string value :=
  let setting := cell row 0 in
  let value := cell row 1 in
  if strict_eq value (VStr "TRUE") || strict_eq value (VStr "FALSE") then
    set_property (ToString setting) (VBool (strict_eq value (VStr "TRUE"))) settings
  else
    set_property (ToString setting) value settings.

Definition getAppSettings (settingsSheet : option (list (list value)))
  : gmap string value :=
  match settingsSheet with
  | None => getDefaultSettings
  | Some settingsData => foldl read_setting ∅ (drop 1 settingsData)
  end.

(** The loop [for (const setting in settings)] over the own properties of
    [settings], in the order of enumeration. *)
Fixpoint append_settings (settings : list (string * value)) (sheet : list (list value))
  : list (list value) * outcome unit :=
  match settings with
  | [] => (sheet, mret tt)
  | (setting, v) :: rest =>
      match toString v with
      | Returned s => append_settings rest (sheet ++ [[VStr setting; VStr s]])
      | Thrown => (sheet, Thrown)
      end
  end.

(** [updateAppSettings(settings)]: the Settings sheet after the call, and
    the result object. *)
Definition updateAppSettings (settings : list (string * value))
    (settingsSheet : option (list (list value)))
  : option (list (list value)) * response string :=
  let sheet0 :=
    match settingsSheet with
    | Some rows => rows
    | None => [[VStr "Setting"; VStr "Value"; VStr "Description"]]
    end in
  let lastRow := length sheet0 in
  let sheet1 := if (1 <? lastRow)%nat then take 1 sheet0 else sheet0 in
  match append_settings settings sheet1 with
  | (sheet2, Returned _) => (Some sheet2, Success "Settings updated successfully")
  | (sheet2, Thrown) => (Some sheet2, Error "Failed to update settings: ")
  end.

(** The same writer on a sheet that takes what [appendRow] gives it as if
    it had been typed into the cell: the cell then holds [entered v], which
    for a text can be the boolean, the number or the date that the sheet
    recognises in it.  [entered] is the spreadsheet's part, the script has
    no code for it. *)
Fixpoint append_settings_entered (entered : value -> value)
    (settings : list (string * value)) (sheet : list (list value))
  : list (list value) * outcome unit :=
  match settings with
  | [] => (sheet, mret tt)
  | (setting, v) :: rest =>
      match toString v with
      | Returned s =>
          append_settings_entered entered rest
            (sheet ++ [[entered (VStr setting); entered (VStr s)]])
      | Thrown => (sheet, Thrown)
      end
  end.

Definition updateAppSettings_entered (entered : value -> value)
    (settings : list (string * value))
    (settingsSheet : option (list (list value)))
  : option (list (list value)) * response string :=
  let sheet0 :=
    match settingsSheet with
    | Some rows => rows
    | None => [[entered (VStr "Setting"); entered (VStr "Value");
                entered (VStr "Description")]]
    end in
  let lastRow := length sheet0 in
  let sheet1 := if (1 <? lastRow)%nat then take 1 sheet0 else sheet0 in
  match append_settings_entered entered settings sheet1 with
  | (sheet2, Returned _) => (Some sheet2, Success "Settings updated successfully")
  | (sheet2, Thrown) => (Some sheet2, Error "Failed to update settings: ")
  end.

(** ** The student report *)

Record quiz_detail := {
  qd_overlayId : value;
  qd_quizType : value;
  qd_wasCorrect : bool;
  qd_selectedOption : value;
  qd_timeToAnswer : Q
}.

Record quiz_performance := {
  totalQuestions : nat;
  correctAnswers : nat;
  incorrectAnswers : nat;
  accuracyPercentage : number;
  averageTimeToAnswer : number;
  quizDetails : list quiz_detail
}.

(** Times are the milliseconds since the epoch of the [Date] objects. *)
Record viewing_statistics := {
  startTime : option Z;
  endTime : option Z;
  totalTimeSpent : number;
  completionPercentage : Z;
  pauseCount : nat
}.

Record report_summary := {
  sum_title : string;
  sum_message : string;
  sum_grade : string;
  sum_feedback : string
}.

Record student_report := {
  rep_videoTitle : value;
  rep_userId : value;
  rep_sessionId : value;
  quizPerformance : quiz_performance;
  viewingStatistics : viewing_statistics;
  notesCount : nat;
  summary : report_summary
}.

(** What [getStudentReport] returns: the report, or
    [{error: message, summary: ...}]. *)
Inductive report_response : Type :=
  | Report (report : student_report)
  | ReportError (message : string) (summary : report_summary).

(** A row of the User Data sheet below the header.  Column A holds the
    [Date] that [recordUserEvent] wrote, given by its milliseconds. *)
Record user_event := {
  ue_timestamp : Z;
  ue_sessionId : value;
  ue_videoTitle : value;
  ue_eventType : value
}.

Definition createDefaultReportSummary : report_summary :=
  {| sum_title := "Activity Completed";
     sum_message := "You have completed this video activity.";
     sum_grade := "N/A";
     sum_feedback := "No quiz data available for this session." |}.

Definition string_of_nat (n : nat) : string := string_of_Z (Z.of_nat n).

(** The number of tenths nearest to [|x|], the larger one on a tie. *)
Definition tenths (x : Q) : Z := Qfloor (Qabs x * 10 + (1 # 2)).

(** [x.toFixed(1)]. *)
Definition toFixed1 (x : Q) : string :=
  (if Qle_bool 0 x then "" else "-") +:+
  string_of_Z (tenths x / 10) +:+ "." +:+ string_of_Z (tenths x mod 10).

(** The number a string made by [toFixed(1)] converts back to. *)
Definition Number_toFixed1 (x : Q) : Q :=
  (if Qle_bool 0 x then 1 else -1) * (tenths x # 10).

(** [x.toFixed(1)] on a number. *)
Definition Number_toFixed (x : number) : string :=
  match x with
  | Finite q => toFixed1 q
  | NaN => "NaN"
  | Infinity negative => (if negative then "-" else "") +:+ "Infinity"
  end.

(** [s >= n] for the string [s] that [x.toFixed(1)] made: the string is
    converted back to a number. *)
Definition toFixed_ge (x : number) (n : Q) : bool :=
  match x with
  | Finite q => Qle_bool n (Number_toFixed1 q)
  | NaN => false
  | Infinity negative => negb negative
  end.

Definition quote : string := String (ascii_of_nat 34) EmptyString.

Definition generateReportSummary (report : student_report) : report_summary :=
  let title := "Activity Completed" in
  let message :=
    "You have completed " +:+ quote +:+ ToString (rep_videoTitle report)
      +:+ quote +:+ "." in
  let performance := quizPerformance report in
  let '(grade, feedback, message) :=
    if (0 <? totalQuestions performance)%nat then
      let accuracy := accuracyPercentage performance in
      let grade := Number_toFixed accuracy +:+ "%" in
      let feedback :=
        if toFixed_ge accuracy 90 then
          "Excellent work! You demonstrated a strong understanding of the material."
        else if toFixed_ge accuracy 75 then
          "Good job! You have a solid grasp of most concepts."
        else if toFixed_ge accuracy 60 then
          "You're on the right track, but may want to review the material again to strengthen your understanding."
        else
          "It looks like you might need to revisit this content. Consider rewatching the video and paying close attention to the key points." in
      (grade, feedback,
       message +:+ " You answered " +:+ string_of_nat (correctAnswers performance)
         +:+ " out of " +:+ string_of_nat (totalQuestions performance)
         +:+ " questions correctly.")
    else
      ("N/A", "No quiz data available for this session.", message) in
  let message :=
    if (0 <? notesCount report)%nat then
      message +:+ " You took " +:+ string_of_nat (notesCount report) +:+ " note"
        +:+ (if negb (notesCount report =? 1)%nat then "s" else "")
        +:+ " during the video."
    else message in
  {| sum_title := title; sum_message := message; sum_grade := grade;
     sum_feedback := feedback |}.

Section StudentReport.

(** [parseFloat] of a cell: the double it reads, by its exact value; [None]
    is NaN.  A cell that reads as an infinity is not represented. *)
Variable parseFloat : value -> option Q.

Variables videoTitle sessionId userId : value.

(** The running totals of the loop over the Quiz Analytics rows. *)
Record quiz_totals := {
  qt_total : nat;
  qt_correct : nat;
  qt_incorrect : nat;
  qt_time : Q;
  qt_details : list quiz_detail
}.

Definition count_attempt (acc : quiz_totals) (row : list value) : quiz_totals :=
  if strict_eq (cell row 8) sessionId && strict_eq (cell row 2) videoTitle then
    let overlayId := cell row 3 in
    let quizType := cell row 4 in
    let wasCorrect :=
      strict_eq (cell row 5) (VBool true) || strict_eq (cell row 5) (VStr "TRUE") in
    let selectedOption := cell row 6 in
    let timeToAnswer := default 0%Q (parseFloat (cell row 7)) in
    {| qt_total := S (qt_total acc);
       qt_correct := if wasCorrect then S (qt_correct acc) else qt_correct acc;
       qt_incorrect := if wasCorrect then qt_incorrect acc else S (qt_incorrect acc);
       qt_time := round_double (qt_time acc + timeToAnswer);
       qt_details := qt_details acc ++
         [{| qd_overlayId := overlayId; qd_quizType := quizType;
             qd_wasCorrect := wasCorrect; qd_selectedOption := selectedOption;
             qd_timeToAnswer := timeToAnswer |}] |}
  else acc.

(** The running state of the loop over the User Data rows. *)
Record viewing_scan := {
  startEvent : option Z;
  endEvent : option Z;
  vs_pauseCount : nat
}.

Definition scan_event (acc : viewing_scan) (row : user_event) : viewing_scan :=
  if strict_eq (ue_sessionId row) sessionId && strict_eq (ue_videoTitle row) videoTitle then
    let timestamp := ue_timestamp row in
    let eventType := ue_eventType row in
    let startEvent1 :=
      if strict_eq eventType (VStr "activity_started") &&
         match startEvent acc with None => true | Some s => timestamp <? s end
      then Some timestamp else startEvent acc in
    let endEvent1 :=
      if strict_eq eventType (VStr "video_completed") &&
         match endEvent acc with None => true | Some e => timestamp >? e end
      then Some timestamp else endEvent acc in
    let pauseCount1 :=
      if strict_eq eventType (VStr "video_paused")
      then S (vs_pauseCount acc) else vs_pauseCount acc in
    {| startEvent := startEvent1; endEvent := endEvent1; vs_pauseCount := pauseCount1 |}
  else acc.

Definition count_note (notesCount : nat) (row : list value) : nat :=
  if strict_eq (cell row 5) sessionId && strict_eq (cell row 2) videoTitle
  then S notesCount else notesCount.

(** [getStudentReport(videoTitle, sessionId, userId = 'anonymous')] over
    the three sheets it reads; a sheet the spreadsheet does not have is
    [None].  The default applies when [userId] is [undefined]. *)
Definition getStudentReport (analyticsSheet : option (list (list value)))
    (userDataSheet : option (list user_event))
    (notesSheet : option (list (list value))) : report_response :=
  let userId := if strict_eq userId VUndefined then VStr "anonymous" else userId in
  match analyticsSheet with
  | None => ReportError "No quiz analytics data available" createDefaultReportSummary
  | Some analyticsData =>
      let viewingData := default [] userDataSheet in
      let notesData := default [] notesSheet in
      let totals :=
        foldl count_attempt
          {| qt_total := 0; qt_correct := 0; qt_incorrect := 0; qt_time := 0;
             qt_details := [] |}
          (drop 1 analyticsData) in
      let '(accuracy, average) :=
        if (0 <? qt_total totals)%nat then
          (percentage (qt_correct totals) (qt_total totals),
           Number_div (Finite (qt_time totals)) (Number_of_nat (qt_total totals)))
        else (Finite 0, Finite 0) in
      let scan :=
        foldl scan_event
          {| startEvent := None; endEvent := None; vs_pauseCount := 0 |}
          viewingData in
      let statistics :=
        match startEvent scan, endEvent scan with
        | Some s, Some e =>
            {| startTime := Some s; endTime := Some e;
               totalTimeSpent :=
                 Number_div (Finite (inject_Z (e - s))) (Finite 1000);
               completionPercentage := 100;
               pauseCount := vs_pauseCount scan |}
        | _, _ =>
            {| startTime := None; endTime := None; totalTimeSpent := Finite 0;
               completionPercentage := 0; pauseCount := vs_pauseCount scan |}
        end in
      let report :=
        {| rep_videoTitle := videoTitle; rep_userId := userId;
           rep_sessionId := sessionId;
           quizPerformance :=
             {| totalQuestions := qt_total totals;
                correctAnswers := qt_correct totals;
                incorrectAnswers := qt_incorrect totals;
                accuracyPercentage := accuracy;
                averageTimeToAnswer := average;
                quizDetails := qt_details totals |};
           viewingStatistics := statistics;
           notesCount := foldl count_note 0%nat (drop 1 notesData);
           summary := createDefaultReportSummary |} in
      Report
        {| rep_videoTitle := rep_videoTitle report; rep_userId := rep_userId report;
           rep_sessionId := rep_sessionId report;
           quizPerformance := quizPerformance report;
           viewingStatistics := viewingStatistics report;
           notesCount := notesCount report;
           summary := generateReportSummary report |}
  end.

End StudentReport.

(** ** The sheets the page needs

    The spreadsheet is the map from the names of its sheets to their rows.
    [insertSheet] adds an empty sheet and [appendRow] a row below the last
    one. *)

Definition analytics_header : list value :=
  [VStr "Timestamp"; VStr "User ID"; VStr "Video Title"; VStr "Overlay ID";
   VStr "Quiz Type"; VStr "Was Correct"; VStr "Selected Option";
   VStr "Time to Answer (sec)"; VStr "Session ID"].

Definition user_data_header : list value :=
  [VStr "Timestamp"; VStr "Session ID"; VStr "User ID"; VStr "Video Title";
   VStr "Event Type"; VStr "Event Data"; VStr "Browser"; VStr "Device"].

Definition notes_header : list value :=
  [VStr "Timestamp"; VStr "User ID"; VStr "Video Title"; VStr "Video Time (sec)";
   VStr "Note Content"; VStr "Session ID"].

(** The Settings sheet as [ensureRequiredSheets] fills it. *)
Definition settings_seed : list (list value) :=
  [[VStr "Setting"; VStr "Value"; VStr "Description"];
   [VStr "TeacherModeEnabled"; VStr "TRUE";
    VStr "Enable teacher mode toggle in the web app"];
   [VStr "AllowNotes"; VStr "TRUE";
    VStr "Allow students to take notes during the video"];
   [VStr "ShowProgressBar"; VStr "TRUE";
    VStr "Show progress bar with overlay markers"];
   [VStr "ShowStudentReport"; VStr "TRUE";
    VStr "Show performance report at the end of the video"];
   [VStr "PrimaryColor"; VStr "#4285f4"; VStr "Primary theme color (hex code)"];
   [VStr "SecondaryColor"; VStr "#34a853"; VStr "Secondary theme color (hex code)"];
   [VStr "AllowSkipping"; VStr "FALSE";
    VStr "Allow students to skip ahead in the video"];
   [VStr "RequireCorrectAnswers"; VStr "FALSE";
    VStr "Require correct answers to continue"]].

(** [if (!ss.getSheetByName(name)) { insertSheet(name), appendRow ... }]. *)
Definition ensure_sheet (name : string) (rows : list (list value))
    (ss : gmap string (list (list value))) : gmap string (list (list value)) :=
  match ss !! name with
  | Some _ => ss
  | None => <[name := rows]> ss
  end.

Definition ensureRequiredSheets (ss : gmap string (list (list value)))
  : gmap string (list (list value)) :=
  let ss := ensure_sheet SHEETS.QUIZ_ANALYTICS [analytics_header] ss in
  let ss := ensure_sheet SHEETS.USER_DATA [user_data_header] ss in
  let ss := ensure_sheet SHEETS.SETTINGS settings_seed ss in
  ensure_sheet SHEETS.USER_NOTES [notes_header] ss.

(** ** The video of the page *)

(** *** The regular expression of [extractYouTubeVideoId]

    A matcher is given what remains to be matched after it (the
    continuation) and the rest of the input.  The capture group is the last
    item of the expression, so the continuation of the whole expression is
    the capture, and a successful match yields the captured text.  A
    repetition tries its longest extent first and an alternation its left
    branch first: the backtracking order of ECMAScript. *)

(** The literal [l]. *)
Fixpoint re_lit (l : string) (k : string -> option string) (s : string)
  : option string :=
  match l with
  | EmptyString => k s
  | String c l' =>
      match s with
      | String d s' => if Ascii.eqb c d then re_lit l' k s' else None
      | EmptyString => None
      end
  end.

(** One character of the class [p]. *)
Definition re_one (p : ascii -> bool) (k : string -> option string) (s : string)
  : option string :=
  match s with
  | String c s' => if p c then k s' else None
  | EmptyString => None
  end.

(** [p*], greedy. *)
Fixpoint re_star (p : ascii -> bool) (k : string -> option string) (s : string)
  : option string :=
  match s with
  | String c s' =>
      if p c then
        match re_star p k s' with
        | Some r => Some r
        | None => k s
        end
      else k s
  | EmptyString => k s
  end.

(** [p+], greedy. *)
Definition re_plus (p : ascii -> bool) (k : string -> option string)
  : string -> option string :=
  re_one p (re_star p k).

(** [a|b]. *)
Definition re_alt (a b : (string -> option string) -> string -> option string)
    (k : string -> option string) (s : string) : option string :=
  match a k s with
  | Some r => Some r
  | None => b k s
  end.

(** [ab]. *)
Definition re_seq (a b : (string -> option string) -> string -> option string)
    (k : string -> option string) : string -> option string :=
  a (b k).

(** [a?], greedy. *)
Definition re_opt (a : (string -> option string) -> string -> option string)
  : (string -> option string) -> string -> option string :=
  re_alt a (fun k => k).

(** [(p{n})] at the end of the expression: the captured text. *)
Fixpoint re_capture (p : ascii -> bool) (n : nat) (s : string) : option string :=
  match n with
  | O => Some EmptyString
  | S n' =>
      match s with
      | String c s' => if p c then String c <$> re_capture p n' s' else None
      | EmptyString => None
      end
  end.

(** [.]: any character but a line terminator. *)
Definition is_dot (c : ascii) : bool :=
  negb ((nat_of_ascii c =? 10)%nat || (nat_of_ascii c =? 13)%nat).

(** [[^\/]]. *)
Definition not_slash (c : ascii) : bool := negb (Ascii.eqb c "/").

(** [[?&]]. *)
Definition is_query_mark (c : ascii) : bool := Ascii.eqb c "?" || Ascii.eqb c "&".

(** The class of the capture group: neither a double quote, [&], [?], [/]
    nor white space. *)
Definition is_id_char (c : ascii) : bool :=
  negb (Ascii.eqb c (ascii_of_nat 34) || Ascii.eqb c "&" || Ascii.eqb c "?"
        || Ascii.eqb c "/" || is_white c).

(** [[^\/]+\/.+\/]. *)
Definition path_nested : (string -> option string) -> string -> option string :=
  re_seq (re_plus not_slash)
    (re_seq (re_lit "/") (re_seq (re_plus is_dot) (re_lit "/"))).

(** [(?:v|e(?:mbed)?)\/]. *)
Definition path_short : (string -> option string) -> string -> option string :=
  re_seq (re_alt (re_lit "v") (re_seq (re_lit "e") (re_opt (re_lit "mbed"))))
    (re_lit "/").

(** [.*[?&]v=]. *)
Definition path_query : (string -> option string) -> string -> option string :=
  re_seq (re_star is_dot) (re_seq (re_one is_query_mark) (re_lit "v=")).

(** The expression up to its capture group:
    [(?:youtube\.com\/(?:[^\/]+\/.+\/|(?:v|e(?:mbed)?)\/|.*[?&]v=)|youtu\.be\/)]. *)
Definition youtube_regex : (string -> option string) -> string -> option string :=
  re_alt
    (re_seq (re_lit "youtube.com/")
       (re_alt path_nested (re_alt path_short path_query)))
    (re_lit "youtu.be/").

(** [s.match(/.../)[1]]: the capture of the match at the leftmost position
    where the expression matches; [None] when it matches nowhere. *)
Fixpoint String_match (s : string) : option string :=
  match youtube_regex (re_capture is_id_char 11) s with
  | Some r => Some r
  | None =>
      match s with
      | String _ s' => String_match s'
      | EmptyString => None
      end
  end.

(** [extractYouTubeVideoId(url)]: the identifier or [null]; a truthy [url]
    that is not a string has no [match]. *)
Definition extractYouTubeVideoId (url : value) : outcome (option string) :=
  if negb (truthy url) then mret None
  else match url with
       | VStr s => mret (String_match s)
       | _ => Thrown
       end.

(** What [getDefaultVideo] returns on success. *)
Record default_video := {
  dv_videoId : string;
  dv_videoTitle : value;
  dv_settings : gmap string value
}.

(** Column D of a row of the Videos sheet. *)
Definition is_active (row : list value) : bool :=
  strict_eq (cell row 3) (VBool true) || strict_eq (cell row 3) (VStr "TRUE").

(** [getDefaultVideo()] over the Videos and the Settings sheet. *)
Definition getDefaultVideo (videosSheet settingsSheet : option (list (list value)))
  : response default_video :=
  match videosSheet with
  | None => Error "Videos tab not found"
  | Some videoData =>
      match List.find is_active (drop 1 videoData) with
      | None =>
          Error "No active video found. Please set at least one video to Active=TRUE in the Videos tab."
      | Some activeVideo =>
          let videoTitle := cell activeVideo 0 in
          let videoUrl := cell activeVideo 1 in
          match extractYouTubeVideoId videoUrl with
          | Thrown => Error "Error getting video: "
          | Returned None => Error "Invalid YouTube URL in the active video row."
          | Returned (Some videoId) =>
              Success {| dv_videoId := videoId; dv_videoTitle := videoTitle;
                         dv_settings := getAppSettings settingsSheet |}
          end
      end
  end.

(** ** Recording attempts and notes

    The [Date] that a recording function writes in column A is the cell
    [now]; no function that reads these two sheets looks inside it. *)

(** The argument of [recordQuizAttempt]; a property the object lacks is
    [undefined]. *)
Record quiz_data := {
  qz_userId : value;
  qz_videoTitle : value;
  qz_overlayId : value;
  qz_quizType : value;
  qz_wasCorrect : value;
  qz_selectedOption : value;
  qz_timeToAnswer : value;
  qz_sessionId : value
}.

(** [recordQuizAttempt(quizData)]: the Quiz Analytics sheet after the call
    and the result object. *)
Definition recordQuizAttempt (now : value) (quizData : quiz_data)
    (analyticsSheet : option (list (list value)))
  : option (list (list value)) * response string :=
  let sheet0 :=
    match analyticsSheet with
    | Some rows => rows
    | None => [analytics_header]
    end in
  (Some (sheet0 ++
     [[now;
       or_else (qz_userId quizData) (VStr "anonymous");
       or_else (qz_videoTitle quizData) (VStr "");
       or_else (qz_overlayId quizData) (VStr "");
       or_else (qz_quizType quizData) (VStr "quiz");
       qz_wasCorrect quizData;
       or_else (qz_selectedOption quizData) (VStr "");
       or_else (qz_timeToAnswer quizData) (VNum 0);
       or_else (qz_sessionId quizData) (VStr "")]]),
   Success "Quiz data recorded successfully").

(** The argument of [saveUserNote]. *)
Record note_data := {
  nd_userId : value;
  nd_videoTitle : value;
  nd_videoTime : value;
  nd_noteContent : value;
  nd_sessionId : value
}.

(** [saveUserNote(noteData)]: the User Notes sheet after the call and the
    result object. *)
Definition saveUserNote (now : value) (noteData : note_data)
    (notesSheet : option (list (list value)))
  : option (list (list value)) * response string :=
  let sheet0 :=
    match notesSheet with
    | Some rows => rows
    | None => [notes_header]
    end in
  (Some (sheet0 ++
     [[now;
       or_else (nd_userId noteData) (VStr "anonymous");
       or_else (nd_videoTitle noteData) (VStr "");
       or_else (nd_videoTime noteData) (VNum 0);
       or_else (nd_noteContent noteData) (VStr "");
       or_else (nd_sessionId noteData) (VStr "")]]),
   Success "Note saved successfully").

(** An element of the [notes] that [getUserNotes] returns. *)
Record user_note := {
  note_timestamp : value;
  note_videoTime : value;
  note_content : value
}.

(** The body of the loop of [getUserNotes] for one row. *)
Definition collect_note (videoTitle userId : value) (notes : list user_note)
    (row : list value) : list user_note :=
  if strict_eq (cell row 2) videoTitle && strict_eq (cell row 1) userId then
    notes ++ [{| note_timestamp := cell row 0; note_videoTime := cell row 3;
                 note_content := cell row 4 |}]
  else notes.

(** [getUserNotes(videoTitle, userId = 'anonymous')]: the [notes] of the
    result object; the default applies when [userId] is [undefined]. *)
Definition getUserNotes (videoTitle userId : value)
    (notesSheet : option (list (list value))) : list user_note :=
  let userId := if strict_eq userId VUndefined then VStr "anonymous" else userId in
  match notesSheet with
  | None => []
  | Some notesData => foldl (collect_note videoTitle userId) [] (drop 1 notesData)
  end.

(** The argument of [recordUserEvent]. *)
Record event_data := {
  ev_sessionId : value;
  ev_userId : value;
  ev_videoTitle : value;
  ev_eventType : value;
  ev_eventData : value;
  ev_browser : value;
  ev_device : value
}.

(** [recordUserEvent(eventData)] at the time [now], the milliseconds of
    the [Date] written in column A: the rows of the User Data sheet below
    its header after the call, and the result object.  Of the row written,
    the columns that [getStudentReport] reads are kept. *)
Definition recordUserEvent (now : Z) (eventData : event_data)
    (userDataSheet : option (list user_event))
  : option (list user_event) * response string :=
  let sheet0 :=
    match userDataSheet with
    | Some rows => rows
    | None => []
    end in
  (Some (sheet0 ++
     [{| ue_timestamp := now;
         ue_sessionId := or_else (ev_sessionId eventData) (VStr "");
         ue_videoTitle := or_else (ev_videoTitle eventData) (VStr "");
         ue_eventType := or_else (ev_eventType eventData) (VStr "") |}]),
   Success "User event recorded successfully").

(** ** The quiz performance report of the teacher view *)

(** The counters of the report, and of each of its entries by overlay and
    by user; [correctPercentage] is set only where there is an attempt. *)
Record attempt_counts := {
  totalAttempts : nat;
  correctAttempts : nat;
  incorrectAttempts : nat;
  correctPercentage : option number
}.

(** The report: its own counters are [pr_counts]. *)
Record performance_report := {
  pr_counts : attempt_counts;
  pr_averageTimeToAnswer : number;
  quizzesByOverlay : gmap string attempt_counts;
  userPerformance : gmap string attempt_counts
}.

(** [c.totalAttempts++] and the increment of one of the other two. *)
Definition count_one (wasCorrect : bool) (c : attempt_counts) : attempt_counts :=
  {| totalAttempts := S (totalAttempts c);
     correctAttempts := if wasCorrect then S (correctAttempts c) else correctAttempts c;
     incorrectAttempts :=
       if wasCorrect then incorrectAttempts c else S (incorrectAttempts c);
     correctPercentage := correctPercentage c |}.

Definition no_attempts : attempt_counts :=
  {| totalAttempts := 0; correctAttempts := 0; incorrectAttempts := 0;
     correctPercentage := None |}.

(** [if (!obj[key]) obj[key] = {...}; obj[key].totalAttempts++; ...], seen on
    the own properties of [obj]: under a name inherited from
    [Object.prototype] the test finds the inherited member, nothing is
    created, and the increments land on that member. *)
Definition count_under (key : string) (wasCorrect : bool)
    (obj : gmap string attempt_counts) : gmap string attempt_counts :=
  if bool_decide (key ∈ Object_prototype_keys) then obj
  else <[key := count_one wasCorrect (default no_attempts (obj !! key))]> obj.

(** [c.correctPercentage = (c.correctAttempts / c.totalAttempts) * 100]
    under [if (c.totalAttempts > 0)]. *)
Definition set_percentage (c : attempt_counts) : attempt_counts :=
  if (0 <? totalAttempts c)%nat then
    {| totalAttempts := totalAttempts c; correctAttempts := correctAttempts c;
       incorrectAttempts := incorrectAttempts c;
       correctPercentage :=
         Some (percentage (correctAttempts c) (totalAttempts c)) |}
  else c.

Section PerformanceReport.

Variable parseFloat : value -> option Q.

(** The parameter with its default: [videoTitle = null]. *)
Variable videoTitle : value.

(** The running state of the loop over the rows: the report and
    [totalTimeToAnswer]. *)
Definition count_row (acc : performance_report * Q) (row : list value)
  : performance_report * Q :=
  let '(report, totalTimeToAnswer) := acc in
  let videoTitle := if strict_eq videoTitle VUndefined then VNull else videoTitle in
  let rowVideoTitle := cell row 2 in
  if truthy videoTitle && negb (strict_eq rowVideoTitle videoTitle) then acc
  else
    let userId := cell row 1 in
    let overlayId := cell row 3 in
    let wasCorrect :=
      strict_eq (cell row 5) (VBool true) || strict_eq (cell row 5) (VStr "TRUE") in
    let timeToAnswer := default 0%Q (parseFloat (cell row 7)) in
    ({| pr_counts := count_one wasCorrect (pr_counts report);
        pr_averageTimeToAnswer := pr_averageTimeToAnswer report;
        quizzesByOverlay :=
          count_under (ToString overlayId) wasCorrect (quizzesByOverlay report);
        userPerformance :=
          count_under (ToString userId) wasCorrect (userPerformance report) |},
     round_double (totalTimeToAnswer + timeToAnswer)).

(** [getQuizPerformanceReport(videoTitle)] over the Quiz Analytics sheet. *)
Definition getQuizPerformanceReport (analyticsSheet : option (list (list value)))
  : response performance_report :=
  match analyticsSheet with
  | None => Error "No quiz analytics data available"
  | Some analyticsData =>
      let '(report, totalTimeToAnswer) :=
        foldl count_row
          ({| pr_counts := no_attempts; pr_averageTimeToAnswer := Finite 0;
              quizzesByOverlay := ∅; userPerformance := ∅ |}, 0%Q)
          (drop 1 analyticsData) in
      Success
        {| pr_counts := set_percentage (pr_counts report);
           pr_averageTimeToAnswer :=
             if (0 <? totalAttempts (pr_counts report))%nat then
               Number_div (Finite totalTimeToAnswer)
                 (Number_of_nat (totalAttempts (pr_counts report)))
             else pr_averageTimeToAnswer report;
           quizzesByOverlay := set_percentage <$> quizzesByOverlay report;
           userPerformance := set_percentage <$> userPerformance report |}
  end.

End PerformanceReport.

(** ** The setup script

    What [setupOverlaysSheet] of the setup script installs on the Next
    Action column of the Overlays sheet: a dropdown with these values,
    entries outside it being refused. *)

Module Setup.

Definition nextActions : list string :=
  ["continue"; "next_question"; "if_correct"; "if_incorrect"; "end"].

End Setup.

(** ** The directive grammar, as the specification words it *)

(** The text after the first [sep] of [s]; empty when [s] has none. *)
Fixpoint after_first (sep : ascii) (s : string) : string :=
  match s with
  | EmptyString => EmptyString
  | String c s' => if Ascii.eqb c sep then s' else after_first sep s'
  end.

(** The text before the first [sep] of [s]; all of [s] when it has none. *)
Fixpoint before_first (sep : ascii) (s : string) : string :=
  match s with
  | EmptyString => EmptyString
  | String c s' => if Ascii.eqb c sep then EmptyString else String c (before_first sep s')
  end.

(** The grammar with the parameter taken by [take_param]. *)
Definition grammar (take_param : string -> string) (s : string) : action_data :=
  if String.eqb s "" then {| action := "continue"; param := VNull |}
  else if String.eqb s "continue" || String.eqb s "next_question" || String.eqb s "end"
  then {| action := s; param := VNull |}
  else if String.prefix "if_correct:" s
  then {| action := "if_correct"; param := VStr (trim (take_param s)) |}
  else if String.prefix "if_incorrect:" s
  then {| action := "if_incorrect"; param := VStr (trim (take_param s)) |}
  else {| action := "continue"; param := VNull |}.

(** The parameter is everything after the first colon. *)
Definition grammar_everything_after : string -> action_data :=
  grammar (after_first ":").

(** The parameter is the text between the first colon and the second. *)
Definition grammar_second_field : string -> action_data :=
  grammar (fun s => before_first ":" (after_first ":" s)).

(** ** Notions the statements about the overlay graph use *)

(** [Math.random()] returns a number in the interval from 0 (included) to
    1 (excluded). *)
Definition in_unit_interval (Math_random : nat -> Q) : Prop :=
  forall n, (0 <= Math_random n)%Q /\ (Math_random n < 1)%Q.

(** The comparator that orders by an integer key. *)
Definition compare_by {A} (key : A -> Z) (a b : A) : Z := key a - key b.

(** [a] may stand before [b] in a list sorted by [key] in which elements of
    one key keep the order [before]. *)
Definition key_then {A} (key : A -> Z) (before : A -> A -> Prop) (a b : A) : Prop :=
  key a < key b \/ (key a = key b /\ before a b).

(** The elements of [l] whose key is [k], in the order of [l]. *)
Definition with_key {A} (key : A -> Z) (k : Z) (l : list A) : list A :=
  List.filter (fun a => key a =? k) l.

(** The loop of [link_next_questions], by recursion on the list: the head
    is linked to the first question of the tail. *)
Fixpoint link_rec (overlays : list overlay) : list overlay :=
  match overlays with
  | [] => []
  | overlay :: rest =>
      (if String.eqb (ov_nextAction overlay) NEXT_ACTIONS.NEXT_QUESTION then
         match List.find (fun o => is_question (ov_type o)) rest with
         | Some nextQuestion =>
             set_actionParam overlay (VNum (ov_timestamp nextQuestion))
         | None => overlay
         end
       else overlay) :: link_rec rest
  end.

(** The identifier given to the overlay of row [i]. *)
Definition overlay_id (i : nat) : string :=
  "overlay-" +:+ string_of_Z (Z.of_nat i).

Fixpoint drop_chars (n : nat) (s : string) : string :=
  match n, s with
  | S n', String _ s' => drop_chars n' s'
  | _, _ => s
  end.

(** The row an identifier names. *)
Definition row_of_id (id : string) : option nat :=
  if String.prefix "overlay-" id then
    (fun d => Z.to_nat (Z.of_int d)) <$> NilZero.int_of_string (drop_chars 8 id)
  else None.

(** [a] comes from a row above the row of [b]. *)
Definition id_before (a b : string) : Prop :=
  exists i j, row_of_id a = Some i /\ row_of_id b = Some j /\ (i < j)%nat.

Definition row_before (a b : overlay) : Prop := id_before (ov_id a) (ov_id b).

(** [a] may stand before [b] in a list sorted by timestamp in which
    overlays of one timestamp keep the order of their rows. *)
Definition timestamp_then_row (a b : overlay) : Prop :=
  ov_timestamp a < ov_timestamp b
  \/ (ov_timestamp a = ov_timestamp b /\ row_before a b).

(** The overlay [o] is a member of the group [name]. *)
Definition in_group (name : string) (o : overlay) : bool :=
  truthy (ov_groupName o) && String.eqb (ToString (ov_groupName o)) name.

(** Two overlays that differ at most in [actionParam]. *)
Definition same_but_param (o o' : overlay) : Prop :=
  exists v, o' = set_actionParam o v.

(** The identifiers of the members of the group [name] among [overlays],
    in the order of the list. *)
Definition group_members (name : string) (overlays : list overlay) : list string :=
  ov_id <$> List.filter (in_group name) overlays.

(** The timestamps of the overlays that the identifiers [ids] name in the
    result [r], in the order of [ids]. *)
Definition group_timestamps (r : overlays_data) (ids : list string) : list Z :=
  omap (fun id =>
          ov_timestamp <$> List.find (fun o => String.eqb (ov_id o) id) (overlays r))
       ids.

(** What the loop over the rows keeps true, before it reads row [i]. *)
Record rows_invariant (i : nat) (st : build_state) : Prop := {
  inv_row_order : StronglySorted row_before (st_overlays st);
  inv_rows_above :
    Forall (fun o => exists k, row_of_id (ov_id o) = Some k /\ (k < i)%nat)
      (st_overlays st);
  inv_groups :
    forall name,
      st_groups st !! name =
        match group_members name (st_overlays st) with
        | [] => None
        | ids => Some ids
        end;
  inv_next_question :
    Forall (fun o => ov_nextAction o = NEXT_ACTIONS.NEXT_QUESTION ->
                     ov_actionParam o = VNull)
      (st_overlays st)
}.

(** ** Notions the statements about the row parser use *)

(** The four interaction types the tool knows. *)
Definition recognized_type (t : string) : bool :=
  bool_decide (t ∈ [OVERLAY_TYPES.INFO; OVERLAY_TYPES.QUIZ_MULTIPLE_CHOICE;
                    OVERLAY_TYPES.QUIZ_TRUE_FALSE; OVERLAY_TYPES.QUIZ_MATCHING]).

(** The type of an accepted row as the specification words it: the field
    in lower case, and [info] when that is not a known type or the field is
    absent. *)
Definition type_as_specified (field : value) : string :=
  match field with
  | VStr s =>
      if recognized_type (toLowerCase_str s) then toLowerCase_str s
      else OVERLAY_TYPES.INFO
  | _ => OVERLAY_TYPES.INFO
  end.

(** The answers a correct-answer field supplies: its pieces between the
    bars, trimmed, the empty ones left out. *)
Definition answer_pieces (correctAnswer : value) : list string :=
  List.filter (fun t => negb (String.eqb t ""))
    (trim <$> split "|" (ToString correctAnswer)).

(** An incorrect-answer field that supplies no option: empty or blank. *)
Definition supplies_no_option (cellj : value) : bool :=
  negb (truthy cellj) || String.eqb (trim (ToString cellj)) "".

(** ** Notions the further statements about the overlays use *)

(** The five actions of the configuration. *)
Definition known_actions : list string :=
  [NEXT_ACTIONS.CONTINUE; NEXT_ACTIONS.NEXT_QUESTION; NEXT_ACTIONS.IF_CORRECT;
   NEXT_ACTIONS.IF_INCORRECT; NEXT_ACTIONS.END].

(** The row belongs to the video and has its three mandatory fields. *)
Definition row_accepted (videoTitle : value) (row : list value) : bool :=
  truthy (cell row 0) && strict_eq (cell row 0) videoTitle
  && match parseInt (cell row 1) with
     | Some timestamp => negb (timestamp =? 0)
     | None => false
     end
  && truthy (cell row 2) && truthy (cell row 3).

(** The numbers of the accepted rows among [rows], the first of which is
    row number [i]. *)
Fixpoint accepted_rows (videoTitle : value) (i : nat) (rows : list (list value))
  : list nat :=
  match rows with
  | [] => []
  | row :: rest =>
      (if row_accepted videoTitle row then [i] else [])
        ++ accepted_rows videoTitle (S i) rest
  end.

(** The option made from one piece of the correct-answer field. *)
Definition correct_option (correctFeedback : value) (t : string) : quiz_option :=
  {| opt_text := VStr t; opt_isCorrect := true;
     opt_feedback := or_else correctFeedback (VStr "Correct!") |}.

(** The text of the option reads [word] when put in upper case. *)
Definition option_reads (word : string) (o : quiz_option) : Prop :=
  exists t, opt_text o = VStr t /\ toUpperCase_str t = word.

(** The key under which an overlay stands in [overlaysByTitle]. *)
Definition title_key (o : overlay) : string := ToString (ov_title o).

(** What the loop over the rows keeps true besides [rows_invariant], after
    it has read [rows], the first of which is row number [first]. *)
Record rows_provenance (videoTitle : value) (first : nat) (rows : list (list value))
    (st : build_state) : Prop := {
  prov_ids :
    ov_id <$> st_overlays st = overlay_id <$> accepted_rows videoTitle first rows;
  prov_fields :
    Forall (fun o =>
              exists k row,
                rows !! k = Some row /\ ov_id o = overlay_id (first + k)
                /\ row_accepted videoTitle row = true
                /\ parseInt (cell row 1) = Some (ov_timestamp o)
                /\ ov_title o = cell row 2 /\ ov_content o = cell row 3)
      (st_overlays st);
  prov_by_title :
    forall key,
      st_overlaysByTitle st !! key =
        if bool_decide (key = "__proto__") then None
        else last (ov_id <$> List.filter (fun o => String.eqb (title_key o) key)
                               (st_overlays st));
  prov_inherited :
    forall name, name ∈ Object_prototype_keys -> st_groups st !! name = None
}.

(** ** Notions the further statements about the settings use *)

(** What the reader makes of the value cell of a setting. *)
Definition decode_setting (v : value) : value :=
  if strict_eq v (VStr "TRUE") then VBool true
  else if strict_eq v (VStr "FALSE") then VBool false
  else v.

(** The rows among [rows] that name the setting [key]. *)
Definition rows_of_setting (key : string) (rows : list (list value))
  : list (list value) :=
  List.filter (fun row => String.eqb (ToString (cell row 0)) key) rows.

(** The row that [updateAppSettings] appends for one setting. *)
Definition setting_row (p : string * value) : list value :=
  [VStr p.1; VStr (ToString p.2)].

(** The setting as it is read back after it was written. *)
Definition written_setting (p : string * value) : string * value :=
  (p.1, decode_setting (VStr (ToString p.2))).

(** ** Notions the further statements about the reports use *)

(** The row of the Quiz Analytics sheet is of this session and video. *)
Definition attempt_matches (videoTitle sessionId : value) (row : list value) : bool :=
  strict_eq (cell row 8) sessionId && strict_eq (cell row 2) videoTitle.

(** The row records a correct answer. *)
Definition attempt_correct (row : list value) : bool :=
  strict_eq (cell row 5) (VBool true) || strict_eq (cell row 5) (VStr "TRUE").

(** The times of the events of this session and video of type [type]. *)
Definition event_times (type : string) (videoTitle sessionId : value)
    (events : list user_event) : list Z :=
  ue_timestamp <$>
    List.filter (fun e => strict_eq (ue_sessionId e) sessionId
                          && strict_eq (ue_videoTitle e) videoTitle
                          && strict_eq (ue_eventType e) (VStr type)) events.

(** [s] is the least element of [l]. *)
Definition is_least (s : Z) (l : list Z) : Prop := s ∈ l /\ Forall (fun t => s <= t) l.

(** [e] is the greatest element of [l]. *)
Definition is_greatest (e : Z) (l : list Z) : Prop := e ∈ l /\ Forall (fun t => t <= e) l.

(** The percentage of [c] in [t] as the doubles give it: the quotient is
    rounded, and so is its product with 100. *)
Definition rounded_percentage (c t : nat) : Q :=
  round_double
    (round_double (inject_Z (Z.of_nat c) / inject_Z (Z.of_nat t)) * 100).

(** The feedback by the accuracy itself: the tiers start at 89.95, 74.95
    and 59.95. *)
Definition feedback_by_accuracy (accuracy : Q) : string :=
  if Qle_bool (1799 # 20) accuracy then
    "Excellent work! You demonstrated a strong understanding of the material."
  else if Qle_bool (1499 # 20) accuracy then
    "Good job! You have a solid grasp of most concepts."
  else if Qle_bool (1199 # 20) accuracy then
    "You're on the right track, but may want to review the material again to strengthen your understanding."
  else
    "It looks like you might need to revisit this content. Consider rewatching the video and paying close attention to the key points.".

(** The running totals after one more attempt, the one of [row]. *)
Definition counted (parseFloat : value -> option Q) (acc : quiz_totals)
    (row : list value) : quiz_totals :=
  {| qt_total := S (qt_total acc);
     qt_correct := if attempt_correct row then S (qt_correct acc) else qt_correct acc;
     qt_incorrect :=
       if attempt_correct row then qt_incorrect acc else S (qt_incorrect acc);
     qt_time := round_double (qt_time acc + default 0%Q (parseFloat (cell row 7)));
     qt_details := qt_details acc ++
       [{| qd_overlayId := cell row 3; qd_quizType := cell row 4;
           qd_wasCorrect := attempt_correct row;
           qd_selectedOption := cell row 6;
           qd_timeToAnswer := default 0%Q (parseFloat (cell row 7)) |}] |}.

(** The least of [o] and the elements of [l]; none when there is nothing. *)
Definition least_from (o : option Z) (l : list Z) : option Z :=
  foldl (fun o t => Some (match o with None => t | Some s => Z.min s t end)) o l.

(** The greatest of [o] and the elements of [l]. *)
Definition greatest_from (o : option Z) (l : list Z) : option Z :=
  foldl (fun o t => Some (match o with None => t | Some e => Z.max e t end)) o l.

(** ** Required sheets, recorded rows and the teacher's report *)

(** The sheets that [ensureRequiredSheets] looks for. *)
Definition required_sheets : list string :=
  [SHEETS.QUIZ_ANALYTICS; SHEETS.USER_DATA; SHEETS.SETTINGS; SHEETS.USER_NOTES].

(** The row of the Quiz Analytics sheet that records [quizData]. *)
Definition attempt_row (now : value) (quizData : quiz_data) : list value :=
  [now; or_else (qz_userId quizData) (VStr "anonymous");
   or_else (qz_videoTitle quizData) (VStr "");
   or_else (qz_overlayId quizData) (VStr "");
   or_else (qz_quizType quizData) (VStr "quiz");
   qz_wasCorrect quizData;
   or_else (qz_selectedOption quizData) (VStr "");
   or_else (qz_timeToAnswer quizData) (VNum 0);
   or_else (qz_sessionId quizData) (VStr "")].

(** The note as [getUserNotes] lists it once [saveUserNote] has stored it
    at the time [now]. *)
Definition listed_note (now : value) (noteData : note_data) : user_note :=
  {| note_timestamp := now;
     note_videoTime := or_else (nd_videoTime noteData) (VNum 0);
     note_content := or_else (nd_noteContent noteData) (VStr "") |}.

(** The note [noteData] is one of the video [videoTitle] and the user
    [userId], given what is stored for a title or a user left out. *)
Definition note_is_of (videoTitle userId : value) (noteData : note_data) : bool :=
  strict_eq (or_else (nd_videoTitle noteData) (VStr "")) videoTitle
  && strict_eq (or_else (nd_userId noteData) (VStr "anonymous"))
       (if strict_eq userId VUndefined then VStr "anonymous" else userId).

(** The row is within the filter of the teacher's report: every row when no
    title (or a falsy one) is asked for. *)
Definition reported (videoTitle : value) (row : list value) : bool :=
  negb (truthy videoTitle) || strict_eq (cell row 2) videoTitle.

(** The counters of a list of attempts, the percentage as the script's
    doubles give it. *)
Definition counts_of (rows : list (list value)) : attempt_counts :=
  {| totalAttempts := length rows;
     correctAttempts := length (List.filter attempt_correct rows);
     incorrectAttempts := length (List.filter (fun row => negb (attempt_correct row)) rows);
     correctPercentage :=
       match rows with
       | [] => None
       | _ :: _ =>
           Some (Finite (rounded_percentage
                           (length (List.filter attempt_correct rows))
                           (length rows)))
       end |}.

(** The entry of the report for the key [key] of column [column]: the
    counters of the attempts whose cell reads [key], when there is one. *)
Definition entry_of (column : nat) (key : string) (rows : list (list value))
  : option attempt_counts :=
  match List.filter (fun row => String.eqb (ToString (cell row column)) key) rows with
  | [] => None
  | mine => Some (counts_of mine)
  end.

(** The counters of a list of attempts before the percentage is set. *)
Definition tallied (rows : list (list value)) : attempt_counts :=
  {| totalAttempts := length rows;
     correctAttempts := length (List.filter attempt_correct rows);
     incorrectAttempts := length (List.filter (fun row => negb (attempt_correct row)) rows);
     correctPercentage := None |}.

(** The attempts whose cell of column [column] reads [key]. *)
Definition keyed (column : nat) (key : string) (rows : list (list value))
  : list (list value) :=
  List.filter (fun row => String.eqb (ToString (cell row column)) key) rows.

(** The entry for [key] before the percentage is set. *)
Definition tally_entry (column : nat) (key : string) (rows : list (list value))
  : option attempt_counts :=
  match keyed column key rows with
  | [] => None
  | mine => Some (tallied mine)
  end.

(** The event of type [type] of a session and a video; [other] gives the
    properties that the report does not read. *)
Definition session_event (sessionId videoTitle : value) (type : string)
    (other : event_data) : event_data :=
  {| ev_sessionId := sessionId; ev_userId := ev_userId other;
     ev_videoTitle := videoTitle; ev_eventType := VStr type;
     ev_eventData := ev_eventData other; ev_browser := ev_browser other;
     ev_device := ev_device other |}.

(** ** Video identifiers *)

(** Every character of [s] is in the class [p]. *)
Fixpoint all_chars (p : ascii -> bool) (s : string) : bool :=
  match s with
  | EmptyString => true
  | String c s' => p c && all_chars p s'
  end.

(** Eleven characters of the class of the capture group. *)
Definition is_video_id (id : string) : bool :=
  (String.length id =? 11)%nat && all_chars is_id_char id.

(** Whatever the matcher [m] accepts, it hands a rest of its input to its
    continuation. *)
Definition consumes (m : (string -> option string) -> string -> option string) : Prop :=
  forall k s r, m k s = Some r -> exists pre rest, s = pre +:+ rest /\ k rest = Some r.

(** ** Concrete inputs used by the examples *)

(** A generator that returns one quarter at every call. *)
Definition example_random : nat -> Q := fun _ => 1 # 4.

Definition example_heap : heap :=
  {| arrays := {[ 0%nat := [10; 11; 12]%nat ]};
     objects :=
       {[ 10%nat := {| opt_text := VStr "a"; opt_isCorrect := true;
                       opt_feedback := VStr "Correct!" |};
          11%nat := {| opt_text := VStr "b"; opt_isCorrect := false;
                       opt_feedback := VStr "Incorrect." |};
          12%nat := {| opt_text := VStr "c"; opt_isCorrect := false;
                       opt_feedback := VStr "Incorrect." |} ]} |}.

(** A row of the Overlays sheet: the first eleven columns. *)
Definition example_row (timestamp : Z) (title type nextAction correct incorrect group : string)
  : list value :=
  [VStr "Lesson 1"; VNum timestamp; VStr title; VStr "Body"; VStr type;
   VStr nextAction; VStr correct; VStr incorrect; VStr ""; VStr ""; VStr group].

Definition example_header : list value := [VStr "Video Title"; VStr "Timestamp (sec)"].

Definition example_bogus_row : list value :=
  example_row 5 "Intro" "Bogus" "" "" "" "".

Definition example_true_false_row : list value :=
  example_row 12 "Check" "true_false" "" "TRUE" "" "".

Definition example_true_false_overlay : overlay :=
  {| ov_id := "overlay-1"; ov_timestamp := 12; ov_title := VStr "Check";
     ov_content := VStr "Body"; ov_type := "true_false";
     ov_nextAction := "continue"; ov_actionParam := VNull;
     ov_options :=
       [{| opt_text := VStr "FALSE"; opt_isCorrect := false;
           opt_feedback := VStr "Incorrect." |};
        {| opt_text := VStr "TRUE"; opt_isCorrect := true;
           opt_feedback := VStr "Correct!" |}];
     ov_explanation := VStr ""; ov_correctFeedback := VStr "";
     ov_incorrectFeedback := VStr ""; ov_groupName := VStr "";
     ov_image := None |}.

Definition example_matching_row : list value :=
  example_row 40 "Pairs" "Matching" "" "a|b" "c" "".

Definition example_matching_overlay : overlay :=
  {| ov_id := "overlay-3"; ov_timestamp := 40; ov_title := VStr "Pairs";
     ov_content := VStr "Body"; ov_type := "matching";
     ov_nextAction := "continue"; ov_actionParam := VNull;
     ov_options := [];
     ov_explanation := VStr ""; ov_correctFeedback := VStr "";
     ov_incorrectFeedback := VStr ""; ov_groupName := VStr "";
     ov_image := None |}.

(** Four info overlays at the timestamps 30, 5, 10 and 20. *)
Definition example_unsorted_sheet : list (list value) :=
  [example_header;
   example_row 30 "D" "info" "" "" "" "";
   example_row 5 "A" "info" "" "" "" "";
   example_row 10 "B" "info" "" "" "" "";
   example_row 20 "C" "info" "" "" "" ""].

(** A [next_question] overlay at 5 and quiz overlays at 20 and 10. *)
Definition example_quiz_sheet : list (list value) :=
  [example_header;
   example_row 20 "Q2" "quiz" "" "yes" "no" "";
   example_row 5 "Start" "info" "next_question" "" "" "";
   example_row 10 "Q1" "quiz" "" "yes" "no" ""].

(** Two overlays of the group [g], the later one in the upper row. *)
Definition example_group_sheet : list (list value) :=
  [example_header;
   example_row 30 "Late" "info" "" "" "" "g";
   example_row 5 "Early" "info" "" "" "" "g"].

(** The payload of a successful call. *)
Definition payload (response : response overlays_data) : overlays_data :=
  match response with
  | Success r => r
  | Error _ => {| overlays := []; groups := ∅; overlaysByTitle := ∅ |}
  end.

Definition example_unsorted_result : overlays_data :=
  payload (getOverlaysForVideo example_random (VStr "Lesson 1")
             (Some example_unsorted_sheet) 0).

Definition example_quiz_result : overlays_data :=
  payload (getOverlaysForVideo example_random (VStr "Lesson 1")
             (Some example_quiz_sheet) 0).

Definition example_group_result : overlays_data :=
  payload (getOverlaysForVideo example_random (VStr "Lesson 1")
             (Some example_group_sheet) 0).

(** The first overlay of [example_quiz_result]. *)
Definition example_start_overlay : overlay :=
  {| ov_id := "overlay-2"; ov_timestamp := 5; ov_title := VStr "Start";
     ov_content := VStr "Body"; ov_type := "info";
     ov_nextAction := "next_question"; ov_actionParam := VNum 10;
     ov_options := [];
     ov_explanation := VStr ""; ov_correctFeedback := VStr "";
     ov_incorrectFeedback := VStr ""; ov_groupName := VStr "";
     ov_image := None |}.

(** A Quiz Analytics sheet with one attempt, of the session [s-2]. *)
Definition example_analytics_sheet : list (list value) :=
  [[VStr "Timestamp"; VStr "User ID"; VStr "Video Title"; VStr "Overlay ID";
    VStr "Quiz Type"; VStr "Was Correct"; VStr "Selected Option";
    VStr "Time to Answer (sec)"; VStr "Session ID"];
   [VStr "2024-01-01"; VStr "anonymous"; VStr "Lesson 1"; VStr "overlay-1";
    VStr "quiz"; VBool true; VStr "yes"; VNum 3; VStr "s-2"]].

(** A [parseFloat] for cells that hold integers. *)
Definition example_parseFloat (v : value) : option Q :=
  match v with
  | VNum n => Some (inject_Z n)
  | _ => None
  end.

Definition example_report : student_report :=
  match getStudentReport example_parseFloat (VStr "Lesson 1") (VStr "s-1")
          (VStr "anonymous") (Some example_analytics_sheet) None None with
  | Report report => report
  | ReportError _ summary =>
      {| rep_videoTitle := VNull; rep_userId := VNull; rep_sessionId := VNull;
         quizPerformance :=
           {| totalQuestions := 1; correctAnswers := 0; incorrectAnswers := 0;
              accuracyPercentage := Finite 1; averageTimeToAnswer := Finite 0;
              quizDetails := [] |};
         viewingStatistics :=
           {| startTime := None; endTime := None; totalTimeSpent := Finite 0;
              completionPercentage := 0; pauseCount := 0 |};
         notesCount := 0; summary := summary |}
  end.

(** A quiz row whose correct-answer field is empty. *)
Definition example_unanswered_row : list value :=
  example_row 7 "Open" "quiz" "" "" "wrong" "".

Definition example_unanswered_overlay : overlay :=
  {| ov_id := "overlay-2"; ov_timestamp := 7; ov_title := VStr "Open";
     ov_content := VStr "Body"; ov_type := "quiz";
     ov_nextAction := "continue"; ov_actionParam := VNull;
     ov_options := [];
     ov_explanation := VStr ""; ov_correctFeedback := VStr "";
     ov_incorrectFeedback := VStr ""; ov_groupName := VStr "";
     ov_image := None |}.

(** Two overlays with one title, the later one in the upper row. *)
Definition example_titles_sheet : list (list value) :=
  [example_header;
   example_row 30 "Recap" "info" "" "" "" "";
   example_row 5 "Recap" "info" "" "" "" ""].

Definition example_titles_result : overlays_data :=
  payload (getOverlaysForVideo example_random (VStr "Lesson 1")
             (Some example_titles_sheet) 0).

(** The first overlay of [example_unsorted_result]. *)
Definition example_first_overlay : overlay :=
  {| ov_id := "overlay-2"; ov_timestamp := 5; ov_title := VStr "A";
     ov_content := VStr "Body"; ov_type := "info";
     ov_nextAction := "continue"; ov_actionParam := VNull;
     ov_options := [];
     ov_explanation := VStr ""; ov_correctFeedback := VStr "";
     ov_incorrectFeedback := VStr ""; ov_groupName := VStr "";
     ov_image := None |}.

(** Rows of another video only, one of them with a number as type. *)
Definition example_other_video_sheet : list (list value) :=
  [example_header;
   [VStr "Lesson 2"; VNum 5; VStr "A"; VStr "Body"; VNum 3];
   [VStr "Lesson 2"; VStr "soon"; VStr ""; VStr ""]].

(** A sheet whose second row has a number in the type column and no
    title. *)
Definition example_bad_type_sheet : list (list value) :=
  [example_header;
   example_row 5 "A" "info" "" "" "" "";
   [VStr "Lesson 1"; VNum 10; VStr ""; VStr "Body"; VNum 3]].

(** A sheet whose second row is of the group [constructor]. *)
Definition example_bad_group_sheet : list (list value) :=
  [example_header;
   example_row 5 "A" "info" "" "" "" "g";
   example_row 10 "B" "info" "" "" "" "constructor"].

(** Settings with a string, a number and a boolean value. *)
Definition example_settings : list (string * value) :=
  [("PrimaryColor", VStr "#ff0000"); ("MaxAttempts", VNum 3);
   ("AllowNotes", VBool false)].

Definition example_settings_sheet : list (list value) :=
  [[VStr "Setting"; VStr "Value"; VStr "Description"];
   [VStr "PrimaryColor"; VStr "#4285f4"; VStr "Primary theme color (hex code)"];
   [VStr "AllowSkipping"; VStr "FALSE"; VStr "Allow students to skip ahead"]].

(** Events of one session: a start, a pause, and two completions. *)
Definition example_events : list user_event :=
  [{| ue_timestamp := 5000; ue_sessionId := VStr "s-1";
      ue_videoTitle := VStr "Lesson 1"; ue_eventType := VStr "activity_started" |};
   {| ue_timestamp := 9000; ue_sessionId := VStr "s-1";
      ue_videoTitle := VStr "Lesson 1"; ue_eventType := VStr "video_paused" |};
   {| ue_timestamp := 65000; ue_sessionId := VStr "s-1";
      ue_videoTitle := VStr "Lesson 1"; ue_eventType := VStr "video_completed" |};
   {| ue_timestamp := 70000; ue_sessionId := VStr "s-1";
      ue_videoTitle := VStr "Lesson 1"; ue_eventType := VStr "video_completed" |}].

(** Three attempts of the session [s-1], two of them correct. *)
Definition example_scored_sheet : list (list value) :=
  let attempt (correct : bool) :=
    [VStr "2024-01-01"; VStr "anonymous"; VStr "Lesson 1"; VStr "overlay-1";
     VStr "quiz"; VBool correct; VStr "yes"; VNum 3; VStr "s-1"] in
  [[VStr "Timestamp"]; attempt true; attempt false; attempt true].

Definition example_scored_report : student_report :=
  match getStudentReport example_parseFloat (VStr "Lesson 1") (VStr "s-1")
          (VStr "anonymous") (Some example_scored_sheet) None None with
  | Report report => report
  | ReportError _ _ => example_report
  end.

(** What a browser sends along with an event. *)
Definition example_event_data : event_data :=
  {| ev_sessionId := VUndefined; ev_userId := VStr "anonymous";
     ev_videoTitle := VUndefined; ev_eventType := VUndefined;
     ev_eventData := VStr ""; ev_browser := VStr "Firefox";
     ev_device := VStr "desktop" |}.

(** Eighty attempts of the session [s-1], the first 23 of them correct. *)
Definition example_tie_sheet : list (list value) :=
  let attempt (correct : bool) :=
    [VStr "2024-01-01"; VStr "anonymous"; VStr "Lesson 1"; VStr "overlay-1";
     VStr "quiz"; VBool correct; VStr "yes"; VNum 3; VStr "s-1"] in
  [VStr "Timestamp"] :: replicate 23 (attempt true) ++ replicate 57 (attempt false).

Definition example_tie_report : student_report :=
  match getStudentReport example_parseFloat (VStr "Lesson 1") (VStr "s-1")
          (VStr "anonymous") (Some example_tie_sheet) None None with
  | Report report => report
  | ReportError _ _ => example_report
  end.

(** A sheet that recognises the booleans in a text, in either case of
    letters, and keeps every other value as it is given. *)
Definition example_entered (v : value) : value :=
  match v with
  | VStr s =>
      if String.eqb (toUpperCase_str s) "TRUE" then VBool true
      else if String.eqb (toUpperCase_str s) "FALSE" then VBool false
      else v
  | _ => v
  end.

(** ** Properties of the action resolver *)

Lemma split_head sep s : split sep s !! 0%nat = Some (before_first sep s).
Proof.
  induction s as [|c s IH]; simpl; [done|].
  destruct (Ascii.eqb c sep); [done|].
  destruct (split sep s) as [|piece rest]; simpl in *; congruence.
Qed.

Lemma prefix_app p s : String.prefix p s = true -> exists t, s = p +:+ t.
Proof.
  revert s; induction p as [|c p IH]; intros s H.
  - by exists s.
  - destruct s as [|d s]; simpl in H; [done|].
    destruct (ascii_dec c d) as [->|]; [|done].
    destruct (IH _ H) as [t ->]. by exists t.
Qed.

Lemma split_param_if_correct t :
  split_param ("if_correct:" +:+ t) = Returned (VStr (trim (before_first ":" t))).
Proof.
  unfold split_param. simpl. change ("" +:+ t) with t.
  by rewrite split_head.
Qed.

Lemma split_param_if_incorrect t :
  split_param ("if_incorrect:" +:+ t) = Returned (VStr (trim (before_first ":" t))).
Proof.
  unfold split_param. simpl. change ("" +:+ t) with t.
  by rewrite split_head.
Qed.

(** C2 (amended): on every string [parseNextAction] returns what the
    directive grammar prescribes, the parameter of [if_correct:] and
    [if_incorrect:] being the trimmed text between the first colon and the
    second (or the end of the string); an absent directive resolves to
    [continue] with a null parameter. *)
Theorem parseNextAction_grammar (s : string) :
  parseNextAction (VStr s) = Returned (grammar_second_field s)
  /\ parseNextAction VUndefined = Returned {| action := "continue"; param := VNull |}
  /\ parseNextAction VNull = Returned {| action := "continue"; param := VNull |}.
Proof.
  split; [|done].
  unfold parseNextAction, grammar_second_field, grammar. simpl truthy.
  destruct (String.eqb_spec s "") as [->|Hne]; [done|]. simpl negb. cbv iota.
  destruct (String.eqb_spec s "continue") as [->|H1]; [reflexivity|].
  destruct (String.eqb_spec s "next_question") as [->|H2]; [reflexivity|].
  destruct (String.eqb_spec s "end") as [->|H3]; [reflexivity|].
  rewrite bool_decide_eq_false_2.
  2:{ rewrite !elem_of_cons, elem_of_nil.
      intros [[=]|[[=]|[[=]|[]]]]; [apply H1|apply H2|apply H3]; assumption. }
  simpl. unfold startsWith.
  change (NEXT_ACTIONS.IF_CORRECT +:+ ":") with "if_correct:".
  change (NEXT_ACTIONS.IF_INCORRECT +:+ ":") with "if_incorrect:".
  destruct (String.prefix "if_correct:" s) eqn:Hc.
  - apply prefix_app in Hc as [t ->]. rewrite split_param_if_correct. done.
  - destruct (String.prefix "if_incorrect:" s) eqn:Hi; [|done].
    apply prefix_app in Hi as [t ->]. rewrite split_param_if_incorrect. done.
Qed.

(** The three directives the specification gives as examples. *)
Example parseNextAction_examples :
  parseNextAction (VStr "if_correct:42")
    = Returned {| action := "if_correct"; param := VStr "42" |}
  /\ parseNextAction (VStr "")
    = Returned {| action := "continue"; param := VNull |}
  /\ parseNextAction (VStr "bogus")
    = Returned {| action := "continue"; param := VNull |}.
Proof. done. Qed.

(** C2, as stated, fails: with a second colon in the directive the
    parameter stops there instead of running to the end. *)
Lemma parseNextAction_not_everything_after :
  parseNextAction (VStr "if_correct:1:30")
    = Returned {| action := "if_correct"; param := VStr "1" |}
  /\ grammar_everything_after "if_correct:1:30"
    = {| action := "if_correct"; param := VStr "1:30" |}
  /\ parseNextAction (VStr "if_correct:1:30")
    <> Returned (grammar_everything_after "if_correct:1:30").
Proof. repeat split; done. Qed.

(** Where the directive has a single colon the two readings agree. *)
Lemma grammar_agree_single_colon s :
  before_first ":" (after_first ":" s) = after_first ":" s ->
  grammar_second_field s = grammar_everything_after s.
Proof.
  intros H. unfold grammar_second_field, grammar_everything_after, grammar.
  by rewrite H.
Qed.

(** ** Properties of the shuffle *)

Section Swap.
Context {A : Type}.
Implicit Types (a l : list A) (x y : A).

Lemma insert_cons_Permutation l j x y :
  l !! j = Some y -> y :: <[j := x]> l ≡ₚ x :: l.
Proof.
  revert j; induction l as [|b l IH]; intros [|j] H; simplify_eq/=.
  - apply perm_swap.
  - rewrite perm_swap, (IH _ H). apply perm_swap.
Qed.

Lemma swap_Permutation a i j : swap a i j ≡ₚ a.
Proof.
  unfold swap.
  destruct (a !! i) as [x|] eqn:Hi; [|done].
  destruct (a !! j) as [y|] eqn:Hj; [|done].
  revert i j Hi Hj; induction a as [|b a IH]; intros [|i] [|j] Hi Hj;
    simplify_eq/=; try done.
  - by apply insert_cons_Permutation.
  - by apply insert_cons_Permutation.
  - by rewrite IH.
Qed.

Lemma swap_length a i j : length (swap a i j) = length a.
Proof. by rewrite (swap_Permutation a i j). Qed.

(** Inside the array [swap] is the pair of assignments of the script. *)
Lemma swap_in_range a i j :
  (i < length a)%nat -> (j < length a)%nat ->
  exists x y, a !! i = Some x /\ a !! j = Some y /\
    swap a i j = <[j := x]> (<[i := y]> a).
Proof.
  intros [x Hx]%lookup_lt_is_Some_2 [y Hy]%lookup_lt_is_Some_2.
  exists x, y. unfold swap. by rewrite Hx, Hy.
Qed.

End Swap.

Section Shuffle.
Variable Math_random : nat -> Q.

Lemma random_index_le calls i :
  in_unit_interval Math_random -> (random_index Math_random calls i <= i)%nat.
Proof.
  intros Hr. unfold random_index. destruct (Hr calls) as [H0 H1].
  set (m := inject_Z (Z.of_nat (i + 1))).
  assert (Hm : (0 < m)%Q).
  { unfold m. change 0%Q with (inject_Z 0). rewrite <- Zlt_Qlt. lia. }
  assert (Hlt : (Math_random calls * m < m)%Q).
  { rewrite <- (Qmult_1_l m) at 2. by apply Qmult_lt_compat_r. }
  assert (Hfl : (Qfloor (Math_random calls * m) < Z.of_nat (i + 1))%Z).
  { rewrite Zlt_Qlt. eapply Qle_lt_trans; [apply Qfloor_le|]. exact Hlt. }
  lia.
Qed.

Lemma shuffle_loop_Permutation {A} i calls (a : list A) :
  (shuffle_loop Math_random i calls a).1 ≡ₚ a.
Proof.
  revert calls a; induction i as [|i IH]; intros calls a; simpl; [done|].
  by rewrite IH, swap_Permutation.
Qed.

Lemma shuffleArray_Permutation {A} (array : list A) calls :
  (shuffleArray Math_random array calls).1 ≡ₚ array.
Proof. apply shuffle_loop_Permutation. Qed.

Lemma shuffle_loop_heap_spec newArray i calls h elements :
  arrays h !! newArray = Some elements ->
  shuffle_loop_heap Math_random newArray i calls h
  = (set_array h newArray (shuffle_loop Math_random i calls elements).1,
     (shuffle_loop Math_random i calls elements).2).
Proof.
  revert calls h elements; induction i as [|i IH]; intros calls h elements H; simpl.
  - f_equal. destruct h as [ar ob]; unfold set_array; simpl in *.
    by rewrite insert_id.
  - rewrite H. erewrite IH.
    2:{ unfold set_array; simpl. apply lookup_insert_eq. }
    f_equal. unfold set_array; simpl. by rewrite insert_insert_eq.
Qed.

End Shuffle.

(** With [Math.random] inside its interval every swap of the loop is the
    pair of assignments of the script: both indices are inside the array. *)
Lemma shuffle_swap_is_assignment Math_random {A} (a : list A) calls i :
  in_unit_interval Math_random -> (i < length a)%nat ->
  exists x y, a !! i = Some x /\ a !! random_index Math_random calls i = Some y /\
    swap a i (random_index Math_random calls i)
    = <[random_index Math_random calls i := x]> (<[i := y]> a).
Proof.
  intros Hr Hi. apply swap_in_range; [done|].
  pose proof (random_index_le Math_random calls i Hr). lia.
Qed.

(** C9: [shuffleArray] returns a new array that is a permutation of its
    argument (same length, same elements and so the same text, correctness
    and feedback of every option); the argument array, every other array
    and the fields of every option object are what they were before the
    call. *)
Theorem shuffleArray_permutes_without_mutation
    (Math_random : nat -> Q) (h : heap) (array calls : nat) (elements : list nat) :
  in_unit_interval Math_random ->
  arrays h !! array = Some elements ->
  exists newArray h' calls' shuffled,
    shuffleArray_heap Math_random array calls h = Returned (newArray, h', calls')
    /\ arrays h' !! newArray = Some shuffled
    /\ shuffled ≡ₚ elements
    /\ length shuffled = length elements
    /\ ((fun r => objects h' !! r) <$> shuffled) ≡ₚ ((fun r => objects h !! r) <$> elements)
    /\ newArray <> array
    /\ arrays h' !! array = Some elements
    /\ (forall a, a <> newArray -> arrays h' !! a = arrays h !! a)
    /\ objects h' = objects h.
Proof.
  intros _ Harr. unfold shuffleArray_heap. rewrite Harr.
  set (newArray := fresh (dom (arrays h))).
  assert (Hfresh : arrays h !! newArray = None).
  { apply not_elem_of_dom. apply is_fresh. }
  assert (Hne : newArray <> array) by congruence.
  erewrite shuffle_loop_heap_spec.
  2:{ unfold set_array; simpl. apply lookup_insert_eq. }
  set (shuffled := (shuffle_loop Math_random (length elements - 1) calls elements).1).
  assert (Hperm : shuffled ≡ₚ elements) by apply shuffle_loop_Permutation.
  eexists newArray, _, _, shuffled. split; [reflexivity|].
  unfold set_array; simpl. rewrite insert_insert_eq.
  repeat split.
  - apply lookup_insert_eq.
  - done.
  - by rewrite Hperm.
  - by rewrite Hperm.
  - done.
  - by rewrite lookup_insert_ne.
  - intros a Ha. by rewrite lookup_insert_ne.
Qed.

Lemma example_random_in_unit_interval : in_unit_interval example_random.
Proof. intros n. split; [discriminate | reflexivity]. Defined.

Lemma shuffleArray_permutes_without_mutation_witness :
  exists newArray h' calls' shuffled,
    shuffleArray_heap example_random 0 0 example_heap = Returned (newArray, h', calls')
    /\ arrays h' !! newArray = Some shuffled
    /\ shuffled ≡ₚ [10; 11; 12]%nat
    /\ length shuffled = length [10; 11; 12]%nat
    /\ ((fun r => objects h' !! r) <$> shuffled)
         ≡ₚ ((fun r => objects example_heap !! r) <$> [10; 11; 12]%nat)
    /\ newArray <> 0%nat
    /\ arrays h' !! 0%nat = Some [10; 11; 12]%nat
    /\ (forall a, a <> newArray -> arrays h' !! a = arrays example_heap !! a)
    /\ objects h' = objects example_heap.
Proof.
  apply (shuffleArray_permutes_without_mutation example_random example_heap 0 0
           [10; 11; 12]%nat).
  - exact example_random_in_unit_interval.
  - reflexivity.
Defined.

(** ** Properties of the sort *)

Section Sort.
Context {A : Type} (key : A -> Z) (before : A -> A -> Prop).

Lemma sort_insert_Permutation (cmp : A -> A -> Z) x l :
  sort_insert cmp x l ≡ₚ x :: l.
Proof.
  induction l as [|y l IH]; simpl; [done|].
  destruct (cmp x y <=? 0); [done|].
  by rewrite IH, perm_swap.
Qed.

Lemma Array_sort_Permutation (cmp : A -> A -> Z) l : Array_sort cmp l ≡ₚ l.
Proof.
  induction l as [|x l IH]; simpl; [done|].
  by rewrite sort_insert_Permutation, IH.
Qed.

Lemma key_then_le a b : key_then key before a b -> key a <= key b.
Proof. unfold key_then. lia. Qed.

Lemma sort_insert_key_then x l :
  StronglySorted (key_then key before) l -> Forall (before x) l ->
  StronglySorted (key_then key before) (sort_insert (compare_by key) x l).
Proof.
  induction l as [|y l IH]; intros Hs Hb; simpl.
  - repeat constructor.
  - apply StronglySorted_inv in Hs as [Hs Hy].
    apply Forall_cons in Hb as [Hxy Hb].
    unfold compare_by at 1. destruct (Z.leb_spec (key x - key y) 0) as [Hle|Hgt].
    + constructor; [by constructor|].
      constructor.
      * unfold key_then. destruct (decide (key x = key y)); [right|left]; [done|lia].
      * rewrite Forall_forall in *. intros z Hz.
        pose proof (key_then_le _ _ (Hy z Hz)). unfold key_then.
        destruct (decide (key x = key z)); [right|left]; [|lia].
        split; [done|]. by apply Hb.
    + constructor; [by apply IH|].
      rewrite sort_insert_Permutation. constructor; [|done].
      left. lia.
Qed.

(** Sorting a list that is in the order [before] gives a list in the order
    of the keys, where elements of one key are still in the order
    [before]. *)
Lemma Array_sort_key_then l :
  StronglySorted before l ->
  StronglySorted (key_then key before) (Array_sort (compare_by key) l).
Proof.
  induction l as [|x l IH]; intros Hs; simpl; [constructor|].
  apply StronglySorted_inv in Hs as [Hs Hx].
  apply sort_insert_key_then; [by apply IH|].
  by rewrite Array_sort_Permutation.
Qed.

Lemma sort_insert_with_key k x l :
  with_key key k (sort_insert (compare_by key) x l)
  = if key x =? k then x :: with_key key k l else with_key key k l.
Proof.
  unfold with_key. induction l as [|y l IH]; simpl; [done|].
  unfold compare_by at 1. destruct (Z.leb_spec (key x - key y) 0) as [Hle|Hgt].
  - done.
  - simpl. rewrite IH.
    destruct (Z.eqb_spec (key x) k) as [Hx|Hx]; [|done].
    destruct (Z.eqb_spec (key y) k) as [Hy|Hy]; [lia|done].
Qed.

(** The sort is stable: the elements of one key keep their order. *)
Lemma Array_sort_stable k l :
  with_key key k (Array_sort (compare_by key) l) = with_key key k l.
Proof.
  induction l as [|x l IH]; simpl; [done|].
  rewrite sort_insert_with_key, IH. unfold with_key. simpl.
  by destruct (key x =? k).
Qed.

Lemma sort_insert_sorted x l :
  StronglySorted (fun a b => key a <= key b) l ->
  StronglySorted (fun a b => key a <= key b) (sort_insert (compare_by key) x l).
Proof.
  induction l as [|y l IH]; intros Hs; simpl.
  - repeat constructor.
  - apply StronglySorted_inv in Hs as [Hs Hy].
    unfold compare_by at 1. destruct (Z.leb_spec (key x - key y) 0) as [Hle|Hgt].
    + constructor; [by constructor|].
      constructor; [lia|]. eapply Forall_impl; [exact Hy|]. intros z Hz. simpl in Hz. lia.
    + constructor; [by apply IH|].
      rewrite sort_insert_Permutation. constructor; [lia|done].
Qed.

Lemma Array_sort_sorted l :
  StronglySorted (fun a b => key a <= key b) (Array_sort (compare_by key) l).
Proof. induction l; simpl; [constructor|by apply sort_insert_sorted]. Qed.

Lemma with_key_elem k a l : a ∈ with_key key k l <-> a ∈ l /\ key a = k.
Proof.
  unfold with_key. rewrite !list_elem_of_In, filter_In.
  by rewrite Z.eqb_eq.
Qed.

(** Two lists sorted by key that have, for every key, the same elements of
    that key in the same order are one list. *)
Lemma sorted_stable_unique l1 l2 :
  StronglySorted (fun a b => key a <= key b) l1 ->
  StronglySorted (fun a b => key a <= key b) l2 ->
  (forall k, with_key key k l1 = with_key key k l2) ->
  l1 = l2.
Proof.
  intros Hs1; revert l2. induction Hs1 as [|a l1 Hs1 IH Ha]; intros l2 Hs2 Hk.
  - destruct l2 as [|b l2]; [done|].
    specialize (Hk (key b)). unfold with_key in Hk. simpl in Hk.
    by rewrite Z.eqb_refl in Hk.
  - destruct Hs2 as [|b l2 Hs2 Hb].
    { specialize (Hk (key a)). unfold with_key in Hk. simpl in Hk.
      by rewrite Z.eqb_refl in Hk. }
    assert (Hab : key a = key b).
    { assert (Ha2 : a ∈ b :: l2).
      { apply (with_key_elem (key a)). rewrite <- Hk.
        apply with_key_elem. split; [constructor|done]. }
      assert (Hb1 : b ∈ a :: l1).
      { apply (with_key_elem (key b)). rewrite Hk.
        apply with_key_elem. split; [constructor|done]. }
      rewrite Forall_forall in Ha, Hb.
      apply elem_of_cons in Ha2 as [->|Ha2]; [done|].
      apply elem_of_cons in Hb1 as [->|Hb1]; [done|].
      specialize (Ha _ Hb1). specialize (Hb _ Ha2). simpl in *. lia. }
    assert (a = b) as <-.
    { specialize (Hk (key a)). unfold with_key in Hk. simpl in Hk.
      rewrite Z.eqb_refl, <- Hab, Z.eqb_refl in Hk. by injection Hk. }
    f_equal. apply IH; [done|]. intros k. specialize (Hk k).
    unfold with_key in *. simpl in Hk. destruct (key a =? k); [by injection Hk|done].
Qed.

(** So [Array_sort] with a comparator by key is the stable sort: every
    list that is sorted by key and keeps, for each key, the elements of [l]
    in their order is its result. *)
Lemma Array_sort_unique l l' :
  StronglySorted (fun a b => key a <= key b) l' ->
  (forall k, with_key key k l' = with_key key k l) ->
  l' = Array_sort (compare_by key) l.
Proof.
  intros Hs Hk. apply sorted_stable_unique; [done|apply Array_sort_sorted|].
  intros k. by rewrite Hk, Array_sort_stable.
Qed.

End Sort.

Lemma StronglySorted_transfer {A} (S R R' : A -> A -> Prop) l l' :
  Forall2 S l l' ->
  (forall a b a' b', S a a' -> S b b' -> R a b -> R' a' b') ->
  StronglySorted R l -> StronglySorted R' l'.
Proof.
  intros HF HR. induction HF as [|a a' l l' Ha HF IH]; intros Hs; [constructor|].
  apply StronglySorted_inv in Hs as [Hs Hall].
  constructor; [by apply IH|].
  clear IH Hs. induction HF as [|b b' l l' Hb HF IH]; [constructor|].
  apply Forall_cons in Hall as [Hab Hall].
  constructor; [by eapply HR | by apply IH].
Qed.

(** ** Properties of the linking of consecutive questions *)

Lemma link_step_middle (l1 l2 : list overlay) (o : overlay) :
  link_step (length l1) (l1 ++ o :: l2) = l1 ++ hd o (link_rec (o :: l2)) :: l2.
Proof.
  unfold link_step, find_next_question.
  rewrite list_lookup_middle by done.
  replace (drop (S (length l1)) (l1 ++ o :: l2)) with l2.
  2:{ change (S (length l1)) with (1 + length l1)%nat.
      rewrite Nat.add_comm, <- drop_drop, drop_app_length. done. }
  simpl.
  destruct (String.eqb (ov_nextAction o) NEXT_ACTIONS.NEXT_QUESTION); [|done].
  destruct (List.find _ l2); [|done].
  replace (length l1) with (length l1 + 0)%nat at 1 by lia.
  by rewrite insert_app_r.
Qed.

Lemma link_loop_rec n (l1 l2 : list overlay) :
  n = length l2 ->
  link_loop n (length l1) (l1 ++ l2) = l1 ++ link_rec l2.
Proof.
  revert l1 l2; induction n as [|n IH]; intros l1 l2 Hn.
  - destruct l2; [done|discriminate].
  - destruct l2 as [|o l2]; [discriminate|]. injection Hn as Hn.
    cbn [link_loop]. rewrite link_step_middle.
    set (o' := hd o (link_rec (o :: l2))).
    specialize (IH (l1 ++ [o']) l2 Hn).
    rewrite length_app in IH. cbn [length] in IH.
    rewrite Nat.add_1_r, <- app_assoc in IH.
    change ([o'] ++ l2) with (o' :: l2) in IH. rewrite IH.
    by rewrite <- app_assoc.
Qed.

Lemma link_next_questions_rec l : link_next_questions l = link_rec l.
Proof. apply (link_loop_rec (length l) [] l). done. Qed.

Lemma link_rec_same l : Forall2 same_but_param l (link_rec l).
Proof.
  induction l as [|o l IH]; simpl; constructor; [|done].
  destruct (String.eqb _ _); [destruct (List.find _ l)|];
    first [by eexists | exists (ov_actionParam o); by destruct o].
Qed.




(** ** Properties of the row parser *)

Lemma int_of_string_of_Z (z : Z) :
  NilZero.int_of_string (string_of_Z z) = Some (Z.to_int z).
Proof.
  unfold string_of_Z. apply NilZero.isi.
  - destruct z; simpl; [discriminate| |discriminate].
    intros [= H]. by apply Unsigned.to_uint_nonnil in H.
  - destruct z; simpl; [discriminate|discriminate|].
    intros [= H]. by apply Unsigned.to_uint_nonnil in H.
Qed.

Lemma prefix_app_self p s : String.prefix p (p +:+ s) = true.
Proof.
  induction p as [|c p IH]; simpl.
  - by destruct s.
  - destruct (ascii_dec c c); [apply IH|done].
Qed.

Lemma row_of_overlay_id i : row_of_id (overlay_id i) = Some i.
Proof.
  unfold row_of_id, overlay_id. rewrite prefix_app_self.
  change (drop_chars 8 ("overlay-" +:+ string_of_Z (Z.of_nat i)))
    with (string_of_Z (Z.of_nat i)).
  rewrite int_of_string_of_Z. simpl.
  by rewrite DecimalZ.of_to, Nat2Z.id.
Qed.

Lemma toString_truthy v : truthy v = true -> toString v = Returned (ToString v).
Proof. by destruct v. Qed.

Section ParseRow.
Variable Math_random : nat -> Q.
Variable videoTitle : value.

(** What an accepted row has gone through. *)
Lemma parse_row_accepted i row calls o calls' :
  parse_row Math_random videoTitle i row calls = Returned (Some (o, calls')) ->
  truthy (cell row 0) = true /\ cell row 0 = videoTitle
  /\ parseInt (cell row 1) = Some (ov_timestamp o) /\ ov_timestamp o <> 0
  /\ truthy (cell row 2) = true /\ truthy (cell row 3) = true
  /\ ov_id o = overlay_id i
  /\ ov_title o = cell row 2
  /\ (if truthy (cell row 4) then toLowerCase (cell row 4) = Returned (ov_type o)
      else ov_type o = "info")
  /\ (exists a, parseNextAction (or_else (cell row 5) (VStr "continue")) = Returned a
        /\ ov_nextAction o = action a /\ ov_actionParam o = param a)
  /\ ov_correctFeedback o = or_else (cell row 12) (VStr "")
  /\ ov_incorrectFeedback o = or_else (cell row 13) (VStr "")
  /\ ov_groupName o = or_else (cell row 10) (VStr "")
  /\ build_options Math_random (ov_type o) row (ov_correctFeedback o)
       (ov_incorrectFeedback o) calls = Returned (ov_options o, calls').
Proof.
  unfold parse_row. intros H.
  destruct (truthy (cell row 0)) eqn:H0; [|done].
  destruct (strict_eq (cell row 0) videoTitle) eqn:Hv; [|done].
  apply bool_decide_eq_true in Hv. simpl in H.
  assert (Htype : exists type,
    (if truthy (cell row 4) then toLowerCase (cell row 4)
     else mret OVERLAY_TYPES.INFO) = Returned type).
  { destruct (if truthy (cell row 4) then _ else _) as [type|]; [by eexists|done]. }
  destruct Htype as [type Htype]. rewrite Htype in H. simpl in H.
  destruct (parseInt (cell row 1)) as [timestamp|] eqn:Hts; [|done].
  destruct (Z.eqb_spec timestamp 0) as [|Hnz]; [done|].
  destruct (truthy (cell row 2)) eqn:H2; [|done].
  destruct (truthy (cell row 3)) eqn:H3; [|done].
  simpl in H.
  destruct (parseNextAction _) as [a|] eqn:Ha; [|done]. simpl in H.
  destruct (build_options _ _ _ _ _ _) as [[options calls1]|] eqn:Hb; [|done].
  simpl in H.
  assert (o = (if truthy (cell row 14) then set_image else fun o _ => o)
                (set_options
                   {| ov_id := overlay_id i; ov_timestamp := timestamp;
                      ov_title := cell row 2; ov_content := cell row 3;
                      ov_type := type; ov_nextAction := action a;
                      ov_actionParam := param a; ov_options := [];
                      ov_explanation := or_else (cell row 11) (VStr "");
                      ov_correctFeedback := or_else (cell row 12) (VStr "");
                      ov_incorrectFeedback := or_else (cell row 13) (VStr "");
                      ov_groupName := or_else (cell row 10) (VStr "");
                      ov_image := None |} options)
                {| img_url := cell row 14;
                   img_width := or_else (cell row 15) (VStr "auto");
                   img_height := or_else (cell row 16) (VStr "auto") |}
          /\ calls' = calls1) as [-> ->].
  { destruct (truthy (cell row 14)); by injection H as <- <-. }
  assert (Hty : if truthy (cell row 4) then toLowerCase (cell row 4) = Returned type
                else type = "info").
  { destruct (truthy (cell row 4)); [done|]. by injection Htype as <-. }
  destruct (truthy (cell row 14)); simpl; repeat split; try done; by exists a.
Qed.

End ParseRow.

Section RowProperties.
Variable Math_random : nat -> Q.
Variable videoTitle : value.

(** C7 (amended): for every accepted row the type of the overlay is the
    interaction-type field in lower case when the field is present, and
    [info] when it is absent; a type that is not one of the four known ones
    is kept as it is, in lower case. *)
Theorem parse_row_type i row calls o calls' :
  parse_row Math_random videoTitle i row calls = Returned (Some (o, calls')) ->
  if truthy (cell row 4)
  then exists s, cell row 4 = VStr s /\ ov_type o = toLowerCase_str s
  else ov_type o = OVERLAY_TYPES.INFO.
Proof.
  intros H. apply parse_row_accepted in H.
  destruct H as (_ & _ & _ & _ & _ & _ & _ & _ & Hty & _).
  destruct (truthy (cell row 4)); [|done].
  destruct (cell row 4) as [| | | |s]; try done.
  exists s. split; [done|]. by injection Hty.
Qed.

(** C10: an accepted row whose type is exactly [matching] yields an
    overlay without options, whatever its answer fields hold. *)
Theorem matching_has_no_options i row calls o calls' :
  parse_row Math_random videoTitle i row calls = Returned (Some (o, calls')) ->
  ov_type o = OVERLAY_TYPES.QUIZ_MATCHING ->
  ov_options o = [].
Proof.
  intros H Hty. apply parse_row_accepted in H.
  destruct H as (_ & _ & _ & _ & _ & _ & _ & _ & _ & _ & _ & _ & _ & Hb).
  rewrite Hty in Hb. unfold build_options in Hb.
  change (is_question OVERLAY_TYPES.QUIZ_MATCHING) with false in Hb.
  by injection Hb.
Qed.

Lemma correct_options_pieces correctFeedback s :
  correct_options correctFeedback (split "|" s)
  = (fun t => {| opt_text := VStr t; opt_isCorrect := true;
                 opt_feedback := or_else correctFeedback (VStr "Correct!") |})
      <$> answer_pieces (VStr s).
Proof.
  unfold answer_pieces. simpl ToString.
  induction (split "|" s) as [|a l IH]; [done|].
  unfold correct_options in *. cbn [omap list_omap fmap list_fmap List.filter].
  destruct (String.eqb (trim a) ""); cbn [negb fmap list_fmap]; by rewrite IH.
Qed.

Lemma incorrect_option_none incorrectFeedback cellj :
  supplies_no_option cellj = true ->
  incorrect_option incorrectFeedback cellj = Returned [].
Proof.
  unfold supplies_no_option, incorrect_option. intros H.
  destruct (truthy cellj) eqn:Ht; [|done].
  rewrite (toString_truthy _ Ht). simpl in *. by rewrite H.
Qed.

(** C5: a row of type [true_false] whose correct-answer field supplies the
    single answer TRUE, and whose incorrect-answer fields supply nothing,
    yields exactly two options, in some order: that answer marked correct,
    and a FALSE marked incorrect that carries the incorrect feedback or its
    fallback. *)
Theorem true_false_with_only_TRUE i row calls o calls' t :
  in_unit_interval Math_random ->
  parse_row Math_random videoTitle i row calls = Returned (Some (o, calls')) ->
  ov_type o = OVERLAY_TYPES.QUIZ_TRUE_FALSE ->
  truthy (cell row 6) = true ->
  answer_pieces (cell row 6) = [t] ->
  toUpperCase_str t = "TRUE" ->
  supplies_no_option (cell row 7) = true ->
  supplies_no_option (cell row 8) = true ->
  supplies_no_option (cell row 9) = true ->
  ov_options o ≡ₚ
    [{| opt_text := VStr t; opt_isCorrect := true;
        opt_feedback := or_else (ov_correctFeedback o) (VStr "Correct!") |};
     {| opt_text := VStr "FALSE"; opt_isCorrect := false;
        opt_feedback := or_else (ov_incorrectFeedback o) (VStr "Incorrect.") |}]
  /\ length (ov_options o) = 2%nat.
Proof.
  intros _ H Hty H6 Hpieces Hupper H7 H8 H9. apply parse_row_accepted in H.
  destruct H as (_ & _ & _ & _ & _ & _ & _ & _ & _ & _ & _ & _ & _ & Hb).
  rewrite Hty in Hb. unfold build_options in Hb.
  change (is_question OVERLAY_TYPES.QUIZ_TRUE_FALSE) with true in Hb.
  rewrite H6, (toString_truthy _ H6) in Hb. simpl in Hb.
  rewrite correct_options_pieces in Hb.
  replace (answer_pieces (VStr (ToString (cell row 6)))) with [t] in Hb
    by (by rewrite <- Hpieces).
  rewrite !incorrect_option_none in Hb by done. simpl in Hb.
  rewrite Hupper in Hb. simpl in Hb.
  assert (Hperm : ov_options o ≡ₚ
    [{| opt_text := VStr t; opt_isCorrect := true;
        opt_feedback := or_else (ov_correctFeedback o) (VStr "Correct!") |};
     missing_option (ov_incorrectFeedback o) "FALSE"]).
  { injection Hb as <- _.
    exact (shuffleArray_Permutation Math_random [_; _] calls). }
  split; [exact Hperm | by rewrite Hperm].
Qed.

End RowProperties.

Lemma true_false_with_only_TRUE_witness :
  ov_options example_true_false_overlay ≡ₚ
    [{| opt_text := VStr "TRUE"; opt_isCorrect := true;
        opt_feedback :=
          or_else (ov_correctFeedback example_true_false_overlay) (VStr "Correct!") |};
     {| opt_text := VStr "FALSE"; opt_isCorrect := false;
        opt_feedback :=
          or_else (ov_incorrectFeedback example_true_false_overlay)
            (VStr "Incorrect.") |}]
  /\ length (ov_options example_true_false_overlay) = 2%nat.
Proof.
  apply (true_false_with_only_TRUE example_random (VStr "Lesson 1") 1
           example_true_false_row 0 example_true_false_overlay 1 "TRUE").
  - exact example_random_in_unit_interval.
  - vm_compute. reflexivity.
  - reflexivity.
  - reflexivity.
  - reflexivity.
  - reflexivity.
  - reflexivity.
  - reflexivity.
  - reflexivity.
Defined.

Lemma parse_row_type_witness :
  if truthy (cell example_true_false_row 4)
  then exists s, cell example_true_false_row 4 = VStr s
                 /\ ov_type example_true_false_overlay = toLowerCase_str s
  else ov_type example_true_false_overlay = OVERLAY_TYPES.INFO.
Proof.
  apply (parse_row_type example_random (VStr "Lesson 1") 1
           example_true_false_row 0 example_true_false_overlay 1).
  vm_compute. reflexivity.
Defined.

Lemma matching_has_no_options_witness :
  ov_options example_matching_overlay = [].
Proof.
  apply (matching_has_no_options example_random (VStr "Lesson 1") 3
           example_matching_row 0 example_matching_overlay 0).
  - vm_compute. reflexivity.
  - reflexivity.
Defined.

(** C7, as stated, fails: the type [Bogus] is not one of the four known
    types, and the overlay keeps it (in lower case) instead of [info]. *)
Lemma unrecognized_type_is_kept :
  exists o calls',
    parse_row example_random (VStr "Lesson 1") 1 example_bogus_row 0
      = Returned (Some (o, calls'))
    /\ ov_type o = "bogus"
    /\ type_as_specified (cell example_bogus_row 4) = "info"
    /\ ov_type o <> type_as_specified (cell example_bogus_row 4).
Proof.
  eexists _, _. split; [vm_compute; reflexivity|].
  repeat split; try reflexivity.
  intros H; vm_compute in H; discriminate H.
Qed.

(** ** Properties of the loop over the rows *)

Lemma parseNextAction_next_question v a :
  parseNextAction v = Returned a ->
  action a = NEXT_ACTIONS.NEXT_QUESTION -> param a = VNull.
Proof.
  unfold parseNextAction. intros H Ha.
  destruct (negb (truthy v)); [by injection H as <-|].
  destruct (bool_decide _); [by injection H as <-|].
  destruct (string_method _ v) as [s|]; [|done]. simpl in H.
  destruct (startsWith s _).
  { destruct (split_param s); [|done]. by injection H as <-. }
  destruct (startsWith s _).
  { destruct (split_param s); [|done]. by injection H as <-. }
  by injection H as <-.
Qed.

Lemma StronglySorted_snoc {A} (R : A -> A -> Prop) l x :
  StronglySorted R l -> Forall (fun y => R y x) l -> StronglySorted R (l ++ [x]).
Proof.
  induction 1 as [|a l Hs IH Ha]; intros Hx; simpl.
  - repeat constructor.
  - apply Forall_cons in Hx as [Hax Hx]. constructor; [by apply IH|].
    apply Forall_app. split; [done|]. by repeat constructor.
Qed.

Lemma StronglySorted_filter {A} (R : A -> A -> Prop) (P : A -> bool) l :
  StronglySorted R l -> StronglySorted R (List.filter P l).
Proof.
  induction 1 as [|a l Hs IH Ha]; simpl; [constructor|].
  destruct (P a); [|done]. constructor; [done|].
  rewrite Forall_forall in *. intros x Hx. apply Ha.
  apply list_elem_of_In in Hx. apply filter_In in Hx as [Hx _].
  by apply list_elem_of_In.
Qed.

Lemma group_members_snoc name l o :
  group_members name (l ++ [o])
  = group_members name l ++ (if in_group name o then [ov_id o] else []).
Proof.
  unfold group_members. rewrite List.filter_app, fmap_app. simpl.
  by destruct (in_group name o).
Qed.

Lemma add_to_group_lookup name id groups groups' name' :
  add_to_group name id groups = Returned groups' ->
  groups' !! name' =
    if bool_decide (name = name') then Some (default [] (groups !! name) ++ [id])
    else groups !! name'.
Proof.
  unfold add_to_group. intros H.
  destruct (groups !! name) as [ids|] eqn:Hg.
  - injection H as <-. rewrite lookup_insert.
    case_bool_decide; case_decide; simplify_eq; by rewrite ?Hg.
  - destruct (bool_decide (name ∈ Object_prototype_keys)); [done|].
    injection H as <-. rewrite lookup_insert.
    case_bool_decide; case_decide; simplify_eq; by rewrite ?Hg.
Qed.

Section Builder.
Variable Math_random : nat -> Q.
Variable videoTitle : value.

Lemma initial_state_invariant calls : rows_invariant 1 (initial_state calls).
Proof. split; simpl; try constructor. Qed.

Lemma process_row_invariant i row st st' :
  process_row Math_random videoTitle i row st = Returned st' ->
  rows_invariant i st -> rows_invariant (S i) st'.
Proof.
  unfold process_row. intros H [I1 I2 I3 I4].
  destruct (parse_row _ _ i row (st_calls st)) as [[[o calls']|]|] eqn:Hp;
    simpl in H; [| |done].
  2:{ injection H as <-. split; try done.
      eapply Forall_impl; [exact I2|]. intros o (k & ? & ?). exists k. split; [done|lia]. }
  apply parse_row_accepted in Hp.
  destruct Hp as (_ & _ & _ & _ & _ & _ & Hid & _ & _ & (a & Ha & Hact & Hpar) & _).
  assert (Hrow : row_of_id (ov_id o) = Some i) by (rewrite Hid; apply row_of_overlay_id).
  destruct (if truthy (ov_groupName o) then _ else _) as [groups'|] eqn:Hg;
    simpl in H; [|done].
  injection H as <-. split; simpl.
  - apply StronglySorted_snoc; [done|].
    eapply Forall_impl; [exact I2|]. intros o0 (k & Hk & Hlt).
    exists k, i. done.
  - apply Forall_app. split.
    + eapply Forall_impl; [exact I2|]. intros o0 (k & ? & ?). exists k. split; [done|lia].
    + repeat constructor. exists i. split; [done|lia].
  - intros name. rewrite group_members_snoc. unfold in_group.
    destruct (truthy (ov_groupName o)) eqn:Ht; simpl.
    + rewrite (add_to_group_lookup _ _ _ _ name Hg).
      case_bool_decide as Hn.
      * subst name. rewrite String.eqb_refl, I3.
        by destruct (group_members _ _).
      * apply String.eqb_neq in Hn. rewrite Hn, app_nil_r. apply I3.
    + injection Hg as <-. rewrite app_nil_r. apply I3.
  - apply Forall_app. split; [done|]. repeat constructor.
    rewrite Hact, Hpar. by apply (parseNextAction_next_question _ _ Ha).
Qed.

Lemma process_rows_invariant rows i st st' :
  process_rows Math_random videoTitle i rows st = Returned st' ->
  rows_invariant i st -> rows_invariant (i + length rows) st'.
Proof.
  revert i st; induction rows as [|row rows IH]; intros i st H Hinv; simpl in *.
  - injection H as <-. by rewrite Nat.add_0_r.
  - destruct (process_row _ _ i row st) as [st1|] eqn:H1; [|done]. simpl in H.
    rewrite Nat.add_succ_r. apply (IH (S i) st1 H).
    by eapply process_row_invariant.
Qed.

(** The result of a successful call, in terms of the state the loop over
    the rows ends in. *)
Lemma getOverlaysForVideo_success overlaysData calls r :
  getOverlaysForVideo Math_random videoTitle (Some overlaysData) calls = Success r ->
  exists st n,
    rows_invariant n st
    /\ overlays r = link_rec (Array_sort by_timestamp (st_overlays st))
    /\ groups r = st_groups st.
Proof.
  unfold getOverlaysForVideo, build_overlays. intros H.
  destruct (process_rows _ _ 1 (drop 1 overlaysData) (initial_state calls))
    as [st|] eqn:Hrows; [|done].
  simpl in H. injection H as <-. exists st, (1 + length (drop 1 overlaysData))%nat.
  split; [|split; [apply link_next_questions_rec|done]].
  eapply process_rows_invariant; [exact Hrows|]. apply initial_state_invariant.
Qed.

End Builder.

(** ** The overlay graph *)

Lemma same_but_param_timestamp_then_row a b a' b' :
  same_but_param a a' -> same_but_param b b' ->
  timestamp_then_row a b -> timestamp_then_row a' b'.
Proof. by intros [v ->] [w ->]. Qed.

Lemma timestamp_then_row_le a b :
  timestamp_then_row a b -> ov_timestamp a <= ov_timestamp b.
Proof. unfold timestamp_then_row. lia. Qed.

Lemma StronglySorted_weaken {A} (R R' : A -> A -> Prop) l :
  (forall a b, R a b -> R' a b) -> StronglySorted R l -> StronglySorted R' l.
Proof.
  intros HR. induction 1 as [|a l Hs IH Ha]; constructor; [done|].
  eapply Forall_impl; [exact Ha|]. intros b. apply HR.
Qed.

Lemma StronglySorted_map {A B} (f : A -> B) (R : B -> B -> Prop) l :
  StronglySorted (fun a b => R (f a) (f b)) l -> StronglySorted R (f <$> l).
Proof.
  induction 1 as [|a l Hs IH Ha]; simpl; constructor; [done|].
  by apply Forall_fmap.
Qed.

Section Graph.
Variable Math_random : nat -> Q.
Variable videoTitle : value.

Lemma overlays_timestamp_then_row overlaysData calls r :
  getOverlaysForVideo Math_random videoTitle (Some overlaysData) calls = Success r ->
  StronglySorted timestamp_then_row (overlays r).
Proof.
  intros (st & n & [I1 _ _ _] & Hov & _)%getOverlaysForVideo_success.
  rewrite Hov.
  eapply StronglySorted_transfer;
    [apply link_rec_same | apply same_but_param_timestamp_then_row |].
  exact (Array_sort_key_then ov_timestamp row_before _ I1).
Qed.


Lemma group_members_elem name l id :
  id ∈ group_members name l <->
  exists o, o ∈ l /\ ov_id o = id /\ in_group name o = true.
Proof.
  unfold group_members. rewrite list_elem_of_fmap. split.
  - intros (o & -> & Ho). exists o. apply list_elem_of_In, filter_In in Ho as [Ho Hg].
    by rewrite list_elem_of_In.
  - intros (o & Ho & <- & Hg). exists o. split; [done|].
    apply list_elem_of_In, filter_In. by rewrite <- list_elem_of_In.
Qed.

(** C6 (amended): each group of the result lists the identifiers of
    exactly the overlays of that group, in the order of their rows in the
    sheet. *)
Theorem groups_list_members_in_row_order overlaysData calls r name ids :
  getOverlaysForVideo Math_random videoTitle (Some overlaysData) calls = Success r ->
  groups r !! name = Some ids ->
  StronglySorted id_before ids
  /\ forall id, id ∈ ids <->
       exists o, o ∈ overlays r /\ ov_id o = id /\ in_group name o = true.
Proof.
  intros (st & n & [I1 _ I3 _] & Hov & Hgr)%getOverlaysForVideo_success Hids.
  rewrite Hgr, I3 in Hids.
  assert (ids = group_members name (st_overlays st)) as ->.
  { destruct (group_members name (st_overlays st)); [done|by injection Hids]. }
  split.
  - unfold group_members.
    apply StronglySorted_map. by apply (StronglySorted_filter row_before).
  - intros id. rewrite group_members_elem.
    set (sorted := Array_sort by_timestamp (st_overlays st)) in *.
    pose proof (link_rec_same sorted) as Hsame. rewrite <- Hov in Hsame.
    split.
    + intros (o0 & Ho0 & Hid & Hg).
      rewrite <- (Array_sort_Permutation by_timestamp) in Ho0.
      apply list_elem_of_lookup in Ho0 as [k Hk].
      destruct (Forall2_lookup_l _ _ _ _ _ Hsame Hk) as (o & Ho & [v ->]).
      exists (set_actionParam o0 v). split; [by eapply list_elem_of_lookup_2|done].
    + intros (o & Ho & Hid & Hg).
      apply list_elem_of_lookup in Ho as [k Hk].
      destruct (Forall2_lookup_r _ _ _ _ _ Hsame Hk) as (o0 & Ho0 & [v ->]).
      exists o0. split; [|done].
      rewrite <- (Array_sort_Permutation by_timestamp).
      by eapply list_elem_of_lookup_2.
Qed.

End Graph.

(** Overlays at the timestamps 30, 5, 10 and 20 come out at 5, 10, 20, 30. *)
Example unsorted_timestamps_come_out_sorted :
  ov_timestamp <$> overlays example_unsorted_result = [5; 10; 20; 30]
  /\ ov_id <$> overlays example_unsorted_result
     = ["overlay-2"; "overlay-3"; "overlay-4"; "overlay-1"].
Proof. split; vm_compute; reflexivity. Qed.


(** A [next_question] overlay at 5 followed by quizzes at 10 and 20 gets
    the parameter 10. *)
Example next_question_takes_nearest_quiz :
  overlays example_quiz_result !! 0%nat = Some example_start_overlay
  /\ ov_timestamp <$> overlays example_quiz_result = [5; 10; 20]
  /\ ov_actionParam example_start_overlay = VNum 10.
Proof. repeat split; vm_compute; reflexivity. Qed.

Lemma groups_list_members_in_row_order_witness :
  StronglySorted id_before ["overlay-1"; "overlay-2"]
  /\ forall id, id ∈ ["overlay-1"; "overlay-2"] <->
       exists o, o ∈ overlays example_group_result /\ ov_id o = id
                 /\ in_group "g" o = true.
Proof.
  apply (groups_list_members_in_row_order example_random (VStr "Lesson 1")
           example_group_sheet 0 example_group_result "g").
  - vm_compute. reflexivity.
  - vm_compute. reflexivity.
Defined.

(** C6, as stated, fails: the group [g] lists the overlay of the upper row
    first although its timestamp, 30, is the later one. *)
Lemma groups_not_in_timestamp_order :
  groups example_group_result !! "g" = Some ["overlay-1"; "overlay-2"]
  /\ ov_id <$> overlays example_group_result = ["overlay-2"; "overlay-1"]
  /\ group_timestamps example_group_result ["overlay-1"; "overlay-2"] = [30; 5]
  /\ ~ Sorted Z.le (group_timestamps example_group_result ["overlay-1"; "overlay-2"]).
Proof.
  assert (Hts : group_timestamps example_group_result ["overlay-1"; "overlay-2"]
                = [30; 5]) by (vm_compute; reflexivity).
  repeat split; try (vm_compute; reflexivity).
  rewrite Hts. intros Hs. apply Sorted_inv in Hs as [_ Hhd].
  apply HdRel_inv in Hhd. lia.
Qed.

(** ** The student report *)

Section Report.
Variable parseFloat : value -> option Q.
Variables videoTitle sessionId userId : value.

Lemma count_attempt_no_match rows acc :
  (forall row, row ∈ rows ->
     strict_eq (cell row 8) sessionId && strict_eq (cell row 2) videoTitle = false) ->
  foldl (count_attempt parseFloat videoTitle sessionId) acc rows = acc.
Proof.
  revert acc; induction rows as [|row rows IH]; intros acc H; simpl; [done|].
  unfold count_attempt at 2. rewrite (H row) by constructor.
  apply IH. intros row' Hin. apply H. by constructor.
Qed.

(** C8: when no row of the Quiz Analytics sheet is of this session and
    video, the report counts zero questions, its accuracy and its average
    time are the initial 0 and not the NaN that the quotient of 0 by 0 is
    (no quotient is formed), and the feedback of its summary is the text for
    a session without quiz data. *)
Theorem student_report_without_attempts analyticsData userDataSheet notesSheet :
  (forall row, row ∈ drop 1 analyticsData ->
     strict_eq (cell row 8) sessionId && strict_eq (cell row 2) videoTitle = false) ->
  exists report,
    getStudentReport parseFloat videoTitle sessionId userId
      (Some analyticsData) userDataSheet notesSheet = Report report
    /\ totalQuestions (quizPerformance report) = 0%nat
    /\ accuracyPercentage (quizPerformance report) = Finite 0
    /\ averageTimeToAnswer (quizPerformance report) = Finite 0
    /\ percentage (correctAnswers (quizPerformance report))
         (totalQuestions (quizPerformance report)) = NaN
    /\ sum_feedback (summary report) = "No quiz data available for this session.".
Proof.
  intros H. unfold getStudentReport.
  rewrite (count_attempt_no_match _ _ H). simpl.
  eexists. split; [reflexivity|]. simpl. repeat split.
Qed.

(** Without a Quiz Analytics sheet the call returns its error object, whose
    summary is the default one. *)
Lemma student_report_without_sheet userDataSheet notesSheet :
  getStudentReport parseFloat videoTitle sessionId userId None userDataSheet notesSheet
  = ReportError "No quiz analytics data available" createDefaultReportSummary.
Proof. reflexivity. Qed.

End Report.

Lemma student_report_without_attempts_witness :
  exists report,
    getStudentReport example_parseFloat (VStr "Lesson 1") (VStr "s-1") (VStr "anonymous")
      (Some example_analytics_sheet) None None = Report report
    /\ totalQuestions (quizPerformance report) = 0%nat
    /\ accuracyPercentage (quizPerformance report) = Finite 0
    /\ averageTimeToAnswer (quizPerformance report) = Finite 0
    /\ percentage (correctAnswers (quizPerformance report))
         (totalQuestions (quizPerformance report)) = NaN
    /\ sum_feedback (summary report) = "No quiz data available for this session.".
Proof.
  apply (student_report_without_attempts example_parseFloat (VStr "Lesson 1")
           (VStr "s-1") (VStr "anonymous") example_analytics_sheet None None).
  intros row Hin. simpl in Hin. apply list_elem_of_singleton in Hin. subst row.
  reflexivity.
Defined.

(** Three attempts of which two are correct: 66.7 percent, and the feedback
    of the tier from 60 up. *)
Example two_of_three_is_66_7 :
  let attempt (correct : bool) :=
    [VStr "2024-01-01"; VStr "anonymous"; VStr "Lesson 1"; VStr "overlay-1";
     VStr "quiz"; VBool correct; VStr "yes"; VNum 3; VStr "s-1"] in
  exists report,
    getStudentReport example_parseFloat (VStr "Lesson 1") (VStr "s-1") (VStr "anonymous")
      (Some [[]; attempt true; attempt false; attempt true]) None None = Report report
    /\ sum_grade (summary report) = "66.7%"
    /\ sum_feedback (summary report)
       = "You're on the right track, but may want to review the material again to strengthen your understanding.".
Proof. eexists. split; [reflexivity|]. split; vm_compute; reflexivity. Qed.

(** A call without a user is one of the user [anonymous]. *)
Example student_report_default_user :
  exists report,
    getStudentReport example_parseFloat (VStr "Lesson 1") (VStr "s-1") VUndefined
      (Some example_analytics_sheet) None None = Report report
    /\ rep_userId report = VStr "anonymous".
Proof. eexists. split; reflexivity. Qed.

(** ** Application settings *)

(** The reader turns the strings TRUE and FALSE into booleans. *)
Example getAppSettings_reads_TRUE_FALSE :
  getAppSettings
    (Some [[VStr "Setting"; VStr "Value"; VStr "Description"];
           [VStr "AllowNotes"; VStr "TRUE"; VStr ""];
           [VStr "AllowSkipping"; VStr "FALSE"; VStr ""];
           [VStr "PrimaryColor"; VStr "#4285f4"; VStr ""]])
  = {[ "AllowNotes" := VBool true; "AllowSkipping" := VBool false;
       "PrimaryColor" := VStr "#4285f4" ]}.
Proof. apply map_eq. intros k. vm_compute. reflexivity. Qed.

(** A cell that holds a boolean, not a string, passes through as it is. *)
Example getAppSettings_passes_booleans_through :
  getAppSettings
    (Some [[VStr "Setting"; VStr "Value"; VStr "Description"];
           [VStr "AllowNotes"; VBool true]])
  = {[ "AllowNotes" := VBool true ]}.
Proof. apply map_eq. intros k. vm_compute. reflexivity. Qed.

(** ** Further properties of the action resolver *)

Lemma trim_end_idempotent s : trim_end (trim_end s) = trim_end s.
Proof.
  induction s as [|c s IH]; simpl; [done|].
  destruct (trim_end s) as [|d t] eqn:Ht.
  - destruct (is_white c) eqn:Hc; simpl; [done|]. by rewrite Hc.
  - simpl in *. by rewrite IH.
Qed.

Lemma trim_start_head s :
  trim_start s = EmptyString
  \/ exists c t, trim_start s = String c t /\ is_white c = false.
Proof.
  induction s as [|c s IH]; simpl; [by left|].
  destruct (is_white c) eqn:Hc; [done|]. right. by exists c, s.
Qed.

Lemma trim_end_head c s :
  is_white c = false -> exists t, trim_end (String c s) = String c t.
Proof.
  intros Hc. simpl. destruct (trim_end s); rewrite ?Hc; by eexists.
Qed.

Lemma trim_trim s : trim (trim s) = trim s.
Proof.
  unfold trim at 1 3.
  destruct (trim_start_head s) as [Hs|(c & t & Hs & Hc)].
  - unfold trim. rewrite Hs. done.
  - rewrite Hs. destruct (trim_end_head c t Hc) as [t' Ht'].
    unfold trim. rewrite Hs, Ht'. simpl trim_start. rewrite Hc.
    by rewrite <- Ht', trim_end_idempotent.
Qed.

(** X1: whatever the directive, a resolved action is one of the five
    actions of the configuration, and its parameter is null unless the
    action is [if_correct] or [if_incorrect], when it is a string without
    white space at either end. *)
Theorem parseNextAction_well_formed v a :
  parseNextAction v = Returned a ->
  action a ∈ known_actions
  /\ (param a = VNull
      \/ (action a ∈ [NEXT_ACTIONS.IF_CORRECT; NEXT_ACTIONS.IF_INCORRECT]
          /\ exists p, param a = VStr p /\ trim p = p)).
Proof.
  unfold parseNextAction. intros H.
  destruct (negb (truthy v)).
  { injection H as <-. simpl. split; [set_solver|by left]. }
  case_bool_decide as Hin.
  { injection H as <-. simpl. split; [|by left].
    rewrite !elem_of_cons, elem_of_nil in Hin.
    destruct Hin as [->|[->|[->|[]]]]; simpl; unfold known_actions; set_solver. }
  destruct (string_method _ v) as [s|]; [|done]. simpl in H.
  assert (Hp : forall p, split_param s = Returned p ->
             exists q, p = VStr q /\ trim q = q).
  { unfold split_param. intros p Hp. destruct (split ":" s !! 1%nat); [|done].
    injection Hp as <-. eexists. split; [done|]. apply trim_trim. }
  destruct (startsWith s _).
  { destruct (split_param s) as [p|] eqn:Hsp; [|done]. injection H as <-. simpl.
    split; [unfold known_actions; set_solver|]. right. split; [set_solver|]. by apply Hp. }
  destruct (startsWith s _).
  { destruct (split_param s) as [p|] eqn:Hsp; [|done]. injection H as <-. simpl.
    split; [unfold known_actions; set_solver|]. right. split; [set_solver|]. by apply Hp. }
  injection H as <-. simpl. split; [unfold known_actions; set_solver|by left].
Qed.

Lemma parseNextAction_well_formed_witness :
  action {| action := "if_correct"; param := VStr "42" |} ∈ known_actions
  /\ (param {| action := "if_correct"; param := VStr "42" |} = VNull
      \/ (action {| action := "if_correct"; param := VStr "42" |}
            ∈ [NEXT_ACTIONS.IF_CORRECT; NEXT_ACTIONS.IF_INCORRECT]
          /\ exists p, param {| action := "if_correct"; param := VStr "42" |} = VStr p
                       /\ trim p = p)).
Proof.
  apply (parseNextAction_well_formed (VStr "if_correct: 42 ")).
  reflexivity.
Defined.

Lemma parseNextAction_string_returns s :
  exists a, parseNextAction (VStr s) = Returned a.
Proof.
  unfold parseNextAction. destruct (negb (truthy (VStr s))); [by eexists|].
  destruct (bool_decide _); [by eexists|]. simpl. unfold startsWith.
  change (NEXT_ACTIONS.IF_CORRECT +:+ ":") with "if_correct:".
  change (NEXT_ACTIONS.IF_INCORRECT +:+ ":") with "if_incorrect:".
  destruct (String.prefix "if_correct:" s) eqn:Hc.
  { apply prefix_app in Hc as [t ->]. rewrite split_param_if_correct. by eexists. }
  destruct (String.prefix "if_incorrect:" s) eqn:Hi; [|by eexists].
  apply prefix_app in Hi as [t ->]. rewrite split_param_if_incorrect. by eexists.
Qed.

(** X2: [parseNextAction] raises exactly on the values that are truthy and
    not strings (a number other than 0, the boolean true); on every string
    and on every falsy value it returns. *)
Theorem parseNextAction_raises_iff v :
  parseNextAction v = Thrown <->
  truthy v = true /\ forall s, v <> VStr s.
Proof.
  split.
  - intros H. destruct v as [| |b|n|s]; try done.
    + destruct b; [|done]. by split.
    + destruct (Z.eqb_spec n 0) as [->|Hn]; [done|].
      split; [|done]. simpl. by apply negb_true_iff, Z.eqb_neq.
    + destruct (parseNextAction_string_returns s) as [a Ha]. congruence.
  - intros [Ht Hs]. destruct v as [| |b|n|s]; try done.
    + by destruct b.
    + unfold parseNextAction. by rewrite Ht.
    + by destruct (Hs s).
Qed.

(** ** Further properties of the row parser *)

Section RowOptions.
Variable Math_random : nat -> Q.

(** The two ways [build_options] returns. *)
Lemma build_options_returned type row correctFeedback incorrectFeedback calls
    options calls' :
  build_options Math_random type row correctFeedback incorrectFeedback calls
    = Returned (options, calls') ->
  ((is_question type = false \/ truthy (cell row 6) = false)
   /\ options = [] /\ calls' = calls)
  \/ (is_question type = true /\ truthy (cell row 6) = true
      /\ exists i7 i8 i9 options2,
           incorrect_option incorrectFeedback (cell row 7) = Returned i7
           /\ incorrect_option incorrectFeedback (cell row 8) = Returned i8
           /\ incorrect_option incorrectFeedback (cell row 9) = Returned i9
           /\ ensure_true_false type incorrectFeedback
                ((correct_option correctFeedback <$> answer_pieces (cell row 6))
                   ++ i7 ++ i8 ++ i9) = Returned options2
           /\ shuffleArray Math_random options2 calls = (options, calls')).
Proof.
  unfold build_options. intros H.
  destruct (is_question type) eqn:Hq.
  2:{ left. injection H as <- <-. auto. }
  destruct (truthy (cell row 6)) eqn:H6.
  2:{ left. injection H as <- <-. auto. }
  right. split; [done|]. split; [done|].
  rewrite (toString_truthy _ H6) in H. simpl in H.
  rewrite correct_options_pieces in H.
  destruct (incorrect_option _ (cell row 7)) as [i7|]; [|done]. simpl in H.
  destruct (incorrect_option _ (cell row 8)) as [i8|]; [|done]. simpl in H.
  destruct (incorrect_option _ (cell row 9)) as [i9|]; [|done]. simpl in H.
  destruct (ensure_true_false _ _ _) as [options2|] eqn:He; [|done]. simpl in H.
  exists i7, i8, i9, options2. repeat split; try done.
  by injection H.
Qed.

Lemma incorrect_option_marked incorrectFeedback cellj l :
  incorrect_option incorrectFeedback cellj = Returned l ->
  Forall (fun o => opt_isCorrect o = false) l.
Proof.
  unfold incorrect_option. intros H.
  destruct (truthy cellj); [|by injection H as <-].
  destruct (toString cellj) as [s|]; [|done]. simpl in H.
  destruct (negb _); injection H as <-; by repeat constructor.
Qed.

Lemma scan_true_false_spec options hasTrue hasFalse t f :
  scan_true_false options hasTrue hasFalse = Returned (t, f) ->
  (t = true <-> hasTrue = true \/ Exists (option_reads "TRUE") options)
  /\ (f = true <-> hasFalse = true \/ Exists (option_reads "FALSE") options).
Proof.
  revert hasTrue hasFalse; induction options as [|o options IH];
    intros hasTrue hasFalse H; simpl in H.
  - injection H as <- <-. rewrite !Exists_nil. tauto.
  - destruct (opt_text o) as [| | | |s] eqn:Ho; try done. simpl in H.
    apply IH in H as [Ht Hf]. rewrite Ht, Hf, !Exists_cons. unfold option_reads.
    rewrite Ho. split.
    + destruct (String.eqb_spec (toUpperCase_str s) "TRUE") as [Hs|Hs].
      * split; [|by left]. intros _. right. left. by exists s.
      * split; [tauto|]. intros [?|[(s' & [= <-] & ?)|?]]; tauto.
    + destruct (String.eqb_spec (toUpperCase_str s) "FALSE") as [Hs|Hs].
      * split; [|by left]. intros _. right. left. by exists s.
      * split; [tauto|]. intros [?|[(s' & [= <-] & ?)|?]]; tauto.
Qed.

Lemma missing_option_reads incorrectFeedback word :
  toUpperCase_str word = word ->
  option_reads word (missing_option incorrectFeedback word).
Proof. intros H. by exists word. Qed.

(** What the block for [true_false] adds, and what it leaves. *)
Lemma ensure_true_false_spec type incorrectFeedback options options2 :
  ensure_true_false type incorrectFeedback options = Returned options2 ->
  exists added,
    options2 = options ++ added
    /\ Forall (fun o => opt_isCorrect o = false) added
    /\ (type = "true_false" ->
        Exists (option_reads "TRUE") options2
        /\ Exists (option_reads "FALSE") options2).
Proof.
  unfold ensure_true_false. intros H.
  destruct (String.eqb_spec type "true_false") as [->|Hne].
  2:{ injection H as <-. exists []. rewrite app_nil_r.
      split; [done|]. split; [constructor|]. intros ?. contradiction. }
  destruct (scan_true_false options false false) as [[t f]|] eqn:Hs; [|done].
  simpl in H. injection H as <-.
  apply scan_true_false_spec in Hs as [Ht Hf].
  assert (HT : option_reads "TRUE" (missing_option incorrectFeedback "TRUE"))
    by by apply missing_option_reads.
  assert (HF : option_reads "FALSE" (missing_option incorrectFeedback "FALSE"))
    by by apply missing_option_reads.
  destruct t, f; simpl.
  - exists []. rewrite app_nil_r. split; [done|]. split; [constructor|].
    intros _. split.
    + by destruct (proj1 Ht eq_refl).
    + by destruct (proj1 Hf eq_refl).
  - exists [missing_option incorrectFeedback "FALSE"].
    split; [done|]. split; [by repeat constructor|]. intros _.
    rewrite !Exists_app. split.
    + left. by destruct (proj1 Ht eq_refl).
    + right. by constructor.
  - exists [missing_option incorrectFeedback "TRUE"].
    split; [done|]. split; [by repeat constructor|]. intros _.
    rewrite !Exists_app. split.
    + right. by constructor.
    + left. by destruct (proj1 Hf eq_refl).
  - exists [missing_option incorrectFeedback "TRUE";
            missing_option incorrectFeedback "FALSE"].
    split; [by rewrite <- app_assoc|]. split; [by repeat constructor|]. intros _.
    rewrite !Exists_app. split.
    + left. right. by constructor.
    + right. by constructor.
Qed.

End RowOptions.

Lemma Permutation_filter_bool {A} (P : A -> bool) (l l' : list A) :
  l ≡ₚ l' -> List.filter P l ≡ₚ List.filter P l'.
Proof.
  induction 1 as [|x l l' _ IH|x y l|l l' l'' _ IH1 _ IH2]; simpl.
  - done.
  - destruct (P x); by rewrite IH.
  - destruct (P x), (P y); try done. apply perm_swap.
  - by rewrite IH1.
Qed.

Lemma filter_all_false {A} (P : A -> bool) (l : list A) :
  Forall (fun a => P a = false) l -> List.filter P l = [].
Proof. induction 1 as [|a l Ha _ IH]; simpl; [done|]. by rewrite Ha. Qed.

Lemma filter_all_true {A} (P : A -> bool) (l : list A) :
  Forall (fun a => P a = true) l -> List.filter P l = l.
Proof. induction 1 as [|a l Ha _ IH]; simpl; [done|]. by rewrite Ha, IH. Qed.

Lemma shuffleArray_result_Permutation Math_random {A} (l : list A) calls l' calls' :
  shuffleArray Math_random l calls = (l', calls') -> l' ≡ₚ l.
Proof.
  intros H. pose proof (shuffleArray_Permutation Math_random l calls) as Hp.
  by rewrite H in Hp.
Qed.

Section RowOptionProperties.
Variable Math_random : nat -> Q.
Variable videoTitle : value.

Lemma parse_row_options i row calls o calls' :
  parse_row Math_random videoTitle i row calls = Returned (Some (o, calls')) ->
  build_options Math_random (ov_type o) row (ov_correctFeedback o)
    (ov_incorrectFeedback o) calls = Returned (ov_options o, calls').
Proof.
  intros H. apply parse_row_accepted in H.
  by destruct H as (_ & _ & _ & _ & _ & _ & _ & _ & _ & _ & _ & _ & _ & Hb).
Qed.

(** X3: an accepted row whose correct-answer cell is empty (or holds 0 or
    the boolean false) yields an overlay without options, whatever its type
    and its incorrect-answer cells, and draws no random number. *)
Theorem no_correct_answer_no_options i row calls o calls' :
  parse_row Math_random videoTitle i row calls = Returned (Some (o, calls')) ->
  truthy (cell row 6) = false ->
  ov_options o = [] /\ calls' = calls.
Proof.
  intros H H6. apply parse_row_options, build_options_returned in H.
  destruct H as [(_ & ? & ?)|(_ & H6' & _)]; [done|congruence].
Qed.

(** X4: for an accepted row of a quiz type with a correct-answer cell, the
    options marked correct are exactly the trimmed non-empty pieces of that
    cell between the bars, each with the correct feedback or its fallback;
    every other option, from the incorrect-answer cells or added for
    [true_false], is marked incorrect. *)
Theorem correct_options_are_the_answer_pieces i row calls o calls' :
  parse_row Math_random videoTitle i row calls = Returned (Some (o, calls')) ->
  is_question (ov_type o) = true ->
  truthy (cell row 6) = true ->
  List.filter opt_isCorrect (ov_options o)
    ≡ₚ correct_option (ov_correctFeedback o) <$> answer_pieces (cell row 6).
Proof.
  intros H Hq H6. apply parse_row_options, build_options_returned in H.
  destruct H as [([?|?] & _)|(_ & _ & i7 & i8 & i9 & options2 & H7 & H8 & H9 & He & Hs)];
    [congruence..|].
  apply ensure_true_false_spec in He as (added & -> & Hadded & _).
  apply incorrect_option_marked in H7, H8, H9.
  assert (Hperm : ov_options o ≡ₚ
            ((correct_option (ov_correctFeedback o) <$> answer_pieces (cell row 6))
               ++ i7 ++ i8 ++ i9) ++ added).
  { by apply (shuffleArray_result_Permutation Math_random _ calls _ calls'). }
  rewrite (Permutation_filter_bool _ _ _ Hperm), !List.filter_app.
  rewrite (filter_all_false _ i7), (filter_all_false _ i8), (filter_all_false _ i9),
    (filter_all_false _ added), !app_nil_r by done.
  rewrite filter_all_true; [done|]. apply Forall_fmap. by apply Forall_true.
Qed.

(** X5: for an accepted row of type [true_false] with a correct-answer
    cell, the overlay has an option that reads TRUE and an option that reads
    FALSE, in any letter case. *)
Theorem true_false_has_both_options i row calls o calls' :
  parse_row Math_random videoTitle i row calls = Returned (Some (o, calls')) ->
  ov_type o = OVERLAY_TYPES.QUIZ_TRUE_FALSE ->
  truthy (cell row 6) = true ->
  Exists (option_reads "TRUE") (ov_options o)
  /\ Exists (option_reads "FALSE") (ov_options o).
Proof.
  intros H Hty H6. apply parse_row_options, build_options_returned in H.
  destruct H as [([Hq|?] & _)|(_ & _ & i7 & i8 & i9 & options2 & _ & _ & _ & He & Hs)].
  { by rewrite Hty in Hq. }
  { congruence. }
  apply ensure_true_false_spec in He as (added & _ & _ & Hboth).
  destruct (Hboth Hty) as [HT HF].
  assert (Hperm : ov_options o ≡ₚ options2).
  { by apply (shuffleArray_result_Permutation Math_random _ calls _ calls'). }
  rewrite !Exists_exists in *.
  split; [destruct HT as (x & Hx & ?)|destruct HF as (x & Hx & ?)];
    exists x; by rewrite Hperm.
Qed.

End RowOptionProperties.

Lemma no_correct_answer_no_options_witness :
  ov_options example_unanswered_overlay = [] /\ 0%nat = 0%nat.
Proof.
  apply (no_correct_answer_no_options example_random (VStr "Lesson 1") 2
           example_unanswered_row 0 example_unanswered_overlay 0).
  - vm_compute. reflexivity.
  - reflexivity.
Defined.

Lemma correct_options_are_the_answer_pieces_witness :
  List.filter opt_isCorrect (ov_options example_true_false_overlay)
    ≡ₚ correct_option (ov_correctFeedback example_true_false_overlay)
         <$> answer_pieces (cell example_true_false_row 6).
Proof.
  apply (correct_options_are_the_answer_pieces example_random (VStr "Lesson 1") 1
           example_true_false_row 0 example_true_false_overlay 1).
  - vm_compute. reflexivity.
  - reflexivity.
  - reflexivity.
Defined.

Lemma true_false_has_both_options_witness :
  Exists (option_reads "TRUE") (ov_options example_true_false_overlay)
  /\ Exists (option_reads "FALSE") (ov_options example_true_false_overlay).
Proof.
  apply (true_false_has_both_options example_random (VStr "Lesson 1") 1
           example_true_false_row 0 example_true_false_overlay 1).
  - vm_compute. reflexivity.
  - reflexivity.
  - reflexivity.
Defined.

(** ** Further properties of the loop over the rows *)

Lemma accepted_rows_app videoTitle i rows1 rows2 :
  accepted_rows videoTitle i (rows1 ++ rows2)
  = accepted_rows videoTitle i rows1
    ++ accepted_rows videoTitle (i + length rows1) rows2.
Proof.
  revert i; induction rows1 as [|row rows1 IH]; intros i; simpl.
  - by rewrite Nat.add_0_r.
  - rewrite IH, <- app_assoc. do 3 f_equal. lia.
Qed.

Lemma accepted_rows_bounds videoTitle i rows k :
  k ∈ accepted_rows videoTitle i rows -> (i <= k < i + length rows)%nat.
Proof.
  revert i; induction rows as [|row rows IH]; intros i; simpl.
  - by intros ?%elem_of_nil.
  - rewrite elem_of_app. intros [Hk|Hk].
    + destruct (row_accepted videoTitle row); [|by apply elem_of_nil in Hk].
      apply list_elem_of_singleton in Hk. lia.
    + apply IH in Hk. lia.
Qed.

Lemma accepted_rows_sorted videoTitle i rows :
  StronglySorted lt (accepted_rows videoTitle i rows).
Proof.
  revert i; induction rows as [|row rows IH]; intros i; simpl; [constructor|].
  destruct (row_accepted videoTitle row); simpl; [|apply IH].
  constructor; [apply IH|]. apply Forall_forall. intros k Hk.
  apply accepted_rows_bounds in Hk. lia.
Qed.

Lemma overlay_id_inj i j : overlay_id i = overlay_id j -> i = j.
Proof.
  intros H. apply (f_equal row_of_id) in H.
  rewrite !row_of_overlay_id in H. by injection H.
Qed.

Lemma process_rows_app Math_random videoTitle i rows1 rows2 st :
  process_rows Math_random videoTitle i (rows1 ++ rows2) st
  = st1 ← process_rows Math_random videoTitle i rows1 st;
    process_rows Math_random videoTitle (i + length rows1) rows2 st1.
Proof.
  revert i st; induction rows1 as [|row rows1 IH]; intros i st; simpl.
  - by rewrite Nat.add_0_r.
  - destruct (process_row _ _ i row st) as [st1|]; simpl; [|done].
    rewrite IH. by replace (S i + length rows1)%nat with (i + S (length rows1))%nat by lia.
Qed.

Section Provenance.
Variable Math_random : nat -> Q.
Variable videoTitle : value.

(** Whether a row is accepted does not depend on the random numbers. *)
Lemma parse_row_outcome i row calls :
  match parse_row Math_random videoTitle i row calls with
  | Returned (Some (o, _)) =>
      row_accepted videoTitle row = true /\ ov_content o = cell row 3
  | Returned None => row_accepted videoTitle row = false
  | Thrown => True
  end.
Proof.
  unfold parse_row, row_accepted.
  destruct (truthy (cell row 0)); [|done].
  destruct (strict_eq (cell row 0) videoTitle); [|done]. simpl.
  destruct (if truthy (cell row 4) then _ else _) as [type|]; [|done]. simpl.
  destruct (parseInt (cell row 1)) as [timestamp|]; [|done].
  destruct (timestamp =? 0); [done|].
  destruct (truthy (cell row 2)); [|done].
  destruct (truthy (cell row 3)); [|done]. simpl.
  destruct (parseNextAction _) as [a|]; [|done]. simpl.
  destruct (build_options _ _ _ _ _ _) as [[options calls1]|]; [|done]. simpl.
  by destruct (truthy (cell row 14)).
Qed.

Lemma initial_state_provenance first calls :
  rows_provenance videoTitle first [] (initial_state calls).
Proof.
  split; simpl; try done.
  intros key. rewrite lookup_empty. by case_bool_decide.
Qed.

Lemma last_snoc_filter (P : overlay -> bool) l o :
  last (ov_id <$> List.filter P (l ++ [o]))
  = if P o then Some (ov_id o) else last (ov_id <$> List.filter P l).
Proof.
  rewrite List.filter_app, fmap_app. simpl. destruct (P o); simpl.
  - by rewrite last_snoc.
  - by rewrite app_nil_r.
Qed.

Lemma process_row_provenance first done row st st' :
  process_row Math_random videoTitle (first + length done) row st = Returned st' ->
  rows_provenance videoTitle first done st ->
  rows_provenance videoTitle first (done ++ [row]) st'.
Proof.
  unfold process_row. intros H [P1 P2 P3 P4].
  assert (Hweak : forall l : list overlay,
    Forall (fun o => exists k row0, done !! k = Some row0
                /\ ov_id o = overlay_id (first + k)
                /\ row_accepted videoTitle row0 = true
                /\ parseInt (cell row0 1) = Some (ov_timestamp o)
                /\ ov_title o = cell row0 2 /\ ov_content o = cell row0 3) l ->
    Forall (fun o => exists k row0, (done ++ [row]) !! k = Some row0
                /\ ov_id o = overlay_id (first + k)
                /\ row_accepted videoTitle row0 = true
                /\ parseInt (cell row0 1) = Some (ov_timestamp o)
                /\ ov_title o = cell row0 2 /\ ov_content o = cell row0 3) l).
  { intros l Hl. eapply Forall_impl; [exact Hl|]. intros o (k & row0 & Hk & Hrest).
    exists k, row0. split; [|done]. by apply lookup_app_l_Some. }
  pose proof (parse_row_outcome (first + length done) row (st_calls st)) as Hout.
  destruct (parse_row _ _ _ row (st_calls st)) as [[[o calls']|]|] eqn:Hp;
    simpl in H; [| |done].
  2:{ injection H as <-. split; try done.
      - rewrite accepted_rows_app. simpl. by rewrite Hout, app_nil_r.
      - by apply Hweak. }
  destruct Hout as [Hacc Hcontent].
  apply parse_row_accepted in Hp.
  destruct Hp as (_ & _ & Hts & _ & _ & _ & Hid & Htitle & _).
  destruct (if truthy (ov_groupName o) then _ else _) as [groups'|] eqn:Hg;
    simpl in H; [|done].
  injection H as <-. split; simpl.
  - rewrite accepted_rows_app, !fmap_app, P1. simpl. by rewrite Hacc, Hid.
  - apply Forall_app. split; [by apply Hweak|]. repeat constructor.
    exists (length done), row. split; [by apply list_lookup_middle|]. done.
  - intros key. unfold set_property. rewrite last_snoc_filter.
    case_bool_decide as Hproto.
    + rewrite P3. case_bool_decide as Hk; [done|].
      replace (title_key o =? key)%string with false; [done|].
      symmetry. apply String.eqb_neq. unfold title_key. congruence.
    + rewrite lookup_insert. fold (title_key o).
      case_decide as Hk.
      * subst key. rewrite String.eqb_refl. by rewrite bool_decide_eq_false_2.
      * apply String.eqb_neq in Hk. rewrite Hk. apply P3.
  - intros name Hname. destruct (truthy (ov_groupName o)).
    + rewrite (add_to_group_lookup _ _ _ _ name Hg).
      case_bool_decide as Hn; [|by apply P4]. subst name.
      unfold add_to_group in Hg. rewrite (P4 _ Hname) in Hg.
      by rewrite bool_decide_eq_true_2 in Hg.
    + injection Hg as <-. by apply P4.
Qed.

Lemma process_rows_provenance rows first done st st' :
  process_rows Math_random videoTitle (first + length done) rows st = Returned st' ->
  rows_provenance videoTitle first done st ->
  rows_provenance videoTitle first (done ++ rows) st'.
Proof.
  revert done st; induction rows as [|row rows IH]; intros done st H Hinv; simpl in H.
  - injection H as <-. by rewrite app_nil_r.
  - destruct (process_row _ _ _ row st) as [st1|] eqn:H1; [|done]. simpl in H.
    replace (done ++ row :: rows) with ((done ++ [row]) ++ rows)
      by by rewrite <- app_assoc.
    apply (IH (done ++ [row]) st1).
    + rewrite length_app. simpl.
      by replace (first + (length done + 1))%nat with (S (first + length done)) by lia.
    + by eapply process_row_provenance.
Qed.

(** The result of a successful call, with both invariants of the loop. *)
Lemma getOverlaysForVideo_provenance overlaysData calls r :
  getOverlaysForVideo Math_random videoTitle (Some overlaysData) calls = Success r ->
  exists st,
    rows_invariant (1 + length (drop 1 overlaysData)) st
    /\ rows_provenance videoTitle 1 (drop 1 overlaysData) st
    /\ overlays r = link_rec (Array_sort by_timestamp (st_overlays st))
    /\ groups r = st_groups st
    /\ overlaysByTitle r = st_overlaysByTitle st.
Proof.
  unfold getOverlaysForVideo, build_overlays. intros H.
  destruct (process_rows _ _ 1 (drop 1 overlaysData) (initial_state calls))
    as [st|] eqn:Hrows; [|done].
  simpl in H. injection H as <-. exists st.
  split; [|split; [|split; [apply link_next_questions_rec|done]]].
  - eapply process_rows_invariant; [exact Hrows|]. apply initial_state_invariant.
  - apply (process_rows_provenance _ 1 [] _ _ Hrows), initial_state_provenance.
Qed.

End Provenance.

Lemma same_but_param_ids l l' :
  Forall2 same_but_param l l' -> ov_id <$> l' = ov_id <$> l.
Proof.
  induction 1 as [|o o' l l' [v ->] _ IH]; [done|].
  rewrite !fmap_cons. by rewrite IH.
Qed.

Lemma StronglySorted_lt_NoDup (l : list nat) : StronglySorted lt l -> NoDup l.
Proof.
  induction 1 as [|a l _ IH Ha]; constructor; [|done].
  intros Hin. rewrite Forall_forall in Ha. specialize (Ha _ Hin). lia.
Qed.

Lemma row_accepted_fields videoTitle row :
  row_accepted videoTitle row = true ->
  truthy (cell row 0) = true /\ cell row 0 = videoTitle
  /\ (exists t, parseInt (cell row 1) = Some t /\ t <> 0)
  /\ truthy (cell row 2) = true /\ truthy (cell row 3) = true.
Proof.
  unfold row_accepted. rewrite !andb_true_iff.
  intros [[[[H0 Hv] Ht] H2] H3]. apply bool_decide_eq_true in Hv.
  repeat split; try done.
  destruct (parseInt (cell row 1)) as [t|]; [|done].
  exists t. split; [done|]. by apply Z.eqb_neq, negb_true_iff.
Qed.

Lemma StronglySorted_last {A} (R : A -> A -> Prop) l x :
  StronglySorted R l -> last l = Some x ->
  forall y, y ∈ l -> y = x \/ R y x.
Proof.
  induction 1 as [|a l Hs IH Ha]; intros Hlast y Hy; [by apply elem_of_nil in Hy|].
  destruct l as [|b l].
  - simpl in Hlast. injection Hlast as <-. apply list_elem_of_singleton in Hy. by left.
  - change (last (a :: b :: l)) with (last (b :: l)) in Hlast.
    apply elem_of_cons in Hy as [->|Hy]; [|by apply IH].
    right. rewrite Forall_forall in Ha. apply Ha.
    apply last_Some in Hlast as [l' Hl']. rewrite Hl'. set_solver.
Qed.

Section GraphProperties.
Variable Math_random : nat -> Q.
Variable videoTitle : value.

(** X6: the result has one overlay for each accepted data row (a row of
    this video with a timestamp other than 0, a title and a content) and no
    other; its identifier is [overlay-] followed by the number of the row,
    so the identifiers are distinct. *)
Theorem overlays_are_the_accepted_rows overlaysData calls r :
  getOverlaysForVideo Math_random videoTitle (Some overlaysData) calls = Success r ->
  ov_id <$> overlays r
    ≡ₚ overlay_id <$> accepted_rows videoTitle 1 (drop 1 overlaysData)
  /\ NoDup (ov_id <$> overlays r).
Proof.
  intros (st & _ & [P1 _ _ _] & Hov & _)%getOverlaysForVideo_provenance.
  assert (Hids : ov_id <$> overlays r
            ≡ₚ overlay_id <$> accepted_rows videoTitle 1 (drop 1 overlaysData)).
  { rewrite Hov, (same_but_param_ids _ _ (link_rec_same _)).
    by rewrite (Array_sort_Permutation by_timestamp), P1. }
  split; [done|]. rewrite Hids.
  apply NoDup_fmap_2; [intros i j; apply overlay_id_inj|].
  apply StronglySorted_lt_NoDup, accepted_rows_sorted.
Qed.

Lemma result_overlay_origin (r : overlays_data) st o :
  overlays r = link_rec (Array_sort by_timestamp (st_overlays st)) ->
  o ∈ overlays r ->
  exists o0, o0 ∈ st_overlays st /\ same_but_param o0 o.
Proof.
  intros Hov Ho. pose proof (link_rec_same (Array_sort by_timestamp (st_overlays st)))
    as Hsame. rewrite <- Hov in Hsame.
  apply list_elem_of_lookup in Ho as [k Hk].
  destruct (Forall2_lookup_r _ _ _ _ _ Hsame Hk) as (o0 & Ho0 & Hoo).
  exists o0. split; [|done].
  rewrite <- (Array_sort_Permutation by_timestamp). by eapply list_elem_of_lookup_2.
Qed.

Lemma state_overlay_result (r : overlays_data) st o0 :
  overlays r = link_rec (Array_sort by_timestamp (st_overlays st)) ->
  o0 ∈ st_overlays st ->
  exists o, o ∈ overlays r /\ same_but_param o0 o.
Proof.
  intros Hov Ho0. pose proof (link_rec_same (Array_sort by_timestamp (st_overlays st)))
    as Hsame. rewrite <- Hov in Hsame.
  rewrite <- (Array_sort_Permutation by_timestamp) in Ho0.
  apply list_elem_of_lookup in Ho0 as [k Hk].
  destruct (Forall2_lookup_l _ _ _ _ _ Hsame Hk) as (o & Ho & Hoo).
  exists o. split; [by eapply list_elem_of_lookup_2|done].
Qed.

(** X7: every overlay of the result comes from a data row of the sheet, the
    row its identifier names: the row is of this video, its timestamp cell
    parses to the overlay's timestamp, which is not 0, and its title and
    content cells are the overlay's title and content, both non-empty. *)
Theorem overlay_fields_come_from_its_row overlaysData calls r o :
  getOverlaysForVideo Math_random videoTitle (Some overlaysData) calls = Success r ->
  o ∈ overlays r ->
  exists k row,
    (1 <= k)%nat /\ overlaysData !! k = Some row
    /\ ov_id o = overlay_id k
    /\ cell row 0 = videoTitle
    /\ parseInt (cell row 1) = Some (ov_timestamp o) /\ ov_timestamp o <> 0
    /\ ov_title o = cell row 2 /\ truthy (ov_title o) = true
    /\ ov_content o = cell row 3 /\ truthy (ov_content o) = true.
Proof.
  intros (st & _ & [_ P2 _ _] & Hov & _)%getOverlaysForVideo_provenance Ho.
  destruct (result_overlay_origin r st o Hov Ho) as (o0 & Ho0 & [v ->]).
  rewrite Forall_forall in P2.
  destruct (P2 _ Ho0) as (k & row & Hk & Hid & Hacc & Hts & Htitle & Hcontent).
  apply row_accepted_fields in Hacc as (_ & Hv & (t & Ht & Hnz) & H2 & H3).
  rewrite lookup_drop in Hk.
  exists (1 + k)%nat, row. simpl. rewrite Htitle, Hcontent.
  repeat split; try done; [lia|congruence].
Qed.

(** X8: [overlaysByTitle] maps a title to the overlay of the lowest row of
    the sheet with that title, whatever the timestamps: every overlay of the
    result with the same title comes from that row or from a row above it.
    Every title other than [__proto__] that an overlay of the result bears
    has an entry. *)
Theorem overlaysByTitle_keeps_the_last_row overlaysData calls r :
  getOverlaysForVideo Math_random videoTitle (Some overlaysData) calls = Success r ->
  (forall key id,
     overlaysByTitle r !! key = Some id ->
     (exists o, o ∈ overlays r /\ ov_id o = id /\ title_key o = key)
     /\ forall o', o' ∈ overlays r -> title_key o' = key ->
          ov_id o' = id \/ id_before (ov_id o') id)
  /\ (forall o, o ∈ overlays r -> title_key o <> "__proto__" ->
        is_Some (overlaysByTitle r !! title_key o)).
Proof.
  intros (st & [I1 _ _ _] & [_ _ P3 _] & Hov & _ & Hby)%getOverlaysForVideo_provenance.
  rewrite Hby. split.
  - intros key id Hid. rewrite P3 in Hid.
    case_bool_decide as Hproto; [done|].
    set (same := List.filter (fun o => String.eqb (title_key o) key) (st_overlays st))
      in *.
    assert (Hsorted : StronglySorted row_before same)
      by by apply StronglySorted_filter.
    rewrite fmap_last in Hid.
    destruct (last same) as [o0|] eqn:Hlast; [|done]. injection Hid as <-.
    assert (Hin : o0 ∈ same).
    { apply last_Some in Hlast as [l' ->]. set_solver. }
    split.
    + apply list_elem_of_In, filter_In in Hin as [Hin Hkey].
      apply list_elem_of_In in Hin. apply String.eqb_eq in Hkey.
      destruct (state_overlay_result r st o0 Hov Hin)
        as (o & Ho & [v ->]).
      by exists (set_actionParam o0 v).
    + intros o' Ho' Hkey.
      destruct (result_overlay_origin r st o' Hov Ho')
        as (o0' & Ho0' & [v ->]).
      assert (Hin' : o0' ∈ same).
      { apply list_elem_of_In, filter_In. split; [by apply list_elem_of_In|].
        by apply String.eqb_eq. }
      destruct (StronglySorted_last _ _ _ Hsorted Hlast _ Hin') as [->|Hb];
        [by left|by right].
  - intros o Ho Hproto.
    destruct (result_overlay_origin r st o Hov Ho)
      as (o0 & Ho0 & [v ->]).
    rewrite P3, bool_decide_eq_false_2 by done.
    rewrite fmap_last.
    assert (Hin : o0 ∈ List.filter (fun o => String.eqb (title_key o)
                          (title_key (set_actionParam o0 v))) (st_overlays st)).
    { apply list_elem_of_In, filter_In. split; [by apply list_elem_of_In|].
      apply String.eqb_refl. }
    destruct (List.filter _ (st_overlays st)) as [|a l] eqn:Hf using rev_ind;
      [by apply elem_of_nil in Hin|].
    rewrite last_snoc. by eexists.
Qed.

End GraphProperties.

(** ** The sorted list holds the accepted rows *)

Section SortedOverlays.
Variable Math_random : nat -> Q.
Variable videoTitle : value.

(** C4: the overlays of the result are the overlays of the accepted rows of
    the sheet, one for each and no other, in ascending order of timestamp,
    and overlays of one timestamp stand in the order of their rows in the
    sheet. *)
Theorem overlays_sorted_by_timestamp_stable overlaysData calls r :
  getOverlaysForVideo Math_random videoTitle (Some overlaysData) calls = Success r ->
  ov_id <$> overlays r
    ≡ₚ overlay_id <$> accepted_rows videoTitle 1 (drop 1 overlaysData)
  /\ StronglySorted (fun a b => ov_timestamp a <= ov_timestamp b) (overlays r)
  /\ StronglySorted timestamp_then_row (overlays r).
Proof.
  intros H. split; [|split].
  - apply getOverlaysForVideo_provenance in H as (st & _ & [P1 _ _ _] & Hov & _).
    rewrite Hov, (same_but_param_ids _ _ (link_rec_same _)).
    by rewrite (Array_sort_Permutation by_timestamp), P1.
  - apply overlays_timestamp_then_row in H.
    eapply StronglySorted_weaken; [|exact H]. apply timestamp_then_row_le.
  - by apply overlays_timestamp_then_row in H.
Qed.

End SortedOverlays.

Lemma overlays_sorted_by_timestamp_stable_witness :
  ov_id <$> overlays example_unsorted_result
    ≡ₚ overlay_id <$> accepted_rows (VStr "Lesson 1") 1 (drop 1 example_unsorted_sheet)
  /\ StronglySorted (fun a b => ov_timestamp a <= ov_timestamp b)
       (overlays example_unsorted_result)
  /\ StronglySorted timestamp_then_row (overlays example_unsorted_result).
Proof.
  apply (overlays_sorted_by_timestamp_stable example_random (VStr "Lesson 1")
           example_unsorted_sheet 0 example_unsorted_result).
  vm_compute. reflexivity.
Defined.

(** The four rows of the example are all accepted, and all four are in the
    result. *)
Example unsorted_rows_are_all_there :
  overlay_id <$> accepted_rows (VStr "Lesson 1") 1 (drop 1 example_unsorted_sheet)
    = ["overlay-1"; "overlay-2"; "overlay-3"; "overlay-4"]
  /\ length (overlays example_unsorted_result) = 4%nat.
Proof. split; vm_compute; reflexivity. Qed.

Section RowErrors.
Variable Math_random : nat -> Q.
Variable videoTitle : value.

Lemma process_rows_other_video rows i st :
  Forall (fun row => truthy (cell row 0) && strict_eq (cell row 0) videoTitle = false)
    rows ->
  process_rows Math_random videoTitle i rows st = Returned st.
Proof.
  intros H; revert i. induction H as [|row rows Hrow _ IH]; intros i; simpl; [done|].
  unfold process_row, parse_row. rewrite Hrow. simpl. apply IH.
Qed.

(** X9: when no data row is of this video the call succeeds with no
    overlays, no groups and no titles; what the rows of other videos hold
    is never looked at, so a malformed row of another video cannot make the
    call fail.  A sheet with only its header, or empty, is such a case. *)
Theorem rows_of_other_videos_are_ignored overlaysData calls :
  Forall (fun row => truthy (cell row 0) && strict_eq (cell row 0) videoTitle = false)
    (drop 1 overlaysData) ->
  getOverlaysForVideo Math_random videoTitle (Some overlaysData) calls
  = Success {| overlays := []; groups := ∅; overlaysByTitle := ∅ |}.
Proof.
  intros H. unfold getOverlaysForVideo, build_overlays.
  by rewrite process_rows_other_video.
Qed.

Lemma process_rows_raises rows i j row st :
  rows !! j = Some row ->
  (forall st1, process_row Math_random videoTitle (i + j) row st1 = Thrown) ->
  process_rows Math_random videoTitle i rows st = Thrown.
Proof.
  revert i j st; induction rows as [|row0 rows IH]; intros i j st Hj Hrow; [done|].
  simpl. destruct j as [|j]; simpl in Hj.
  - injection Hj as ->. rewrite Nat.add_0_r in Hrow. by rewrite Hrow.
  - destruct (process_row _ _ i row0 st) as [st1|]; [|done]. simpl.
    apply (IH (S i) j st1 Hj). intros st2.
    replace (S i + j)%nat with (i + S j)%nat by lia. apply Hrow.
Qed.

Lemma getOverlaysForVideo_raises overlaysData calls k row :
  (1 <= k)%nat -> overlaysData !! k = Some row ->
  (forall st, process_row Math_random videoTitle k row st = Thrown) ->
  getOverlaysForVideo Math_random videoTitle (Some overlaysData) calls
  = Error "Error getting overlays: ".
Proof.
  intros Hk Hrow Hthrown. unfold getOverlaysForVideo, build_overlays.
  rewrite (process_rows_raises _ 1 (k - 1) row).
  - done.
  - rewrite lookup_drop. by replace (1 + (k - 1))%nat with k by lia.
  - intros st. replace (1 + (k - 1))%nat with k by lia. apply Hthrown.
Qed.

(** X10: a data row of this video whose interaction-type cell holds a
    number other than 0 or the boolean true makes the whole call return its
    error object, even when the row lacks a timestamp, title or content and
    would otherwise be skipped: the type is put in lower case before the
    mandatory fields are checked. *)
Theorem non_string_type_fails_the_call overlaysData calls k row :
  (1 <= k)%nat -> overlaysData !! k = Some row ->
  truthy (cell row 0) = true -> cell row 0 = videoTitle ->
  truthy (cell row 4) = true -> (forall s, cell row 4 <> VStr s) ->
  getOverlaysForVideo Math_random videoTitle (Some overlaysData) calls
  = Error "Error getting overlays: ".
Proof.
  intros Hk Hrow H0 Hv H4 Hs. apply (getOverlaysForVideo_raises _ _ k row); try done.
  intros st. unfold process_row, parse_row.
  rewrite H0, H4. unfold strict_eq. rewrite bool_decide_eq_true_2 by done. simpl.
  destruct (cell row 4) as [| | | |s]; try done. by destruct (Hs s).
Qed.

End RowErrors.

Lemma rows_of_other_videos_are_ignored_witness :
  getOverlaysForVideo example_random (VStr "Lesson 1")
    (Some example_other_video_sheet) 0
  = Success {| overlays := []; groups := ∅; overlaysByTitle := ∅ |}.
Proof.
  apply (rows_of_other_videos_are_ignored example_random (VStr "Lesson 1")
           example_other_video_sheet 0).
  repeat constructor.
Defined.

Lemma non_string_type_fails_the_call_witness :
  getOverlaysForVideo example_random (VStr "Lesson 1")
    (Some example_bad_type_sheet) 0
  = Error "Error getting overlays: ".
Proof.
  apply (non_string_type_fails_the_call example_random (VStr "Lesson 1")
           example_bad_type_sheet 0 2
           [VStr "Lesson 1"; VNum 10; VStr ""; VStr "Body"; VNum 3]).
  - lia.
  - reflexivity.
  - reflexivity.
  - reflexivity.
  - reflexivity.
  - intros s. discriminate.
Defined.

Lemma overlays_are_the_accepted_rows_witness :
  ov_id <$> overlays example_unsorted_result
    ≡ₚ overlay_id <$> accepted_rows (VStr "Lesson 1") 1 (drop 1 example_unsorted_sheet)
  /\ NoDup (ov_id <$> overlays example_unsorted_result).
Proof.
  apply (overlays_are_the_accepted_rows example_random (VStr "Lesson 1")
           example_unsorted_sheet 0 example_unsorted_result).
  vm_compute. reflexivity.
Defined.

Lemma overlay_fields_come_from_its_row_witness :
  exists k row,
    (1 <= k)%nat /\ example_unsorted_sheet !! k = Some row
    /\ ov_id example_first_overlay = overlay_id k
    /\ cell row 0 = VStr "Lesson 1"
    /\ parseInt (cell row 1) = Some (ov_timestamp example_first_overlay)
    /\ ov_timestamp example_first_overlay <> 0
    /\ ov_title example_first_overlay = cell row 2
    /\ truthy (ov_title example_first_overlay) = true
    /\ ov_content example_first_overlay = cell row 3
    /\ truthy (ov_content example_first_overlay) = true.
Proof.
  apply (overlay_fields_come_from_its_row example_random (VStr "Lesson 1")
           example_unsorted_sheet 0 example_unsorted_result example_first_overlay).
  - vm_compute. reflexivity.
  - apply (list_elem_of_lookup_2 _ 0%nat). vm_compute. reflexivity.
Defined.

Lemma overlaysByTitle_keeps_the_last_row_witness :
  (forall key id,
     overlaysByTitle example_titles_result !! key = Some id ->
     (exists o, o ∈ overlays example_titles_result /\ ov_id o = id /\ title_key o = key)
     /\ forall o', o' ∈ overlays example_titles_result -> title_key o' = key ->
          ov_id o' = id \/ id_before (ov_id o') id)
  /\ (forall o, o ∈ overlays example_titles_result -> title_key o <> "__proto__" ->
        is_Some (overlaysByTitle example_titles_result !! title_key o)).
Proof.
  apply (overlaysByTitle_keeps_the_last_row example_random (VStr "Lesson 1")
           example_titles_sheet 0 example_titles_result).
  vm_compute. reflexivity.
Defined.

(** The title [Recap] of the rows 1 and 2 leads to the overlay of row 2,
    whose timestamp, 5, is the earlier one. *)
Example example_titles_last_row :
  overlaysByTitle example_titles_result !! "Recap" = Some "overlay-2"
  /\ ov_timestamp <$> overlays example_titles_result = [5; 30].
Proof. split; vm_compute; reflexivity. Qed.

Section GroupError.
Variable Math_random : nat -> Q.
Variable videoTitle : value.

Lemma process_row_inherited_group i row st :
  row_accepted videoTitle row = true ->
  truthy (cell row 10) = true ->
  ToString (cell row 10) ∈ Object_prototype_keys ->
  st_groups st !! ToString (cell row 10) = None ->
  process_row Math_random videoTitle i row st = Thrown.
Proof.
  intros Hacc H10 Hname Hnone. unfold process_row.
  pose proof (parse_row_outcome Math_random videoTitle i row (st_calls st)) as Hout.
  destruct (parse_row _ _ i row (st_calls st)) as [[[o calls']|]|] eqn:Hp;
    simpl; [|congruence|done].
  apply parse_row_accepted in Hp.
  destruct Hp as (_ & _ & _ & _ & _ & _ & _ & _ & _ & _ & _ & _ & Hgroup & _).
  assert (Hg : ov_groupName o = cell row 10).
  { rewrite Hgroup. unfold or_else. by rewrite H10. }
  rewrite Hg, H10. unfold add_to_group. rewrite Hnone.
  by rewrite bool_decide_eq_true_2.
Qed.

(** X11: an accepted row whose group name is the name of a member that
    every object inherits ([constructor], [toString], [valueOf],
    [hasOwnProperty], [__proto__], ...) makes the whole call return its
    error object: the lookup in the group index finds the inherited member
    instead of a list of identifiers. *)
Theorem inherited_group_name_fails_the_call overlaysData calls k row :
  (1 <= k)%nat -> overlaysData !! k = Some row ->
  row_accepted videoTitle row = true ->
  truthy (cell row 10) = true ->
  ToString (cell row 10) ∈ Object_prototype_keys ->
  getOverlaysForVideo Math_random videoTitle (Some overlaysData) calls
  = Error "Error getting overlays: ".
Proof.
  intros Hk Hrow Hacc H10 Hname. unfold getOverlaysForVideo, build_overlays.
  assert (Hk' : drop 1 overlaysData !! (k - 1)%nat = Some row).
  { rewrite lookup_drop. by replace (1 + (k - 1))%nat with k by lia. }
  rewrite <- (take_drop_middle _ _ _ Hk'), process_rows_app.
  destruct (process_rows _ _ 1 (take (k - 1) (drop 1 overlaysData)) (initial_state calls))
    as [st|] eqn:Hrows; [|done].
  apply (process_rows_provenance _ _ _ 1 []) in Hrows as [_ _ _ P4];
    [|apply initial_state_provenance].
  simpl. rewrite process_row_inherited_group; try done. by apply P4.
Qed.

End GroupError.

Lemma inherited_group_name_fails_the_call_witness :
  getOverlaysForVideo example_random (VStr "Lesson 1")
    (Some example_bad_group_sheet) 0
  = Error "Error getting overlays: ".
Proof.
  apply (inherited_group_name_fails_the_call example_random (VStr "Lesson 1")
           example_bad_group_sheet 0 2
           (example_row 10 "B" "info" "" "" "" "constructor")).
  - lia.
  - reflexivity.
  - reflexivity.
  - reflexivity.
  - change ("constructor" ∈ Object_prototype_keys). unfold Object_prototype_keys.
    constructor.
Defined.

(** ** Further properties of the settings *)

Lemma read_setting_decode settings row :
  read_setting settings row
  = set_property (ToString (cell row 0)) (decode_setting (cell row 1)) settings.
Proof.
  unfold read_setting, decode_setting.
  destruct (strict_eq (cell row 1) (VStr "TRUE")) eqn:HT; simpl; [done|].
  by destruct (strict_eq (cell row 1) (VStr "FALSE")).
Qed.

Lemma decode_setting_not_TRUE_FALSE v :
  decode_setting v <> VStr "TRUE" /\ decode_setting v <> VStr "FALSE".
Proof.
  unfold decode_setting, strict_eq.
  repeat case_bool_decide; split; congruence.
Qed.

(** X12: the settings read from a sheet give, for every name, the value
    cell of the last row below the header that bears this name, with the
    strings TRUE and FALSE turned into booleans: the header is skipped, a
    later row overrides an earlier one, a name that no row bears (and the
    name [__proto__]) is absent. *)
Theorem getAppSettings_reads_the_last_row settingsData key :
  getAppSettings (Some settingsData) !! key =
    if bool_decide (key = "__proto__") then None
    else (fun row => decode_setting (cell row 1))
           <$> last (rows_of_setting key (drop 1 settingsData)).
Proof.
  unfold getAppSettings.
  induction (drop 1 settingsData) as [|row rows IH] using rev_ind.
  - simpl. rewrite lookup_empty. by case_bool_decide.
  - rewrite foldl_app. simpl. rewrite read_setting_decode.
    unfold rows_of_setting in *. rewrite List.filter_app. simpl.
    unfold set_property. case_bool_decide as Hkey.
    + case_bool_decide as Hproto; [done|].
      rewrite lookup_insert_ne by congruence. done.
    + case_bool_decide as Hproto.
      * replace (ToString (cell row 0) =? key)%string with false.
        -- by rewrite app_nil_r.
        -- symmetry. apply String.eqb_neq. congruence.
      * rewrite lookup_insert. case_decide as Hk.
        -- subst key. by rewrite String.eqb_refl, last_snoc.
        -- apply String.eqb_neq in Hk. by rewrite Hk, app_nil_r.
Qed.

(** X13: no setting is ever returned as the string TRUE or the string
    FALSE, with or without a Settings sheet. *)
Theorem getAppSettings_never_returns_TRUE_FALSE settingsSheet key v :
  getAppSettings settingsSheet !! key = Some v ->
  v <> VStr "TRUE" /\ v <> VStr "FALSE".
Proof.
  destruct settingsSheet as [settingsData|]; simpl.
  - assert (Hinv : forall rows acc,
      (forall k w, acc !! k = Some w -> w <> VStr "TRUE" /\ w <> VStr "FALSE") ->
      forall k w, foldl read_setting acc rows !! k = Some w ->
                  w <> VStr "TRUE" /\ w <> VStr "FALSE").
    { induction rows as [|row rows IH]; intros acc Hacc; simpl; [done|].
      apply IH. intros k w. rewrite read_setting_decode. unfold set_property.
      case_bool_decide; [apply Hacc|].
      rewrite lookup_insert. case_decide; [|apply Hacc].
      intros [= <-]. apply decode_setting_not_TRUE_FALSE. }
    apply Hinv. intros k w. by rewrite lookup_empty.
  - unfold getDefaultSettings. intros H.
    apply elem_of_list_to_map_2 in H.
    rewrite !elem_of_cons, elem_of_nil in H.
    destruct H as [[= _ ->]|[[= _ ->]|[[= _ ->]|[[= _ ->]|[[= _ ->]|[[= _ ->]|
      [[= _ ->]|[[= _ ->]|[]]]]]]]]]; by split.
Qed.

Lemma getAppSettings_never_returns_TRUE_FALSE_witness :
  VBool false <> VStr "TRUE" /\ VBool false <> VStr "FALSE".
Proof.
  apply (getAppSettings_never_returns_TRUE_FALSE (Some example_settings_sheet)
           "AllowSkipping" (VBool false)).
  vm_compute. reflexivity.
Defined.

Lemma append_settings_all settings sheet :
  Forall (fun p => p.2 <> VNull /\ p.2 <> VUndefined) settings ->
  append_settings settings sheet = (sheet ++ (setting_row <$> settings), Returned tt).
Proof.
  intros H; revert sheet. induction H as [|[k v] settings [Hn Hu] _ IH]; intros sheet.
  - simpl. by rewrite app_nil_r.
  - simpl in Hn, Hu. rewrite fmap_cons.
    destruct v; [by destruct Hu|by destruct Hn|..];
      cbn [append_settings toString]; rewrite IH, <- app_assoc; done.
Qed.

Lemma foldl_read_written settings acc :
  "__proto__" ∉ settings.*1 ->
  foldl read_setting acc (setting_row <$> settings)
  = list_to_map (written_setting <$> rev settings) ∪ acc.
Proof.
  revert acc; induction settings as [|[k v] settings IH]; intros acc Hp.
  - simpl. by rewrite (left_id_L ∅ (∪)).
  - simpl in Hp. apply not_elem_of_cons in Hp as [Hk Hp].
    rewrite fmap_cons. simpl foldl. rewrite IH by done.
    rewrite read_setting_decode. unfold set_property, setting_row. simpl.
    rewrite bool_decide_eq_false_2 by done.
    rewrite fmap_app, list_to_map_app. simpl.
    rewrite <- (assoc_L (∪)). f_equal.
    rewrite insert_empty. by rewrite <- insert_union_singleton_l.
Qed.

Lemma written_setting_names (settings : list (string * value)) :
  (written_setting <$> settings).*1 = settings.*1.
Proof. rewrite <- list_fmap_compose. by apply list_fmap_ext. Qed.

(** X14: writing a settings object (distinct names, none of them
    [__proto__], no null or undefined value) and reading the settings back
    succeeds and gives each name the string form of the value it was given,
    with the strings TRUE and FALSE turned into booleans; what the sheet
    held before is gone.  So a string other than TRUE and FALSE comes back
    unchanged, and a number comes back as a string. *)
Theorem settings_written_then_read settings settingsSheet :
  NoDup settings.*1 ->
  "__proto__" ∉ settings.*1 ->
  Forall (fun p => p.2 <> VNull /\ p.2 <> VUndefined) settings ->
  settingsSheet <> Some [] ->
  (updateAppSettings settings settingsSheet).2 = Success "Settings updated successfully"
  /\ getAppSettings (updateAppSettings settings settingsSheet).1
     = list_to_map (written_setting <$> settings).
Proof.
  intros Hnd Hproto Hvals Hsheet. unfold updateAppSettings.
  set (sheet0 := match settingsSheet with
                 | Some rows => rows
                 | None => [[VStr "Setting"; VStr "Value"; VStr "Description"]]
                 end).
  assert (Hhead : exists header,
    (if (1 <? length sheet0)%nat then take 1 sheet0 else sheet0) = [header]).
  { unfold sheet0. destruct settingsSheet as [[|header [|row rows]]|]; try done;
      by eexists. }
  destruct Hhead as [header ->].
  rewrite append_settings_all by done. cbv beta iota. cbn [fst snd].
  split; [done|]. unfold getAppSettings.
  change (drop 1 ([header] ++ (setting_row <$> settings)))
    with (setting_row <$> settings).
  rewrite foldl_read_written by done. rewrite (right_id_L ∅ (∪)).
  apply list_to_map_proper.
  - rewrite written_setting_names. by rewrite <- Permutation_rev.
  - by rewrite <- Permutation_rev.
Qed.

Lemma settings_written_then_read_witness :
  (updateAppSettings example_settings (Some example_settings_sheet)).2
    = Success "Settings updated successfully"
  /\ getAppSettings (updateAppSettings example_settings (Some example_settings_sheet)).1
     = list_to_map (written_setting <$> example_settings).
Proof.
  apply (settings_written_then_read example_settings (Some example_settings_sheet)).
  - compute_done.
  - compute_done.
  - unfold example_settings. repeat constructor; discriminate.
  - discriminate.
Defined.

(** The settings of the example as they are read back: the old colour and
    the old setting are gone, the number and the boolean are strings. *)
Example example_settings_read_back :
  getAppSettings (updateAppSettings example_settings (Some example_settings_sheet)).1
  = {[ "PrimaryColor" := VStr "#ff0000"; "MaxAttempts" := VStr "3";
       "AllowNotes" := VStr "false" ]}.
Proof. apply map_eq. intros k. vm_compute. reflexivity. Qed.

(** X15: when a value of the settings object is null or undefined the
    update fails half way: the result is the error object, the rows the
    sheet held below its header are deleted, the settings enumerated before
    the bad one are written and the ones after it are not. *)
Theorem updateAppSettings_fails_half_way before name v after header rows :
  Forall (fun p => p.2 <> VNull /\ p.2 <> VUndefined) before ->
  v = VNull \/ v = VUndefined ->
  updateAppSettings (before ++ (name, v) :: after) (Some (header :: rows))
  = (Some (header :: (setting_row <$> before)), Error "Failed to update settings: ").
Proof.
  intros Hbefore Hv. unfold updateAppSettings.
  replace (if (1 <? length (header :: rows))%nat then take 1 (header :: rows)
           else header :: rows) with [header] by (by destruct rows).
  assert (Happ : forall sheet,
    append_settings (before ++ (name, v) :: after) sheet
    = (sheet ++ (setting_row <$> before), Thrown)).
  { induction Hbefore as [|[k w] before [Hn Hu] _ IH]; intros sheet.
    - simpl. rewrite app_nil_r. by destruct Hv as [->| ->].
    - simpl in Hn, Hu. rewrite fmap_cons.
      destruct w; [by destruct Hu|by destruct Hn|..];
        cbn [app append_settings toString]; rewrite IH, <- app_assoc; done. }
  by rewrite Happ.
Qed.

Lemma updateAppSettings_fails_half_way_witness :
  updateAppSettings ([("PrimaryColor", VStr "#ff0000")] ++ ("MaxAttempts", VNull)
                       :: [("AllowNotes", VBool false)])
    (Some ([VStr "Setting"; VStr "Value"; VStr "Description"]
             :: [[VStr "AllowSkipping"; VStr "FALSE"]]))
  = (Some ([VStr "Setting"; VStr "Value"; VStr "Description"]
             :: (setting_row <$> [("PrimaryColor", VStr "#ff0000")])),
     Error "Failed to update settings: ").
Proof.
  apply (updateAppSettings_fails_half_way [("PrimaryColor", VStr "#ff0000")]
           "MaxAttempts" VNull [("AllowNotes", VBool false)]).
  - repeat constructor; discriminate.
  - by left.
Defined.

(** ** Boolean settings through the sheet *)

Lemma updateAppSettings_entered_as_written settings settingsSheet :
  updateAppSettings_entered (fun v => v) settings settingsSheet
  = updateAppSettings settings settingsSheet.
Proof.
  unfold updateAppSettings_entered, updateAppSettings.
  assert (H : forall sheet,
    append_settings_entered (fun v => v) settings sheet
    = append_settings settings sheet); [|by rewrite H].
  induction settings as [|[k v] settings IH]; intros sheet; [done|].
  cbn [append_settings_entered append_settings]. by destruct (toString v).
Qed.

Section SettingsOnASheet.

(** What a cell holds once [appendRow] has given it a value. *)
Variable entered : value -> value.

(** The sheet takes the texts [true] and [false] for the booleans. *)
Hypothesis entered_true : entered (VStr "true") = VBool true.
Hypothesis entered_false : entered (VStr "false") = VBool false.




End SettingsOnASheet.


(** [updateAppSettings({Foo: true})] and then [getAppSettings()] on such a
    sheet: [{Foo: true}], with or without a Settings sheet before. *)
Example Foo_true_comes_back_true :
  getAppSettings (updateAppSettings_entered example_entered [("Foo", VBool true)] None).1
    = {[ "Foo" := VBool true ]}
  /\ getAppSettings
       (updateAppSettings_entered example_entered [("Foo", VBool true)]
          (Some example_settings_sheet)).1
     = {[ "Foo" := VBool true ]}.
Proof. split; apply map_eq; intros k; vm_compute; reflexivity. Qed.

(** What the boolean depends on: a store that keeps the text that
    [toString] made hands the setting back as the string [true], which
    [getAppSettings] does not take for a boolean. *)
Remark Foo_true_kept_as_text_comes_back_as_text :
  getAppSettings (updateAppSettings [("Foo", VBool true)] None).1
  = {[ "Foo" := VStr "true" ]}.
Proof. apply map_eq. intros k. vm_compute. reflexivity. Qed.

(** ** Rounding to the nearest double *)

Lemma two_nonzero : ~ (2 == 0)%Q.
Proof. discriminate. Qed.

Lemma Qpower_two_pos (e : Z) : (0 < 2 ^ e)%Q.
Proof. by apply Qpower_0_lt. Qed.

Lemma Qpower_two_succ (e : Z) : (2 ^ (e + 1) == 2 ^ e * 2)%Q.
Proof. rewrite Qpower_plus by apply two_nonzero. reflexivity. Qed.

Lemma Qpower_two_le (n m : Z) : n <= m -> (2 ^ n <= 2 ^ m)%Q.
Proof. intros H. by apply Qpower_le_compat_l. Qed.

Lemma Qpower_two_lt_inv (n m : Z) : (2 ^ n < 2 ^ m)%Q -> n < m.
Proof. intros H. by apply (Qpower_lt_compat_l_inv 2). Qed.

Lemma Qpower_two_inject (n : Z) : 0 <= n -> (inject_Z (2 ^ n) == 2 ^ n)%Q.
Proof. intros H. by rewrite Zpower_Qpower. Qed.

Lemma floor_log2_spec (x : Q) :
  (0 < x)%Q -> (2 ^ floor_log2 x <= x)%Q /\ (x < 2 ^ (floor_log2 x + 1))%Q.
Proof.
  intros Hx. destruct x as [n d]. unfold floor_log2. cbn [Qnum Qden].
  assert (Hn : 0 < n) by (unfold Qlt in Hx; cbn in Hx; lia).
  set (a := Z.log2 n). set (b := Z.log2 (Z.pos d)).
  destruct (Z.log2_spec n Hn) as [Ha1 Ha2]. fold a in Ha1, Ha2.
  destruct (Z.log2_spec (Z.pos d) eq_refl) as [Hb1 Hb2]. fold b in Hb1, Hb2.
  assert (Ha0 : 0 <= a) by apply Z.log2_nonneg.
  assert (Hb0 : 0 <= b) by apply Z.log2_nonneg.
  assert (Hx_eq : (n # d == inject_Z n / inject_Z (Z.pos d))%Q) by apply Qmake_Qdiv.
  assert (Hd : (0 < inject_Z (Z.pos d))%Q) by done.
  assert (Hlow : (2 ^ (a - b - 1) < n # d)%Q).
  { rewrite Hx_eq. apply Qlt_shift_div_l; [done|].
    apply Qlt_le_trans with (2 ^ (a - b - 1) * 2 ^ (b + 1))%Q.
    - apply Qmult_lt_l; [apply Qpower_two_pos|].
      rewrite <- Qpower_two_inject by lia. by rewrite <- Zlt_Qlt.
    - rewrite <- Qpower_plus by apply two_nonzero.
      replace (a - b - 1 + (b + 1)) with a by lia.
      rewrite <- Qpower_two_inject by lia. by rewrite <- Zle_Qle. }
  assert (Hhigh : (n # d < 2 ^ (a - b + 1))%Q).
  { rewrite Hx_eq. apply Qlt_shift_div_r; [done|].
    apply Qlt_le_trans with (2 ^ (a + 1))%Q.
    - rewrite <- Qpower_two_inject by lia. by rewrite <- Zlt_Qlt.
    - replace (a + 1) with (a - b + 1 + b) by lia.
      rewrite Qpower_plus by apply two_nonzero.
      apply Qmult_le_l; [apply Qpower_two_pos|].
      rewrite <- Qpower_two_inject by lia. by rewrite <- Zle_Qle. }
  destruct (Qle_bool (2 ^ (a - b)) (n # d)) eqn:Hk.
  - apply Qle_bool_iff in Hk. by split.
  - split.
    + by apply Qlt_le_weak.
    + replace (a - b - 1 + 1) with (a - b) by lia.
      apply Qnot_le_lt. intros Hle. apply Qle_bool_iff in Hle. congruence.
Qed.

Lemma floor_log2_mono (x y : Q) :
  (0 < x)%Q -> (x <= y)%Q -> floor_log2 x <= floor_log2 y.
Proof.
  intros Hx Hxy.
  destruct (floor_log2_spec x Hx) as [Hx1 _].
  destruct (floor_log2_spec y) as [_ Hy2]; [by eapply Qlt_le_trans|].
  assert (H : floor_log2 x < floor_log2 y + 1); [|lia].
  apply Qpower_two_lt_inv. eapply Qle_lt_trans; [exact Hx1|].
  by eapply Qle_lt_trans.
Qed.

Lemma Qfloor_lower (z : Z) (y : Q) : (inject_Z z <= y)%Q -> z <= Qfloor y.
Proof.
  intros H. assert (Hlt : (inject_Z z < inject_Z (Qfloor y + 1))%Q).
  { eapply Qle_lt_trans; [exact H|apply Qlt_floor]. }
  rewrite <- Zlt_Qlt in Hlt. lia.
Qed.

Lemma Qfloor_upper (z : Z) (y : Q) : (y < inject_Z z)%Q -> Qfloor y < z.
Proof.
  intros H. rewrite Zlt_Qlt. eapply Qle_lt_trans; [apply Qfloor_le|exact H].
Qed.

Lemma round_half_even_bounds (x : Q) :
  Qfloor x <= round_half_even x <= Qfloor x + 1.
Proof.
  unfold round_half_even. destruct (Qcompare _ _); [destruct (Z.even _)|..]; lia.
Qed.

Lemma round_half_even_mono (x y : Q) :
  (x <= y)%Q -> round_half_even x <= round_half_even y.
Proof.
  intros Hxy. pose proof (Qfloor_resp_le x y Hxy) as Hf.
  destruct (Z.eq_dec (Qfloor x) (Qfloor y)) as [Heq|Hne].
  - unfold round_half_even. rewrite <- Heq.
    assert (Hr : (x - inject_Z (Qfloor x) <= y - inject_Z (Qfloor x))%Q).
    { apply Qplus_le_l. done. }
    destruct (Qcompare_spec (x - inject_Z (Qfloor x)) (1 # 2)) as [Hx|Hx|Hx];
      destruct (Qcompare_spec (y - inject_Z (Qfloor x)) (1 # 2)) as [Hy|Hy|Hy];
      try (destruct (Z.even (Qfloor x))); try lia; exfalso; lra.
  - pose proof (round_half_even_bounds x). pose proof (round_half_even_bounds y). lia.
Qed.

(** The rounding of a positive number lies in its binade. *)
Lemma round_positive_bounds (x : Q) :
  (0 < x)%Q ->
  (2 ^ floor_log2 x <= round_positive x)%Q
  /\ (round_positive x <= 2 ^ (floor_log2 x + 1))%Q.
Proof.
  intros Hx. destruct (floor_log2_spec x Hx) as [H1 H2].
  unfold round_positive. set (l := floor_log2 x) in *. set (e := l - 52).
  pose proof (Qpower_two_pos e) as He.
  assert (Hs1 : (inject_Z (2 ^ 52) <= x / 2 ^ e)%Q).
  { apply Qle_shift_div_l; [done|]. rewrite Qpower_two_inject by lia.
    rewrite <- Qpower_plus by apply two_nonzero.
    by replace (52 + e) with l by (unfold e; lia). }
  assert (Hs2 : (x / 2 ^ e < inject_Z (2 ^ 53))%Q).
  { apply Qlt_shift_div_r; [done|]. rewrite Qpower_two_inject by lia.
    rewrite <- Qpower_plus by apply two_nonzero.
    by replace (53 + e) with (l + 1) by (unfold e; lia). }
  pose proof (round_half_even_bounds (x / 2 ^ e)) as [Hm1 Hm2].
  apply Qfloor_lower in Hs1. apply Qfloor_upper in Hs2.
  split.
  - replace l with (52 + e) at 1 by (unfold e; lia).
    rewrite Qpower_plus by apply two_nonzero.
    apply Qmult_le_compat_r; [|by apply Qlt_le_weak].
    rewrite <- (Qpower_two_inject 52) by lia. rewrite <- Zle_Qle. lia.
  - replace (l + 1) with (53 + e) by (unfold e; lia).
    rewrite Qpower_plus by apply two_nonzero.
    apply Qmult_le_compat_r; [|by apply Qlt_le_weak].
    rewrite <- (Qpower_two_inject 53) by lia. rewrite <- Zle_Qle. lia.
Qed.

Lemma round_positive_mono (x y : Q) :
  (0 < x)%Q -> (x <= y)%Q -> (round_positive x <= round_positive y)%Q.
Proof.
  intros Hx Hxy. assert (Hy : (0 < y)%Q) by (by eapply Qlt_le_trans).
  pose proof (floor_log2_mono x y Hx Hxy) as Hl.
  destruct (Z.eq_dec (floor_log2 x) (floor_log2 y)) as [Heq|Hne].
  - unfold round_positive. rewrite <- Heq. set (e := floor_log2 x - 52).
    pose proof (Qpower_two_pos e) as He.
    apply Qmult_le_compat_r; [|by apply Qlt_le_weak].
    rewrite <- Zle_Qle. apply round_half_even_mono.
    apply Qmult_le_compat_r; [done|]. apply Qlt_le_weak. by apply Qinv_lt_0_compat.
  - destruct (round_positive_bounds x Hx) as [_ Hx2].
    destruct (round_positive_bounds y Hy) as [Hy1 _].
    eapply Qle_trans; [exact Hx2|]. eapply Qle_trans; [|exact Hy1].
    apply Qpower_two_le. lia.
Qed.

Lemma Qnum_pos (x : Q) : (0 < x)%Q <-> 0 < Qnum x.
Proof. destruct x as [n d]. unfold Qlt. cbn. lia. Qed.

Lemma round_double_positive (x : Q) :
  (0 < x)%Q -> (round_double x == round_positive x)%Q.
Proof.
  intros Hx. apply Qnum_pos in Hx. unfold round_double.
  destruct (Qnum x); try lia. apply Qred_correct.
Qed.

Lemma round_double_zero (x : Q) : (x == 0)%Q -> round_double x = 0%Q.
Proof.
  intros Hx. unfold round_double. destruct x as [n d]. unfold Qeq in Hx. cbn in *.
  by replace n with 0 by lia.
Qed.

Lemma round_double_nonneg (x : Q) : (0 <= x)%Q -> (0 <= round_double x)%Q.
Proof.
  intros Hx. destruct (Qlt_le_dec 0 x) as [Hpos|Hle].
  - rewrite (round_double_positive x Hpos).
    destruct (round_positive_bounds x Hpos) as [H _].
    eapply Qle_trans; [|exact H]. apply Qlt_le_weak, Qpower_two_pos.
  - rewrite round_double_zero; [done|]. by apply Qle_antisym.
Qed.

(** Rounding is monotone on the numbers from 0 on. *)
Lemma round_double_mono (x y : Q) :
  (0 <= x)%Q -> (x <= y)%Q -> (round_double x <= round_double y)%Q.
Proof.
  intros Hx Hxy. destruct (Qlt_le_dec 0 x) as [Hpos|Hle].
  - rewrite (round_double_positive x Hpos), (round_double_positive y).
    + by apply round_positive_mono.
    + by eapply Qlt_le_trans.
  - rewrite (round_double_zero x) by (by apply Qle_antisym).
    apply round_double_nonneg. by eapply Qle_trans.
Qed.

Lemma percentage_of_counts (c t : nat) :
  (0 < t)%nat -> percentage c t = Finite (rounded_percentage c t).
Proof.
  intros Ht. unfold percentage, Number_of_nat, Number_div, Number_mul.
  replace (Qeq_bool (inject_Z (Z.of_nat t)) 0) with false; [done|].
  symmetry. apply not_true_is_false. intros H%Qeq_bool_iff.
  unfold Qeq in H. cbn in H. lia.
Qed.

(** The percentage of a part in a whole is between 0 and 100, also after
    the two roundings. *)
Lemma rounded_percentage_bounds (c t : nat) :
  (c <= t)%nat -> (0 < t)%nat ->
  (0 <= rounded_percentage c t)%Q /\ (rounded_percentage c t <= 100)%Q.
Proof.
  intros Hc Ht. unfold rounded_percentage.
  assert (Htq : (0 < inject_Z (Z.of_nat t))%Q).
  { change 0%Q with (inject_Z 0). rewrite <- Zlt_Qlt. lia. }
  assert (H0 : (0 <= inject_Z (Z.of_nat c) / inject_Z (Z.of_nat t))%Q).
  { apply Qle_shift_div_l; [done|]. rewrite Qmult_0_l.
    change 0%Q with (inject_Z 0). rewrite <- Zle_Qle. lia. }
  assert (H1 : (inject_Z (Z.of_nat c) / inject_Z (Z.of_nat t) <= 1)%Q).
  { apply Qle_shift_div_r; [done|]. rewrite Qmult_1_l. rewrite <- Zle_Qle. lia. }
  set (q := (inject_Z (Z.of_nat c) / inject_Z (Z.of_nat t))%Q) in *.
  pose proof (round_double_nonneg q H0) as Hr0.
  pose proof (round_double_mono q 1 H0 H1) as Hr1.
  change (round_double 1) with 1%Q in Hr1.
  split.
  - apply round_double_nonneg. lra.
  - change 100%Q with (round_double 100) at 2.
    apply round_double_mono; lra.
Qed.

(** ** Further properties of the student report *)

Section ReportProperties.
Variable parseFloat : value -> option Q.
Variables videoTitle sessionId userId : value.

Lemma count_attempt_counted acc row :
  count_attempt parseFloat videoTitle sessionId acc row
  = if attempt_matches videoTitle sessionId row then counted parseFloat acc row else acc.
Proof. reflexivity. Qed.

Lemma count_attempt_totals rows acc :
  let matching := List.filter (attempt_matches videoTitle sessionId) rows in
  let totals := foldl (count_attempt parseFloat videoTitle sessionId) acc rows in
  qt_total totals = (qt_total acc + length matching)%nat
  /\ qt_correct totals
     = (qt_correct acc + length (List.filter attempt_correct matching))%nat
  /\ qt_incorrect totals
     = (qt_incorrect acc
        + length (List.filter (fun row => negb (attempt_correct row)) matching))%nat
  /\ length (qt_details totals) = (length (qt_details acc) + length matching)%nat.
Proof.
  revert acc; induction rows as [|row rows IH]; intros acc.
  - simpl. repeat split; lia.
  - cbn [foldl List.filter]. rewrite count_attempt_counted.
    destruct (attempt_matches videoTitle sessionId row); [|apply IH].
    destruct (IH (counted parseFloat acc row)) as (H1 & H2 & H3 & H4).
    cbv zeta in *. rewrite H1, H2, H3, H4. cbn [counted qt_total qt_correct
      qt_incorrect qt_details List.filter]. rewrite length_app.
    destruct (attempt_correct row); cbn [negb length]; repeat split; lia.
Qed.

Lemma student_report_accuracy analyticsData userDataSheet notesSheet :
  exists report,
    getStudentReport parseFloat videoTitle sessionId userId
      (Some analyticsData) userDataSheet notesSheet = Report report
    /\ (correctAnswers (quizPerformance report)
        + incorrectAnswers (quizPerformance report)
        = totalQuestions (quizPerformance report))%nat
    /\ accuracyPercentage (quizPerformance report)
       = Finite (if (0 <? totalQuestions (quizPerformance report))%nat
                 then rounded_percentage (correctAnswers (quizPerformance report))
                        (totalQuestions (quizPerformance report))
                 else 0%Q).
Proof.
  unfold getStudentReport.
  set (init := {| qt_total := 0; qt_correct := 0; qt_incorrect := 0; qt_time := 0;
                  qt_details := [] |}).
  pose proof (count_attempt_totals (drop 1 analyticsData) init) as Htot.
  simpl in Htot. destruct Htot as (H1 & H2 & H3 & H4).
  set (totals := foldl _ init (drop 1 analyticsData)) in *.
  set (matching := List.filter _ (drop 1 analyticsData)) in *.
  assert (Hsum : (qt_correct totals + qt_incorrect totals = qt_total totals)%nat).
  { rewrite H1, H2, H3. clear. induction matching as [|row rows IH]; simpl; [done|].
    destruct (attempt_correct row); simpl; lia. }
  destruct (0 <? qt_total totals)%nat eqn:Hpos.
  - rewrite percentage_of_counts by (by apply Nat.ltb_lt).
    eexists. split; [reflexivity|].
    cbn [quizPerformance correctAnswers incorrectAnswers totalQuestions
         accuracyPercentage]. by rewrite Hpos.
  - eexists. split; [reflexivity|].
    cbn [quizPerformance correctAnswers incorrectAnswers totalQuestions
         accuracyPercentage]. by rewrite Hpos.
Qed.

(** X16: the report counts as questions exactly the rows below the header
    of the Quiz Analytics sheet that are of this session and video; the
    correct ones are those whose sixth cell is the boolean true or the
    string TRUE, all others are incorrect, so that correct and incorrect add
    up to the total; there is one detail per question; and the accuracy is
    a finite number between 0 and 100. *)
Theorem student_report_counts analyticsData userDataSheet notesSheet :
  exists report,
    getStudentReport parseFloat videoTitle sessionId userId
      (Some analyticsData) userDataSheet notesSheet = Report report
    /\ let matching :=
         List.filter (attempt_matches videoTitle sessionId) (drop 1 analyticsData) in
       let performance := quizPerformance report in
       totalQuestions performance = length matching
       /\ correctAnswers performance = length (List.filter attempt_correct matching)
       /\ (correctAnswers performance + incorrectAnswers performance
           = totalQuestions performance)%nat
       /\ length (quizDetails performance) = totalQuestions performance
       /\ exists accuracy,
            accuracyPercentage performance = Finite accuracy
            /\ (0 <= accuracy)%Q /\ (accuracy <= 100)%Q.
Proof.
  unfold getStudentReport.
  set (init := {| qt_total := 0; qt_correct := 0; qt_incorrect := 0; qt_time := 0;
                  qt_details := [] |}).
  pose proof (count_attempt_totals (drop 1 analyticsData) init) as Htot.
  simpl in Htot. destruct Htot as (H1 & H2 & H3 & H4).
  set (totals := foldl _ init (drop 1 analyticsData)) in *.
  set (matching := List.filter _ (drop 1 analyticsData)) in *.
  assert (Hsum : (qt_correct totals + qt_incorrect totals = qt_total totals)%nat).
  { rewrite H1, H2, H3. clear. induction matching as [|row rows IH]; simpl; [done|].
    destruct (attempt_correct row); simpl; lia. }
  destruct (0 <? qt_total totals)%nat eqn:Hpos.
  - apply Nat.ltb_lt in Hpos. rewrite percentage_of_counts by done.
    eexists. split; [reflexivity|].
    cbn [quizPerformance correctAnswers incorrectAnswers totalQuestions
         accuracyPercentage quizDetails].
    destruct (rounded_percentage_bounds (qt_correct totals) (qt_total totals))
      as [Hlo Hhi]; [lia|done|].
    repeat split; try done; try lia. by eexists.
  - eexists. split; [reflexivity|].
    cbn [quizPerformance correctAnswers incorrectAnswers totalQuestions
         accuracyPercentage quizDetails].
    repeat split; try done; try lia. by exists 0%Q.
Qed.

End ReportProperties.

Lemma least_from_spec l o :
  match least_from o l with
  | Some s =>
      (o = Some s \/ s ∈ l) /\ Forall (fun t => s <= t) l
      /\ forall s0, o = Some s0 -> s <= s0
  | None => o = None /\ l = []
  end.
Proof.
  revert o; induction l as [|t l IH]; intros o; simpl.
  - destruct o as [s|]; [|done]. repeat split; [by left|constructor|].
    intros s0 [= ->]. lia.
  - unfold least_from in *.
    specialize (IH (Some (match o with None => t | Some s => Z.min s t end))).
    destruct (foldl _ _ l) as [s|]; [|by destruct IH].
    destruct IH as (Hin & Hall & Hle). specialize (Hle _ eq_refl).
    split; [|split].
    + destruct Hin as [[= <-]|Hin]; [|right; by constructor].
      destruct o as [s0|]; [|right; by constructor].
      destruct (Z.min_spec s0 t) as [[_ ->]|[_ ->]]; [by left|right; by constructor].
    + constructor; [|done]. destruct o; lia.
    + intros s0 ->. lia.
Qed.

Lemma greatest_from_spec l o :
  match greatest_from o l with
  | Some e =>
      (o = Some e \/ e ∈ l) /\ Forall (fun t => t <= e) l
      /\ forall e0, o = Some e0 -> e0 <= e
  | None => o = None /\ l = []
  end.
Proof.
  revert o; induction l as [|t l IH]; intros o; simpl.
  - destruct o as [e|]; [|done]. repeat split; [by left|constructor|].
    intros e0 [= ->]. lia.
  - unfold greatest_from in *.
    specialize (IH (Some (match o with None => t | Some e => Z.max e t end))).
    destruct (foldl _ _ l) as [e|]; [|by destruct IH].
    destruct IH as (Hin & Hall & Hle). specialize (Hle _ eq_refl).
    split; [|split].
    + destruct Hin as [[= <-]|Hin]; [|right; by constructor].
      destruct o as [e0|]; [|right; by constructor].
      destruct (Z.max_spec e0 t) as [[_ ->]|[_ ->]]; [right; by constructor|by left].
    + constructor; [|done]. destruct o; lia.
    + intros e0 ->. lia.
Qed.

Section ViewingProperties.
Variable parseFloat : value -> option Q.
Variables videoTitle sessionId userId : value.

Lemma scan_event_spec events acc :
  let scan := foldl (scan_event videoTitle sessionId) acc events in
  startEvent scan
    = least_from (startEvent acc)
        (event_times "activity_started" videoTitle sessionId events)
  /\ endEvent scan
     = greatest_from (endEvent acc)
         (event_times "video_completed" videoTitle sessionId events)
  /\ vs_pauseCount scan
     = (vs_pauseCount acc
        + length (event_times "video_paused" videoTitle sessionId events))%nat.
Proof.
  revert acc; induction events as [|e events IH]; intros acc.
  - simpl. repeat split. lia.
  - cbn [foldl]. cbv zeta in *.
    destruct (IH (scan_event videoTitle sessionId acc e)) as (H1 & H2 & H3).
    rewrite H1, H2, H3. clear IH H1 H2 H3.
    unfold event_times, scan_event. cbn [List.filter].
    destruct (strict_eq (ue_sessionId e) sessionId
              && strict_eq (ue_videoTitle e) videoTitle); cbn [andb].
    2:{ repeat split. }
    split; [|split].
    + destruct (strict_eq (ue_eventType e) (VStr "activity_started"));
        cbn [andb fmap list_fmap startEvent least_from foldl]; [|done].
      f_equal. destruct (startEvent acc) as [s|]; [|done].
      destruct (Z.ltb_spec (ue_timestamp e) s); f_equal; lia.
    + destruct (strict_eq (ue_eventType e) (VStr "video_completed"));
        cbn [andb fmap list_fmap endEvent greatest_from foldl]; [|done].
      f_equal. destruct (endEvent acc) as [e0|]; [|done].
      destruct (Z.gtb_spec (ue_timestamp e) e0); f_equal; lia.
    + destruct (strict_eq (ue_eventType e) (VStr "video_paused"));
        cbn [andb fmap list_fmap vs_pauseCount length]; lia.
Qed.

(** X17: the viewing statistics of the report count one pause for each
    [video_paused] event of this session and video, and give a viewing
    window only when the session has both an [activity_started] and a
    [video_completed] event: then the start is the earliest start, the end
    is the latest completion, the time spent is their difference in seconds
    (as a double) and the completion is 100; otherwise start and end are both null and
    time and completion are 0, also when one of the two events exists. *)
Theorem student_report_viewing_window analyticsData events notesSheet :
  let starts := event_times "activity_started" videoTitle sessionId events in
  let ends := event_times "video_completed" videoTitle sessionId events in
  exists report,
    getStudentReport parseFloat videoTitle sessionId userId
      (Some analyticsData) (Some events) notesSheet = Report report
    /\ pauseCount (viewingStatistics report)
       = length (event_times "video_paused" videoTitle sessionId events)
    /\ (starts <> [] -> ends <> [] ->
        exists s e,
          startTime (viewingStatistics report) = Some s /\ is_least s starts
          /\ endTime (viewingStatistics report) = Some e /\ is_greatest e ends
          /\ totalTimeSpent (viewingStatistics report)
             = Finite (round_double (inject_Z (e - s) / 1000))
          /\ completionPercentage (viewingStatistics report) = 100)
    /\ (starts = [] \/ ends = [] ->
        startTime (viewingStatistics report) = None
        /\ endTime (viewingStatistics report) = None
        /\ totalTimeSpent (viewingStatistics report) = Finite 0
        /\ completionPercentage (viewingStatistics report) = 0).
Proof.
  intros starts ends. unfold getStudentReport.
  set (init := {| startEvent := None; endEvent := None; vs_pauseCount := 0 |}).
  destruct (scan_event_spec events init) as (H1 & H2 & H3).
  cbv zeta in *. simpl in H1, H2, H3. fold starts in H1. fold ends in H2.
  change (default [] (Some events)) with events.
  set (scan := foldl _ init events) in *.
  pose proof (least_from_spec starts None) as Hs.
  pose proof (greatest_from_spec ends None) as He.
  rewrite <- H1 in Hs. rewrite <- H2 in He.
  destruct (0 <? _)%nat;
    (eexists; split; [reflexivity|]; cbn [viewingStatistics];
     destruct (startEvent scan) as [s|], (endEvent scan) as [e|]; cbn).
  all: split; [done|].
  all: try (destruct He as [_ He]; split; [by intros _ []|done]).
  all: try (destruct Hs as [_ Hs]; split; [by intros []|done]).
  all: destruct Hs as ([?|Hs] & ? & _); [done|];
       destruct He as ([?|He] & ? & _); [done|]; split.
  all: try (intros _ _; exists s, e; repeat split; done).
  all: intros [Heq|Heq]; rewrite Heq in *;
       [by apply elem_of_nil in Hs|by apply elem_of_nil in He].
Qed.

End ViewingProperties.

Lemma student_report_viewing_window_check :
  exists report,
    getStudentReport example_parseFloat (VStr "Lesson 1") (VStr "s-1") (VStr "anonymous")
      (Some example_analytics_sheet) (Some example_events) None = Report report
    /\ startTime (viewingStatistics report) = Some 5000
    /\ endTime (viewingStatistics report) = Some 70000
    /\ totalTimeSpent (viewingStatistics report) = Finite 65
    /\ pauseCount (viewingStatistics report) = 1%nat.
Proof. eexists. split; [reflexivity|]. repeat split; vm_compute; reflexivity. Qed.

Lemma Qfloor_ge (z : Z) (y : Q) : z <= Qfloor y <-> (inject_Z z <= y)%Q.
Proof.
  split.
  - intros H. apply Qle_trans with (inject_Z (Qfloor y)); [|apply Qfloor_le].
    by rewrite <- Zle_Qle.
  - intros H. assert (Hlt : (inject_Z z < inject_Z (Qfloor y + 1))%Q).
    { eapply Qle_lt_trans; [exact H|apply Qlt_floor]. }
    rewrite <- Zlt_Qlt in Hlt. lia.
Qed.

(** Comparing the percentage rounded to one decimal with a whole number
    [T] is comparing the percentage itself with [T - 0.05]. *)
Lemma rounded_threshold (T : Z) (x : Q) :
  (0 <= x)%Q ->
  Qle_bool (inject_Z T) (Number_toFixed1 x) = Qle_bool ((20 * T - 1) # 20) x.
Proof.
  intros Hx. apply eq_iff_eq_true. rewrite !Qle_bool_iff.
  unfold Number_toFixed1. rewrite (proj2 (Qle_bool_iff 0 x) Hx).
  assert (H1 : (inject_Z T <= 1 * (tenths x # 10))%Q <-> 10 * T <= tenths x).
  { unfold Qle. simpl. lia. }
  rewrite H1. unfold tenths. rewrite Qfloor_ge, (Qabs_pos x Hx).
  destruct x as [a b]. unfold Qle. simpl. lia.
Qed.

Section TierProperties.
Variable parseFloat : value -> option Q.
Variables videoTitle sessionId userId : value.

(** X18: when the session has quiz attempts, the accuracy is the double
    that the script's quotient of the counts and its product with 100 give,
    each rounded to the nearest double; the grade of the summary is this
    accuracy with one decimal followed by a percent sign, and the feedback
    tier is decided on that rounded figure, so the tiers start at an
    accuracy of 89.95, 74.95 and 59.95.  For 23 correct answers of 80 the
    accuracy is just below 28.75 and the grade is 28.7%. *)
Theorem student_report_feedback_tiers analyticsData userDataSheet notesSheet report :
  getStudentReport parseFloat videoTitle sessionId userId
    (Some analyticsData) userDataSheet notesSheet = Report report ->
  (0 < totalQuestions (quizPerformance report))%nat ->
  let accuracy :=
    rounded_percentage (correctAnswers (quizPerformance report))
      (totalQuestions (quizPerformance report)) in
  accuracyPercentage (quizPerformance report) = Finite accuracy
  /\ sum_grade (summary report) = toFixed1 accuracy +:+ "%"
  /\ sum_feedback (summary report) = feedback_by_accuracy accuracy.
Proof.
  intros H Hpos.
  destruct (student_report_accuracy parseFloat videoTitle sessionId userId
              analyticsData userDataSheet notesSheet) as (r & Hr & Hsum & Hacc).
  rewrite H in Hr. injection Hr as <-.
  assert (Hlo : (0 <= rounded_percentage (correctAnswers (quizPerformance report))
                        (totalQuestions (quizPerformance report)))%Q).
  { apply rounded_percentage_bounds; lia. }
  apply Nat.ltb_lt in Hpos. rewrite Hpos in Hacc.
  unfold getStudentReport in H. cbv zeta in H.
  destruct (0 <? qt_total _)%nat eqn:Ht; injection H as <-.
  2:{ cbn [quizPerformance totalQuestions] in Hpos. congruence. }
  cbn [summary quizPerformance accuracyPercentage correctAnswers totalQuestions] in *.
  split; [done|].
  unfold generateReportSummary.
  cbn [quizPerformance totalQuestions accuracyPercentage correctAnswers]. rewrite Ht.
  rewrite Hacc. cbn [Number_toFixed toFixed_ge].
  set (accuracy := rounded_percentage _ _) in *.
  change 90%Q with (inject_Z 90). change 75%Q with (inject_Z 75).
  change 60%Q with (inject_Z 60).
  rewrite !rounded_threshold by done.
  split.
  - by destruct (0 <? _)%nat.
  - unfold feedback_by_accuracy.
    change ((20 * 90 - 1) # 20) with (1799 # 20).
    change ((20 * 75 - 1) # 20) with (1499 # 20).
    change ((20 * 60 - 1) # 20) with (1199 # 20).
    destruct (Qle_bool (1799 # 20) accuracy), (Qle_bool (1499 # 20) accuracy),
      (Qle_bool (1199 # 20) accuracy); by destruct (0 <? _)%nat.
Qed.

End TierProperties.

Lemma student_report_feedback_tiers_witness :
  let accuracy :=
    rounded_percentage (correctAnswers (quizPerformance example_tie_report))
      (totalQuestions (quizPerformance example_tie_report)) in
  accuracyPercentage (quizPerformance example_tie_report) = Finite accuracy
  /\ sum_grade (summary example_tie_report) = toFixed1 accuracy +:+ "%"
  /\ sum_feedback (summary example_tie_report) = feedback_by_accuracy accuracy.
Proof.
  apply (student_report_feedback_tiers example_parseFloat (VStr "Lesson 1")
           (VStr "s-1") (VStr "anonymous") example_tie_sheet None None
           example_tie_report).
  - vm_compute. reflexivity.
  - vm_compute. lia.
Defined.

(** With 23 correct answers of 80 the quotient times 100 is the double
    28.749999999999996, not 28.75: the grade is 28.7%. *)
Example twenty_three_of_eighty_is_28_7 :
  totalQuestions (quizPerformance example_tie_report) = 80%nat
  /\ correctAnswers (quizPerformance example_tie_report) = 23%nat
  /\ accuracyPercentage (quizPerformance example_tie_report)
     = Finite (8092405580431359 # 281474976710656)
  /\ sum_grade (summary example_tie_report) = "28.7%"
  /\ toFixed1 (inject_Z 23 / inject_Z 80 * 100) = "28.8".
Proof. repeat split; vm_compute; reflexivity. Qed.

(** ** The sheets the page needs *)

Lemma ensure_sheet_lookup name rows ss n :
  ensure_sheet name rows ss !! n =
    match ss !! n with
    | Some old => Some old
    | None => if bool_decide (n = name) then Some rows else None
    end.
Proof.
  unfold ensure_sheet. destruct (ss !! name) as [old|] eqn:Hname.
  - destruct (ss !! n) eqn:Hn; [done|]. case_bool_decide; [congruence|done].
  - case_bool_decide as Heq.
    + subst n. by rewrite lookup_insert_eq, Hname.
    + rewrite lookup_insert_ne by done. by destruct (ss !! n).
Qed.

Lemma ensureRequiredSheets_lookup ss n :
  ensureRequiredSheets ss !! n =
    match ss !! n with
    | Some old => Some old
    | None =>
        if bool_decide (n = SHEETS.QUIZ_ANALYTICS) then Some [analytics_header]
        else if bool_decide (n = SHEETS.USER_DATA) then Some [user_data_header]
        else if bool_decide (n = SHEETS.SETTINGS) then Some settings_seed
        else if bool_decide (n = SHEETS.USER_NOTES) then Some [notes_header]
        else None
    end.
Proof.
  unfold ensureRequiredSheets. cbv zeta. rewrite !ensure_sheet_lookup.
  destruct (ss !! n); [done|]. by repeat case_bool_decide.
Qed.

(** X19: [ensureRequiredSheets] only adds what is missing: a sheet that
    exists keeps its rows, whatever they are (also an empty sheet and one
    with other headers); afterwards the four required sheets exist; no other
    sheet appears; and a second call changes nothing. *)
Theorem ensureRequiredSheets_only_adds_missing (ss : gmap string (list (list value))) :
  (forall name rows, ss !! name = Some rows ->
     ensureRequiredSheets ss !! name = Some rows)
  /\ (forall name, name ∈ required_sheets -> is_Some (ensureRequiredSheets ss !! name))
  /\ (forall name, name ∉ required_sheets -> ensureRequiredSheets ss !! name = ss !! name)
  /\ ensureRequiredSheets (ensureRequiredSheets ss) = ensureRequiredSheets ss.
Proof.
  split; [|split; [|split]].
  - intros name rows H. by rewrite ensureRequiredSheets_lookup, H.
  - intros name Hin. rewrite ensureRequiredSheets_lookup.
    destruct (ss !! name); [by eexists|].
    unfold required_sheets in Hin. rewrite !elem_of_cons, elem_of_nil in Hin.
    destruct Hin as [->|[->|[->|[->|[]]]]]; repeat case_bool_decide;
      first [done | by eexists].
  - intros name Hout. rewrite ensureRequiredSheets_lookup.
    destruct (ss !! name); [done|].
    unfold required_sheets in Hout. rewrite !elem_of_cons, elem_of_nil in Hout.
    repeat case_bool_decide; try done; exfalso; apply Hout; tauto.
  - apply map_eq. intros n. rewrite (ensureRequiredSheets_lookup (ensureRequiredSheets ss)).
    destruct (ensureRequiredSheets ss !! n) eqn:Hn; [done|].
    rewrite ensureRequiredSheets_lookup in Hn. destruct (ss !! n); [done|].
    by repeat case_bool_decide.
Qed.

(** X20: [ensureRequiredSheets] never changes the settings that
    [getAppSettings] returns: the Settings sheet it creates when there is
    none reads back as exactly the defaults that [getAppSettings] falls back
    to without a sheet. *)
Theorem ensureRequiredSheets_keeps_the_settings (ss : gmap string (list (list value))) :
  getAppSettings (ensureRequiredSheets ss !! SHEETS.SETTINGS)
  = getAppSettings (ss !! SHEETS.SETTINGS).
Proof.
  rewrite ensureRequiredSheets_lookup.
  destruct (ss !! SHEETS.SETTINGS) as [rows|]; [done|].
  apply map_eq. intros key. vm_compute. reflexivity.
Qed.

(** ** Recording an attempt, saving a note *)

Section RecordingProperties.
Variable parseFloat : value -> option Q.
Variables videoTitle sessionId userId : value.

Lemma student_report_totals analyticsData userDataSheet notesSheet :
  let totals :=
    foldl (count_attempt parseFloat videoTitle sessionId)
      {| qt_total := 0; qt_correct := 0; qt_incorrect := 0; qt_time := 0;
         qt_details := [] |} (drop 1 analyticsData) in
  exists report,
    getStudentReport parseFloat videoTitle sessionId userId
      (Some analyticsData) userDataSheet notesSheet = Report report
    /\ totalQuestions (quizPerformance report) = qt_total totals
    /\ correctAnswers (quizPerformance report) = qt_correct totals
    /\ incorrectAnswers (quizPerformance report) = qt_incorrect totals
    /\ quizDetails (quizPerformance report) = qt_details totals.
Proof.
  intros totals. unfold getStudentReport. fold totals.
  destruct (0 <? qt_total totals)%nat; eexists; (split; [reflexivity|]); by simpl.
Qed.

(** X21: an attempt recorded with [recordQuizAttempt] on a sheet that has
    its header row is counted by the next [getStudentReport] of its session
    and video (an empty string standing for a session or a title left out):
    one more question, one more correct answer when [wasCorrect] is the
    boolean true or the string TRUE and one more incorrect answer otherwise,
    and its detail last.  The report of every other session or video is the
    same as before. *)
Theorem recorded_attempt_is_counted now quizData header rows userDataSheet notesSheet :
  exists before after,
    getStudentReport parseFloat videoTitle sessionId userId
      (Some (header :: rows)) userDataSheet notesSheet = Report before
    /\ getStudentReport parseFloat videoTitle sessionId userId
         (recordQuizAttempt now quizData (Some (header :: rows))).1
         userDataSheet notesSheet = Report after
    /\ if strict_eq (or_else (qz_sessionId quizData) (VStr "")) sessionId
          && strict_eq (or_else (qz_videoTitle quizData) (VStr "")) videoTitle
       then
         let wasCorrect :=
           strict_eq (qz_wasCorrect quizData) (VBool true)
           || strict_eq (qz_wasCorrect quizData) (VStr "TRUE") in
         totalQuestions (quizPerformance after)
           = S (totalQuestions (quizPerformance before))
         /\ correctAnswers (quizPerformance after)
            = ((if wasCorrect then 1 else 0) + correctAnswers (quizPerformance before))%nat
         /\ incorrectAnswers (quizPerformance after)
            = ((if wasCorrect then 0 else 1) + incorrectAnswers (quizPerformance before))%nat
         /\ exists detail,
              quizDetails (quizPerformance after)
                = quizDetails (quizPerformance before) ++ [detail]
              /\ qd_overlayId detail = or_else (qz_overlayId quizData) (VStr "")
              /\ qd_quizType detail = or_else (qz_quizType quizData) (VStr "quiz")
              /\ qd_wasCorrect detail = wasCorrect
       else after = before.
Proof.
  destruct (student_report_totals (header :: rows) userDataSheet notesSheet)
    as (before & Hbefore & B1 & B2 & B3 & B4).
  cbn [recordQuizAttempt fst]. fold (attempt_row now quizData).
  destruct (student_report_totals (header :: rows ++ [attempt_row now quizData])
              userDataSheet notesSheet) as (after & Hafter & A1 & A2 & A3 & A4).
  exists before, after. split; [done|]. split; [done|].
  change (drop 1 (header :: ?t)) with t in *. rewrite foldl_app in A1, A2, A3, A4.
  cbn [foldl] in A1, A2, A3, A4. rewrite count_attempt_counted in A1, A2, A3, A4.
  change (attempt_matches videoTitle sessionId (attempt_row now quizData))
    with (strict_eq (or_else (qz_sessionId quizData) (VStr "")) sessionId
          && strict_eq (or_else (qz_videoTitle quizData) (VStr "")) videoTitle)
    in A1, A2, A3, A4.
  destruct (strict_eq (or_else (qz_sessionId quizData) (VStr "")) sessionId
            && strict_eq (or_else (qz_videoTitle quizData) (VStr "")) videoTitle)
    eqn:Hmatch.
  - cbv zeta. rewrite A1, A2, A3, A4, B1, B2, B3, B4.
    cbn [counted qt_total qt_correct qt_incorrect qt_details].
    change (attempt_correct (attempt_row now quizData))
      with (strict_eq (qz_wasCorrect quizData) (VBool true)
            || strict_eq (qz_wasCorrect quizData) (VStr "TRUE")).
    repeat split.
    + by destruct (_ || _).
    + by destruct (_ || _).
    + eexists. split; [reflexivity|]. by cbn.
  - assert (Hsame : getStudentReport parseFloat videoTitle sessionId userId
              (Some (header :: rows ++ [attempt_row now quizData]))
              userDataSheet notesSheet
            = getStudentReport parseFloat videoTitle sessionId userId
                (Some (header :: rows)) userDataSheet notesSheet).
    { unfold getStudentReport. change (drop 1 (header :: ?t)) with t.
      rewrite foldl_app. cbn [foldl].
      rewrite count_attempt_counted.
      change (attempt_matches videoTitle sessionId (attempt_row now quizData))
        with (strict_eq (or_else (qz_sessionId quizData) (VStr "")) sessionId
              && strict_eq (or_else (qz_videoTitle quizData) (VStr "")) videoTitle).
      by rewrite Hmatch. }
    rewrite Hsame, Hbefore in Hafter. by injection Hafter.
Qed.

End RecordingProperties.

(** X22: a note saved with [saveUserNote] is the last one that
    [getUserNotes] lists for its video and user, with the time of the call,
    the video time (0 when left out) and the content; a note saved without a
    user is listed for the user anonymous, which is also the user asked for
    when [getUserNotes] is called without one; the notes listed for every
    other video or user are the same as before.  On a sheet that exists but
    is empty the note takes the place of the header and is not listed. *)
Theorem saved_note_is_listed now noteData notesSheet videoTitle userId :
  getUserNotes videoTitle userId (saveUserNote now noteData notesSheet).1
  = if bool_decide (notesSheet = Some []) then []
    else getUserNotes videoTitle userId notesSheet
         ++ (if note_is_of videoTitle userId noteData
             then [listed_note now noteData] else []).
Proof.
  unfold getUserNotes, saveUserNote, note_is_of. cbn [fst].
  set (user := if strict_eq userId VUndefined then VStr "anonymous" else userId).
  destruct notesSheet as [[|header rows]|].
  - rewrite bool_decide_true by done. done.
  - rewrite bool_decide_false by done. cbn [app]. change (drop 1 (header :: ?t)) with t.
    rewrite foldl_app. cbn [foldl]. unfold collect_note at 1.
    change (cell [now; ?a; ?b; ?c; ?d; ?e] 2) with b.
    change (cell [now; ?a; ?b; ?c; ?d; ?e] 1) with a.
    rewrite (andb_comm (strict_eq _ videoTitle)).
    destruct (_ && _); [done|by rewrite app_nil_r].
  - rewrite bool_decide_false by done. cbn [app]. change (drop 1 [?h; ?r]) with [r]. cbn [foldl]. unfold collect_note.
    change (cell [now; ?a; ?b; ?c; ?d; ?e] 2) with b.
    change (cell [now; ?a; ?b; ?c; ?d; ?e] 1) with a.
    rewrite (andb_comm (strict_eq _ videoTitle)).
    by destruct (_ && _).
Qed.

Section NoteCountProperties.
Variable parseFloat : value -> option Q.
Variables videoTitle sessionId userId : value.

(** X29: a note saved with [saveUserNote] on a sheet that has its header
    row adds one to the [notesCount] of the next report of its session and
    video (an empty string standing for a session or a title left out),
    whoever the user is, and nothing to the count of any other session or
    video; the quiz performance and the viewing statistics of the report are
    the same as before. *)
Theorem saved_note_is_counted now noteData header rows analyticsData userDataSheet :
  exists before after,
    getStudentReport parseFloat videoTitle sessionId userId
      (Some analyticsData) userDataSheet (Some (header :: rows)) = Report before
    /\ getStudentReport parseFloat videoTitle sessionId userId
         (Some analyticsData) userDataSheet
         (saveUserNote now noteData (Some (header :: rows))).1 = Report after
    /\ notesCount after
       = ((if strict_eq (or_else (nd_sessionId noteData) (VStr "")) sessionId
              && strict_eq (or_else (nd_videoTitle noteData) (VStr "")) videoTitle
           then 1 else 0) + notesCount before)%nat
    /\ quizPerformance after = quizPerformance before
    /\ viewingStatistics after = viewingStatistics before.
Proof.
  unfold getStudentReport. cbn [saveUserNote fst app].
  change (default [] (Some ?sheet)) with sheet.
  change (drop 1 (header :: ?t)) with t.
  rewrite foldl_app. cbn [foldl].
  destruct (0 <? _)%nat;
    (eexists _, _; split; [reflexivity|]; split; [reflexivity|]);
    cbn [notesCount quizPerformance viewingStatistics];
    (split; [|done]); unfold count_note at 1;
    change (cell [now; ?a; ?b; ?c; ?d; ?e] 5) with e;
    change (cell [now; ?a; ?b; ?c; ?d; ?e] 2) with b;
    by destruct (_ && _).
Qed.

End NoteCountProperties.

(** ** The quiz performance report *)

Lemma set_percentage_tallied rows : set_percentage (tallied rows) = counts_of rows.
Proof. by destruct rows. Qed.

Lemma count_one_tallied rows row :
  count_one (attempt_correct row) (tallied rows) = tallied (rows ++ [row]).
Proof.
  unfold tallied, count_one. cbn [totalAttempts correctAttempts incorrectAttempts
    correctPercentage]. rewrite !List.filter_app, !length_app. cbn [List.filter].
  destruct (attempt_correct row); cbn [negb length]; f_equal; lia.
Qed.

Lemma keyed_snoc column key rows row :
  keyed column key (rows ++ [row])
  = keyed column key rows
    ++ (if String.eqb (ToString (cell row column)) key then [row] else []).
Proof. unfold keyed. rewrite List.filter_app. by cbn [List.filter]. Qed.

Lemma count_under_tally column rows row (obj : gmap string attempt_counts) :
  (forall key, obj !! key =
     if bool_decide (key ∈ Object_prototype_keys) then None
     else tally_entry column key rows) ->
  forall key,
    count_under (ToString (cell row column)) (attempt_correct row) obj !! key =
      if bool_decide (key ∈ Object_prototype_keys) then None
      else tally_entry column key (rows ++ [row]).
Proof.
  intros Hobj key. unfold count_under, tally_entry. rewrite keyed_snoc.
  destruct (String.eqb_spec (ToString (cell row column)) key) as [Heq|Hne].
  - subst key. case_bool_decide as Hproto.
    + by rewrite Hobj, bool_decide_true.
    + rewrite lookup_insert_eq, Hobj, bool_decide_false by done.
      unfold tally_entry. destruct (keyed column _ rows) as [|r mine] eqn:Hmine.
      * cbn [default app]. f_equal. exact (count_one_tallied [] row).
      * cbn [default id]. by rewrite count_one_tallied.
  - rewrite app_nil_r. case_bool_decide as Hproto.
    + apply Hobj.
    + rewrite lookup_insert_ne by done. apply Hobj.
Qed.

Section PerformanceProperties.
Variable parseFloat : value -> option Q.
Variable videoTitle : value.

Lemma count_row_reported acc row :
  count_row parseFloat videoTitle acc row =
    if reported videoTitle row then
      ({| pr_counts := count_one (attempt_correct row) (pr_counts acc.1);
          pr_averageTimeToAnswer := pr_averageTimeToAnswer acc.1;
          quizzesByOverlay :=
            count_under (ToString (cell row 3)) (attempt_correct row)
              (quizzesByOverlay acc.1);
          userPerformance :=
            count_under (ToString (cell row 1)) (attempt_correct row)
              (userPerformance acc.1) |},
       round_double (acc.2 + default 0%Q (parseFloat (cell row 7))))
    else acc.
Proof.
  destruct acc as [report total]. unfold count_row, reported. cbn [fst snd].
  change (strict_eq (cell row 5) (VBool true) || strict_eq (cell row 5) (VStr "TRUE"))
    with (attempt_correct row).
  set (title := if strict_eq videoTitle VUndefined then VNull else videoTitle).
  assert (Hcond : truthy title && negb (strict_eq (cell row 2) title)
                  = negb (negb (truthy videoTitle) || strict_eq (cell row 2) videoTitle)).
  { unfold title, strict_eq. destruct videoTitle; try done;
      (rewrite (bool_decide_false (_ = VUndefined)) by done);
      by destruct (truthy _), (bool_decide _). }
  rewrite Hcond. by destruct (negb (truthy videoTitle) || _).
Qed.

Lemma count_rows_tally rows :
  let attempts := List.filter (reported videoTitle) rows in
  let report :=
    (foldl (count_row parseFloat videoTitle)
       ({| pr_counts := no_attempts; pr_averageTimeToAnswer := Finite 0;
           quizzesByOverlay := ∅; userPerformance := ∅ |}, 0%Q) rows).1 in
  pr_counts report = tallied attempts
  /\ (forall key, quizzesByOverlay report !! key =
        if bool_decide (key ∈ Object_prototype_keys) then None
        else tally_entry 3 key attempts)
  /\ (forall key, userPerformance report !! key =
        if bool_decide (key ∈ Object_prototype_keys) then None
        else tally_entry 1 key attempts).
Proof.
  cbv zeta. induction rows as [|row rows (IH1 & IH2 & IH3)] using rev_ind.
  - cbn. split; [done|]. split; intros key; rewrite lookup_empty; by case_bool_decide.
  - rewrite foldl_app, List.filter_app. cbn [foldl List.filter].
    rewrite count_row_reported. destruct (reported videoTitle row).
    + cbn [fst pr_counts quizzesByOverlay userPerformance]. rewrite IH1.
      split; [apply count_one_tallied|]. split.
      * by apply count_under_tally.
      * by apply count_under_tally.
    + by rewrite app_nil_r.
Qed.

(** X23: when the Quiz Analytics sheet exists, [getQuizPerformanceReport]
    returns a report over the rows below the header that pass the filter
    (all of them when no title or a falsy one is given, else those whose
    title cell is the title).  Its counters are those of these attempts;
    [quizzesByOverlay] and [userPerformance] have one entry for each
    overlay id and user id that occurs (read as a string), with the counters
    and the percentage of its attempts, and no other entry; an id that is
    the name of a member every object inherits ([constructor], [toString],
    ...) gets no entry, though its attempts are in the totals. *)
Theorem quiz_performance_report_counts (analyticsData : list (list value)) :
  exists report,
    getQuizPerformanceReport parseFloat videoTitle (Some analyticsData) = Success report
    /\ let attempts := List.filter (reported videoTitle) (drop 1 analyticsData) in
       pr_counts report = counts_of attempts
       /\ (forall key, quizzesByOverlay report !! key =
             if bool_decide (key ∈ Object_prototype_keys) then None
             else entry_of 3 key attempts)
       /\ (forall key, userPerformance report !! key =
             if bool_decide (key ∈ Object_prototype_keys) then None
             else entry_of 1 key attempts).
Proof.
  unfold getQuizPerformanceReport.
  destruct (count_rows_tally (drop 1 analyticsData)) as (H1 & H2 & H3).
  cbv zeta in H1, H2, H3.
  destruct (foldl _ _ (drop 1 analyticsData)) as [report total].
  cbn [fst] in H1, H2, H3. eexists. split; [reflexivity|].
  cbn [pr_counts quizzesByOverlay userPerformance].
  split; [by rewrite H1, set_percentage_tallied|].
  split; intros key; rewrite lookup_fmap.
  - rewrite H2. case_bool_decide; [done|]. unfold tally_entry, entry_of.
    fold (keyed 3 key (List.filter (reported videoTitle) (drop 1 analyticsData))).
    destruct (keyed 3 key _); [done|]. cbn [fmap option_fmap option_map].
    by rewrite set_percentage_tallied.
  - rewrite H3. case_bool_decide; [done|]. unfold tally_entry, entry_of.
    fold (keyed 1 key (List.filter (reported videoTitle) (drop 1 analyticsData))).
    destruct (keyed 1 key _); [done|]. cbn [fmap option_fmap option_map].
    by rewrite set_percentage_tallied.
Qed.

End PerformanceProperties.

(** ** The video identifier *)

Lemma string_append_assoc (a b c : string) : (a +:+ b) +:+ c = a +:+ (b +:+ c).
Proof.
  induction a as [|x a IH]; [done|].
  change (String x ((a +:+ b) +:+ c) = String x (a +:+ (b +:+ c))). by rewrite IH.
Qed.

Lemma re_lit_app l k s : re_lit l k (l +:+ s) = k s.
Proof. induction l as [|c l IH]; simpl; [done|by rewrite Ascii.eqb_refl]. Qed.

Lemma re_lit_inv l k s r :
  re_lit l k s = Some r -> exists rest, s = l +:+ rest /\ k rest = Some r.
Proof.
  revert s; induction l as [|c l IH]; intros s; simpl.
  - intros H. by exists s.
  - destruct s as [|d s]; [done|]. destruct (Ascii.eqb_spec c d) as [->|]; [|done].
    intros H. destruct (IH _ H) as (rest & -> & Hk). by exists rest.
Qed.

Lemma consumes_lit l : consumes (re_lit l).
Proof.
  intros k s r H. destruct (re_lit_inv _ _ _ _ H) as (rest & -> & Hk).
  by exists l, rest.
Qed.

Lemma consumes_one p : consumes (re_one p).
Proof.
  intros k [|c s] r; simpl; [done|]. destruct (p c); [|done].
  intros H. by exists (String c EmptyString), s.
Qed.

Lemma consumes_star p : consumes (re_star p).
Proof.
  intros k s r. induction s as [|c s IH]; simpl.
  - intros H. by exists EmptyString, EmptyString.
  - destruct (p c).
    + destruct (re_star p k s) as [r'|] eqn:Hs.
      * intros [= <-]. destruct (IH eq_refl) as (pre & rest & -> & Hk).
        by exists (String c pre), rest.
      * intros H. by exists EmptyString, (String c s).
    + intros H. by exists EmptyString, (String c s).
Qed.

Lemma consumes_seq a b : consumes a -> consumes b -> consumes (re_seq a b).
Proof.
  intros Ha Hb k s r H. unfold re_seq in H.
  destruct (Ha _ _ _ H) as (pre1 & rest1 & -> & H1).
  destruct (Hb _ _ _ H1) as (pre2 & rest & -> & Hk).
  exists (pre1 +:+ pre2), rest. by rewrite string_append_assoc.
Qed.

Lemma consumes_alt a b : consumes a -> consumes b -> consumes (re_alt a b).
Proof.
  intros Ha Hb k s r. unfold re_alt. destruct (a k s) as [r'|] eqn:H.
  - intros [= <-]. by apply Ha.
  - apply Hb.
Qed.

Lemma consumes_plus p : consumes (re_plus p).
Proof. apply (consumes_seq (re_one p) (re_star p)), consumes_star. apply consumes_one. Qed.

Lemma consumes_opt a : consumes a -> consumes (re_opt a).
Proof.
  intros Ha. apply consumes_alt; [done|]. intros k s r H. by exists EmptyString, s.
Qed.

Lemma re_capture_inv p n s id :
  re_capture p n s = Some id ->
  exists post, s = id +:+ post /\ String.length id = n /\ all_chars p id = true.
Proof.
  revert s id; induction n as [|n IH]; intros s id; simpl.
  - intros [= <-]. by exists s.
  - destruct s as [|c s]; [done|]. destruct (p c) eqn:Hc; [|done].
    destruct (re_capture p n s) as [id'|] eqn:Hcap; [|done].
    intros [= <-]. destruct (IH _ _ Hcap) as (post & -> & Hlen & Hall).
    exists post. simpl. by rewrite Hlen, Hc, Hall.
Qed.

Lemma re_capture_app p id post :
  all_chars p id = true -> re_capture p (String.length id) (id +:+ post) = Some id.
Proof.
  induction id as [|c id IH]; simpl; [done|].
  intros [-> Hall]%andb_prop. by rewrite IH.
Qed.

Lemma youtube_regex_inv k s r :
  youtube_regex k s = Some r ->
  exists host mid rest,
    s = host +:+ mid +:+ rest
    /\ (host = "youtube.com/" \/ host = "youtu.be/" /\ mid = "")
    /\ k rest = Some r.
Proof.
  unfold youtube_regex, re_alt at 1.
  destruct (re_seq (re_lit "youtube.com/") _ k s) as [r'|] eqn:Hleft.
  - intros [= <-]. unfold re_seq at 1 in Hleft.
    destruct (re_lit_inv _ _ _ _ Hleft) as (rest1 & -> & Hpath).
    assert (Hcons : consumes (re_alt path_nested (re_alt path_short path_query))).
    { apply consumes_alt; [|apply consumes_alt].
      - unfold path_nested. apply consumes_seq; [apply consumes_plus|].
        apply consumes_seq; [apply consumes_lit|].
        apply consumes_seq; [apply consumes_plus|apply consumes_lit].
      - unfold path_short. apply consumes_seq; [|apply consumes_lit].
        apply consumes_alt; [apply consumes_lit|].
        apply consumes_seq; [apply consumes_lit|]. apply consumes_opt, consumes_lit.
      - unfold path_query. apply consumes_seq; [apply consumes_star|].
        apply consumes_seq; [apply consumes_one|apply consumes_lit]. }
    destruct (Hcons _ _ _ Hpath) as (mid & rest & -> & Hk).
    exists "youtube.com/", mid, rest. split; [done|]. split; [by left|done].
  - intros H. destruct (re_lit_inv _ _ _ _ H) as (rest & -> & Hk).
    exists "youtu.be/", "", rest. split; [done|]. split; [by right|done].
Qed.

Lemma String_match_inv s r :
  String_match s = Some r ->
  exists pre rest,
    s = pre +:+ rest /\ youtube_regex (re_capture is_id_char 11) rest = Some r.
Proof.
  induction s as [|c s IH]; cbn [String_match].
  - destruct (youtube_regex (re_capture is_id_char 11) "") as [r'|] eqn:H; [|done].
    intros [= <-]. by exists "", "".
  - destruct (youtube_regex (re_capture is_id_char 11) (String c s)) as [r'|] eqn:H.
    + intros [= <-]. by exists "", (String c s).
    + intros Hs. destruct (IH Hs) as (pre & rest & -> & Hr).
      by exists (String c pre), rest.
Qed.

(** X24: whatever [extractYouTubeVideoId] returns other than null is a part
    of the URL it was given, which is a string: eleven characters, none of
    them a double quote, [&], [?], [/] or white space, that follow either
    [youtu.be/] directly or [youtube.com/] and some further text. *)
Theorem extractYouTubeVideoId_shape url id :
  extractYouTubeVideoId url = Returned (Some id) ->
  exists pre host mid post,
    url = VStr (pre +:+ host +:+ mid +:+ id +:+ post)
    /\ (host = "youtube.com/" \/ host = "youtu.be/" /\ mid = "")
    /\ is_video_id id = true.
Proof.
  unfold extractYouTubeVideoId. destruct (truthy url); [|done]. cbn [negb].
  destruct url as [| | | |s]; try done. intros [= H].
  destruct (String_match_inv _ _ H) as (pre & rest & -> & Hregex).
  destruct (youtube_regex_inv _ _ _ Hregex) as (host & mid & rest' & -> & Hhost & Hcap).
  destruct (re_capture_inv _ _ _ _ Hcap) as (post & -> & Hlen & Hall).
  exists pre, host, mid, post. split; [done|]. split; [done|].
  unfold is_video_id. by rewrite Hlen, Hall.
Qed.

Lemma extractYouTubeVideoId_shape_witness :
  exists pre host mid post,
    VStr "https://www.youtube.com/watch?v=dQw4w9WgXcQ&t=42"
      = VStr (pre +:+ host +:+ mid +:+ "dQw4w9WgXcQ" +:+ post)
    /\ (host = "youtube.com/" \/ host = "youtu.be/" /\ mid = "")
    /\ is_video_id "dQw4w9WgXcQ" = true.
Proof.
  apply (extractYouTubeVideoId_shape
           (VStr "https://www.youtube.com/watch?v=dQw4w9WgXcQ&t=42") "dQw4w9WgXcQ").
  vm_compute. reflexivity.
Defined.

(** ** The usual forms of a video address *)

Lemma all_chars_impl (p q : ascii -> bool) s :
  (forall c, p c = true -> q c = true) -> all_chars p s = true -> all_chars q s = true.
Proof.
  intros Hpq. induction s as [|c s IH]; simpl; [done|].
  intros [Hc Hs]%andb_prop. by rewrite (Hpq c Hc), IH.
Qed.

Lemma all_chars_app p s t :
  all_chars p s = true -> all_chars p t = true -> all_chars p (s +:+ t) = true.
Proof.
  induction s as [|c s IH]; [done|].
  change (String c s +:+ t) with (String c (s +:+ t)). simpl.
  intros [-> Hs]%andb_prop Ht. by apply IH.
Qed.

Lemma id_char_not_slash c : is_id_char c = true -> not_slash c = true.
Proof.
  unfold is_id_char, not_slash. destruct (Ascii.eqb c "/"); [|done].
  by rewrite !orb_true_r.
Qed.

Lemma id_char_not_query_mark c : is_id_char c = true -> is_query_mark c = false.
Proof.
  unfold is_id_char, is_query_mark.
  destruct (Ascii.eqb c "?"), (Ascii.eqb c "&"); try done; by rewrite ?orb_true_r.
Qed.

Lemma id_char_is_dot c : is_id_char c = true -> is_dot c = true.
Proof.
  unfold is_id_char, is_dot, is_white. intros H.
  apply negb_true_iff in H. rewrite !orb_false_iff in H.
  destruct H as (_ & Hw & _).
  apply negb_true_iff, orb_false_iff.
  apply andb_false_iff in Hw. rewrite !Nat.leb_gt in Hw. rewrite !Nat.eqb_neq. lia.
Qed.

(** A repetition followed by a literal whose first character the input does
    not hold finds nothing. *)
Lemma re_star_lit_none p c l k s :
  all_chars (fun d => negb (Ascii.eqb c d)) s = true ->
  re_star p (re_lit (String c l) k) s = None.
Proof.
  induction s as [|d s IH]; cbn [all_chars re_star]; [done|].
  intros [Hd Hs]%andb_prop. apply negb_true_iff in Hd. rewrite (IH Hs).
  replace (re_lit (String c l) k (String d s)) with (@None string)
    by (cbn [re_lit]; by rewrite Hd).
  by destruct (p d).
Qed.

Lemma re_plus_lit_none p c l k s :
  all_chars (fun d => negb (Ascii.eqb c d)) s = true ->
  re_plus p (re_lit (String c l) k) s = None.
Proof.
  unfold re_plus. destruct s as [|d s]; cbn [all_chars re_one]; [done|].
  intros [_ Hs]%andb_prop. rewrite (re_star_lit_none _ _ _ _ _ Hs). by destruct (p d).
Qed.

(** A repetition followed by one character of a class that the input does
    not hold finds nothing. *)
Lemma re_star_one_none p q k s :
  all_chars (fun d => negb (q d)) s = true -> re_star p (re_one q k) s = None.
Proof.
  induction s as [|d s IH]; cbn [all_chars re_star]; [done|].
  intros [Hd Hs]%andb_prop. apply negb_true_iff in Hd. rewrite (IH Hs).
  cbn [re_one]. rewrite Hd. by destruct (p d).
Qed.

Lemma not_slash_chars s :
  all_chars not_slash s = true ->
  all_chars (fun d => negb (Ascii.eqb "/" d)) s = true.
Proof.
  apply all_chars_impl. intros c. unfold not_slash. by rewrite Ascii.eqb_sym.
Qed.

Lemma path_nested_none k s : all_chars not_slash s = true -> path_nested k s = None.
Proof.
  intros Hs. unfold path_nested, re_seq.
  by apply re_plus_lit_none, not_slash_chars.
Qed.

Lemma String_match_here s r :
  youtube_regex (re_capture is_id_char 11) s = Some r -> String_match s = Some r.
Proof. intros H. destruct s; cbn [String_match]; by rewrite H. Qed.

Lemma String_match_skip c s :
  c <> "y"%char -> String_match (String c s) = String_match s.
Proof.
  intros Hc. cbn [String_match].
  replace (youtube_regex (re_capture is_id_char 11) (String c s)) with (@None string);
    [done|].
  unfold youtube_regex, re_alt at 1. unfold re_seq at 1. cbn [re_lit].
  destruct (Ascii.eqb_spec "y" c) as [Heq|_]; [congruence|done].
Qed.

Lemma regex_at_youtu_be k rest : youtube_regex k ("youtu.be/" +:+ rest) = k rest.
Proof.
  unfold youtube_regex, re_alt at 1.
  replace (re_seq (re_lit "youtube.com/") _ k ("youtu.be/" +:+ rest))
    with (@None string) by reflexivity.
  apply re_lit_app.
Qed.

Lemma regex_at_youtube_com k rest r :
  re_alt path_nested (re_alt path_short path_query) k rest = Some r ->
  youtube_regex k ("youtube.com/" +:+ rest) = Some r.
Proof.
  intros H. unfold youtube_regex, re_alt at 1. unfold re_seq at 1.
  by rewrite re_lit_app, H.
Qed.

Lemma String_match_skip_prefix pre s :
  all_chars (fun c => negb (Ascii.eqb c "y")) pre = true ->
  String_match (pre +:+ s) = String_match s.
Proof.
  induction pre as [|c pre IH]; [done|].
  change (String c pre +:+ s) with (String c (pre +:+ s)). cbn [all_chars].
  intros [Hc Hpre]%andb_prop. rewrite String_match_skip; [by apply IH|].
  intros ->. by rewrite Ascii.eqb_refl in Hc.
Qed.

Lemma re_lit_not_prefix l k s : String.prefix l s = false -> re_lit l k s = None.
Proof.
  revert s; induction l as [|c l IH]; intros s; [by destruct s|].
  destruct s as [|d s]; [done|]. cbn [String.prefix re_lit].
  destruct (ascii_dec c d) as [->|Hne].
  - rewrite Ascii.eqb_refl. apply IH.
  - intros _. by apply Ascii.eqb_neq in Hne as ->.
Qed.

(** The end of [.*[?&]v=] finds nothing in a text that holds neither [?v=]
    nor [&v=]. *)
Lemma re_star_query_none p k s :
  includes s "?v=" = false -> includes s "&v=" = false ->
  re_star p (re_one is_query_mark (re_lit "v=" k)) s = None.
Proof.
  induction s as [|c s IH]; [done|].
  cbn [includes]. intros [Hq Hqs]%orb_false_iff [Ha Has]%orb_false_iff.
  cbn [re_star]. rewrite (IH Hqs Has).
  replace (re_one is_query_mark (re_lit "v=" k) (String c s)) with (@None string);
    [by destruct (p c)|].
  cbn [re_one]. unfold is_query_mark.
  destruct (Ascii.eqb_spec c "?") as [->|_].
  - symmetry. apply re_lit_not_prefix. exact Hq.
  - destruct (Ascii.eqb_spec c "&") as [->|_]; [|done].
    symmetry. apply re_lit_not_prefix. exact Ha.
Qed.

Lemma re_star_query_none_app p k a post :
  all_chars is_id_char a = true ->
  re_star p (re_one is_query_mark (re_lit "v=" k)) post = None ->
  re_star p (re_one is_query_mark (re_lit "v=" k)) (a +:+ post) = None.
Proof.
  intros Ha Hpost. induction a as [|c a IH]; [done|].
  change (String c a +:+ post) with (String c (a +:+ post)).
  cbn [all_chars] in Ha. apply andb_prop in Ha as [Hc Ha].
  cbn [re_star re_one]. rewrite (IH Ha), (id_char_not_query_mark c Hc).
  by destruct (p c).
Qed.

Lemma path_query_watch k id post :
  all_chars is_id_char id = true ->
  includes post "?v=" = false -> includes post "&v=" = false ->
  k (id +:+ post) = Some id ->
  path_query k ("watch?v=" +:+ (id +:+ post)) = Some id.
Proof.
  intros Hid Hq Ha Hk. unfold path_query, re_seq.
  assert (Hin : re_star is_dot (re_one is_query_mark (re_lit "v=" k)) (id +:+ post)
                = None).
  { apply re_star_query_none_app; [done|]. by apply re_star_query_none. }
  assert (Hhere : re_one is_query_mark (re_lit "v=" k)
                    (String "?" ("v=" +:+ (id +:+ post))) = Some id).
  { simpl. change ("" +:+ (id +:+ post)) with (id +:+ post). done. }
  assert (Hne : forall c t, is_query_mark c = false ->
            re_one is_query_mark (re_lit "v=" k) (String c t) = None).
  { intros c t Hc. cbn [re_one]. by rewrite Hc. }
  revert Hin Hhere Hne. generalize (re_one is_query_mark (re_lit "v=" k)).
  intros K Hin Hhere Hne.
  simpl. change ("" +:+ (id +:+ post)) with (id +:+ post).
  by rewrite Hin, (Hne "="%char), (Hne "v"%char), Hhere.
Qed.

Lemma path_short_embed k rest r :
  k rest = Some r -> path_short k ("embed/" +:+ rest) = Some r.
Proof.
  intros Hk. unfold path_short, re_seq, re_alt, re_opt, re_alt. simpl.
  change ("" +:+ rest) with rest. by rewrite Hk.
Qed.

Lemma path_nested_embed k rest :
  all_chars not_slash rest = true -> path_nested k ("embed/" +:+ rest) = None.
Proof.
  intros Hrest. unfold path_nested, re_seq.
  assert (Hslash : re_lit "/" (re_plus is_dot (re_lit "/" k)) (String "/" rest) = None).
  { transitivity (re_plus is_dot (re_lit "/" k) rest);
      [exact (re_lit_app "/" _ rest)|]. by apply re_plus_lit_none, not_slash_chars. }
  assert (Hne : forall c t, Ascii.eqb "/" c = false ->
            re_lit "/" (re_plus is_dot (re_lit "/" k)) (String c t) = None).
  { intros c t Hc. cbn [re_lit]. by rewrite Hc. }
  revert Hslash Hne. generalize (re_lit "/" (re_plus is_dot (re_lit "/" k))).
  intros K Hslash Hne. unfold re_plus. simpl. change ("" +:+ rest) with rest.
  by rewrite Hslash, (Hne "d"%char), (Hne "e"%char), (Hne "b"%char), (Hne "m"%char).
Qed.

Section UsualAddresses.
Variable id : string.
Hypothesis Hid : is_video_id id = true.

Lemma video_id_chars : all_chars is_id_char id = true.
Proof. unfold is_video_id in Hid. by apply andb_prop in Hid as [_ ?]. Qed.

Lemma video_id_captured post : re_capture is_id_char 11 (id +:+ post) = Some id.
Proof.
  unfold is_video_id in Hid. apply andb_prop in Hid as [Hlen Hall].
  apply Nat.eqb_eq in Hlen. rewrite <- Hlen. by apply re_capture_app.
Qed.

Lemma video_id_no_slash post :
  all_chars not_slash post = true -> all_chars not_slash (id +:+ post) = true.
Proof.
  intros Hpost. apply all_chars_app; [|done].
  eapply all_chars_impl; [|exact video_id_chars]. apply id_char_not_slash.
Qed.

End UsualAddresses.

(** X25: the usual forms of an address are understood.  For an identifier
    of eleven characters of the class of the capture group,
    [https://youtu.be/<id>] followed by anything,
    [https://www.youtube.com/watch?v=<id>] followed by a text without [/],
    [?v=] and [&v=], and [https://www.youtube.com/embed/<id>] followed by a
    text without [/] all give the identifier. *)
Theorem extractYouTubeVideoId_usual_addresses id post :
  is_video_id id = true ->
  extractYouTubeVideoId (VStr ("https://youtu.be/" +:+ (id +:+ post)))
    = Returned (Some id)
  /\ (all_chars not_slash post = true ->
      includes post "?v=" = false -> includes post "&v=" = false ->
      extractYouTubeVideoId (VStr ("https://www.youtube.com/watch?v=" +:+ (id +:+ post)))
        = Returned (Some id))
  /\ (all_chars not_slash post = true ->
      extractYouTubeVideoId (VStr ("https://www.youtube.com/embed/" +:+ (id +:+ post)))
        = Returned (Some id)).
Proof.
  intros Hid. unfold extractYouTubeVideoId. split; [|split].
  - change (truthy (VStr ("https://youtu.be/" +:+ (id +:+ post)))) with true.
    cbn [negb]. unfold mret, outcome_ret. f_equal.
    change ("https://youtu.be/" +:+ (id +:+ post))
      with ("https://" +:+ ("youtu.be/" +:+ (id +:+ post))).
    rewrite String_match_skip_prefix by done. apply String_match_here.
    rewrite regex_at_youtu_be. by apply video_id_captured.
  - intros Hslash Hq Ha.
    change (truthy (VStr ("https://www.youtube.com/watch?v=" +:+ (id +:+ post))))
      with true.
    cbn [negb]. unfold mret, outcome_ret. f_equal.
    change ("https://www.youtube.com/watch?v=" +:+ (id +:+ post))
      with ("https://www." +:+ ("youtube.com/" +:+ ("watch?v=" +:+ (id +:+ post)))).
    rewrite String_match_skip_prefix by done. apply String_match_here.
    apply regex_at_youtube_com. unfold re_alt.
    rewrite path_nested_none.
    + replace (path_short (re_capture is_id_char 11) ("watch?v=" +:+ (id +:+ post)))
        with (@None string) by reflexivity.
      apply path_query_watch; [by apply video_id_chars|done|done|].
      by apply video_id_captured.
    + apply all_chars_app; [done|]. by apply video_id_no_slash.
  - intros Hslash.
    change (truthy (VStr ("https://www.youtube.com/embed/" +:+ (id +:+ post))))
      with true.
    cbn [negb]. unfold mret, outcome_ret. f_equal.
    change ("https://www.youtube.com/embed/" +:+ (id +:+ post))
      with ("https://www." +:+ ("youtube.com/" +:+ ("embed/" +:+ (id +:+ post)))).
    rewrite String_match_skip_prefix by done. apply String_match_here.
    apply regex_at_youtube_com. unfold re_alt.
    rewrite path_nested_embed by (by apply video_id_no_slash).
    rewrite (path_short_embed _ _ id); [done|by apply video_id_captured].
Qed.

Lemma extractYouTubeVideoId_usual_addresses_witness :
  extractYouTubeVideoId (VStr ("https://youtu.be/" +:+ ("dQw4w9WgXcQ" +:+ "?t=42")))
    = Returned (Some "dQw4w9WgXcQ")
  /\ (all_chars not_slash "?t=42" = true ->
      includes "?t=42" "?v=" = false -> includes "?t=42" "&v=" = false ->
      extractYouTubeVideoId
        (VStr ("https://www.youtube.com/watch?v=" +:+ ("dQw4w9WgXcQ" +:+ "?t=42")))
        = Returned (Some "dQw4w9WgXcQ"))
  /\ (all_chars not_slash "?t=42" = true ->
      extractYouTubeVideoId
        (VStr ("https://www.youtube.com/embed/" +:+ ("dQw4w9WgXcQ" +:+ "?t=42")))
        = Returned (Some "dQw4w9WgXcQ")).
Proof.
  apply (extractYouTubeVideoId_usual_addresses "dQw4w9WgXcQ" "?t=42").
  vm_compute. reflexivity.
Defined.

(** ** The default video *)

Lemma find_first_match {A} (p : A -> bool) (l : list A) (x : A) :
  List.find p l = Some x <->
  exists before after,
    l = before ++ x :: after /\ Forall (fun y => p y = false) before /\ p x = true.
Proof.
  induction l as [|y l IH]; cbn [List.find].
  - split; [done|]. intros (before & after & H & _). by destruct before.
  - destruct (p y) eqn:Hy.
    + split.
      * intros [= <-]. exists [], l. repeat split; [constructor|done].
      * intros (before & after & H & Hbefore & Hx).
        destruct before as [|z before]; simplify_eq/=; [done|].
        apply Forall_cons in Hbefore as [Hz _]. congruence.
    + rewrite IH. split.
      * intros (before & after & -> & Hbefore & Hx).
        exists (y :: before), after. repeat split; [by constructor|done].
      * intros (before & after & H & Hbefore & Hx).
        destruct before as [|z before]; simplify_eq/=; [congruence|].
        apply Forall_cons in Hbefore as [_ Hbefore]. by exists before, after.
Qed.

(** X26: [getDefaultVideo] succeeds exactly when the first row below the
    header whose Active cell is the boolean true or the string TRUE holds an
    address from which [extractYouTubeVideoId] gets an identifier; the
    result is then this identifier with the title of that row and the
    settings of [getAppSettings].  The rows below that row are not looked
    at: a later active row never makes up for a first one with an unusable
    address, and an active header row does not count. *)
Theorem getDefaultVideo_first_active_row videoData settingsSheet video :
  getDefaultVideo (Some videoData) settingsSheet = Success video
  <-> exists before row after,
        drop 1 videoData = before ++ row :: after
        /\ Forall (fun r => is_active r = false) before
        /\ is_active row = true
        /\ extractYouTubeVideoId (cell row 1) = Returned (Some (dv_videoId video))
        /\ dv_videoTitle video = cell row 0
        /\ dv_settings video = getAppSettings settingsSheet.
Proof.
  unfold getDefaultVideo. split.
  - destruct (List.find is_active (drop 1 videoData)) as [row|] eqn:Hfind; [|done].
    apply find_first_match in Hfind as (before & after & Hrows & Hbefore & Hrow).
    destruct (extractYouTubeVideoId (cell row 1)) as [[videoId|]|] eqn:Hid; try done.
    intros [= <-]. by exists before, row, after.
  - intros (before & row & after & Hrows & Hbefore & Hrow & Hid & Htitle & Hsettings).
    assert (Hfind : List.find is_active (drop 1 videoData) = Some row).
    { apply find_first_match. by exists before, after. }
    rewrite Hfind, Hid. destruct video as [videoId title settings].
    cbn in Htitle, Hsettings. by subst.
Qed.

(** ** Every order can come out of the shuffle *)

Lemma shuffle_loop_ext {A} (R R' : nat -> Q) i calls (a : list A) :
  (forall n, (calls <= n)%nat -> R n = R' n) ->
  shuffle_loop R i calls a = shuffle_loop R' i calls a.
Proof.
  revert calls a; induction i as [|i IH]; intros calls a Hext; [done|].
  cbn [shuffle_loop]. unfold random_index. rewrite (Hext calls) by lia.
  apply IH. intros n Hn. apply Hext. lia.
Qed.

Lemma shuffle_loop_calls {A} (R : nat -> Q) i calls (a : list A) :
  (shuffle_loop R i calls a).2 = (calls + i)%nat.
Proof.
  revert calls a; induction i as [|i IH]; intros calls a; cbn [shuffle_loop].
  - cbn. lia.
  - rewrite IH. lia.
Qed.

(** The draw that makes the loop pick the index [j] at the position [i]. *)
Lemma draw_for_index (j i : nat) :
  (j <= i)%nat ->
  let draw := (Z.of_nat j # Pos.of_succ_nat i)%Q in
  (0 <= draw)%Q /\ (draw < 1)%Q
  /\ Z.to_nat (Qfloor (draw * inject_Z (Z.of_nat (i + 1)))) = j.
Proof.
  intros Hj draw. unfold draw. split; [|split].
  - unfold Qle. cbn. lia.
  - unfold Qlt. cbn. rewrite Zpos_P_of_succ_nat. lia.
  - rewrite Nat.add_1_r. unfold Qfloor, Qmult, inject_Z. cbn [Qnum Qden].
    rewrite Pos.mul_1_r. change (Z.of_nat (S i)) with (Z.pos (Pos.of_succ_nat i)).
    rewrite Z.div_mul by done. lia.
Qed.

Lemma shuffle_loop_reaches {A} i :
  forall calls (a target : list A),
    length a = length target -> (i < length a)%nat ->
    drop (S i) a = drop (S i) target ->
    take (S i) a ≡ₚ take (S i) target ->
    exists R, in_unit_interval R /\ (shuffle_loop R i calls a).1 = target.
Proof.
  induction i as [|i IH]; intros calls a target Hlen Hi Hdrop Htake.
  - exists (fun _ => 0%Q). split; [by intros n|]. cbn [shuffle_loop fst].
    destruct a as [|x a], target as [|y target]; try done.
    change (a = target) in Hdrop. change ([x] ≡ₚ [y]) in Htake.
    apply Permutation_singleton_inj in Htake. congruence.
  - destruct (lookup_lt_is_Some_2 target (S i)) as [x Hx]; [lia|].
    destruct (lookup_lt_is_Some_2 a (S i)) as [y Hy]; [lia|].
    assert (Hin : x ∈ take (S (S i)) a).
    { rewrite Htake, (take_S_r _ _ _ Hx). set_solver. }
    apply elem_of_take in Hin as (j & Hj & Hjlt).
    set (a' := <[j := y]> (<[S i := x]> a)).
    assert (Hswap : swap a (S i) j = a') by (unfold swap; by rewrite Hy, Hj).
    assert (Hlen' : length a' = length a) by (unfold a'; by rewrite !length_insert).
    assert (Hx' : a' !! S i = Some x).
    { unfold a'. destruct (decide (j = S i)) as [->|Hne].
      - rewrite list_lookup_insert_eq by (rewrite length_insert; lia). congruence.
      - rewrite list_lookup_insert_ne by done.
        by rewrite list_lookup_insert_eq by lia. }
    assert (Hdrop' : drop (S (S i)) a' = drop (S (S i)) a).
    { unfold a'. by rewrite !drop_insert_lt by lia. }
    assert (Hperm : take (S (S i)) a' ≡ₚ take (S (S i)) a).
    { apply (Permutation_app_inv_r (drop (S (S i)) a)).
      rewrite <- Hdrop' at 1. rewrite !take_drop, <- Hswap. apply swap_Permutation. }
    destruct (draw_for_index j (S i)) as (H0 & H1 & Hfloor); [lia|].
    destruct (IH (S calls) a' target) as (R' & HR' & Hloop).
    + congruence.
    + lia.
    + rewrite (drop_S _ _ _ Hx'), (drop_S _ _ _ Hx), Hdrop', Hdrop. done.
    + apply (Permutation_app_inv_r [x]).
      rewrite <- (take_S_r _ _ _ Hx'), <- (take_S_r _ _ _ Hx). by rewrite Hperm.
    + exists (fun n => if (n =? calls)%nat
                       then (Z.of_nat j # Pos.of_succ_nat (S i))%Q else R' n).
      split.
      * intros n. destruct (n =? calls)%nat; [done|apply HR'].
      * cbn [shuffle_loop]. unfold random_index at 1. rewrite Nat.eqb_refl, Hfloor, Hswap.
        rewrite <- Hloop. f_equal. apply shuffle_loop_ext.
        intros n Hn. by replace (n =? calls)%nat with false by (symmetry; apply Nat.eqb_neq; lia).
Qed.

(** X27: the shuffle can produce every order: for each rearrangement of the
    array there are draws of [Math.random], all in its interval, with which
    [shuffleArray] returns it; and a call makes one draw for each element
    but the first (none for an empty array). *)
Theorem shuffleArray_reaches_every_order {A} (array target : list A) (calls : nat) :
  array ≡ₚ target ->
  exists Math_random,
    in_unit_interval Math_random
    /\ shuffleArray Math_random array calls
       = (target, (calls + (length array - 1))%nat).
Proof.
  intros Hperm. unfold shuffleArray.
  assert (Hlen : length array = length target) by (by rewrite Hperm).
  destruct array as [|x array].
  - apply Permutation_nil_l in Hperm as <-.
    exists (fun _ => 0%Q). split; [by intros n|]. cbn. f_equal. lia.
  - destruct (shuffle_loop_reaches (length (x :: array) - 1) calls (x :: array) target)
      as (R & HR & Hloop).
    + done.
    + cbn. lia.
    + rewrite !drop_ge; [done|cbn in *; lia|cbn; lia].
    + rewrite !take_ge; [done|cbn in *; lia|cbn; lia].
    + exists R. split; [done|].
      rewrite <- Hloop, <- (shuffle_loop_calls R _ calls (x :: array)).
      by destruct (shuffle_loop R _ calls (x :: array)).
Qed.

Lemma shuffleArray_reaches_every_order_witness :
  exists Math_random,
    in_unit_interval Math_random
    /\ shuffleArray Math_random ["a"; "b"; "c"] 0
       = (["c"; "a"; "b"], (0 + (length ["a"; "b"; "c"] - 1))%nat).
Proof.
  apply (shuffleArray_reaches_every_order ["a"; "b"; "c"] ["c"; "a"; "b"] 0%nat).
  symmetry. exact (Permutation_cons_append ["a"; "b"] "c").
Defined.

(** ** Conditional actions and the dropdown of the setup script *)

(** X28: [parseNextAction] resolves a string to [if_correct] or
    [if_incorrect] only when the string is that name, a colon and a rest;
    no value of the Next Action dropdown that the setup script installs has
    this form, so a cell filled from the dropdown never branches, and a
    branching cell such as the [if_correct:25] of the sample data is outside
    the dropdown. *)
Theorem conditional_action_needs_a_colon (s : string) (a : action_data) :
  parseNextAction (VStr s) = Returned a ->
  action a ∈ [NEXT_ACTIONS.IF_CORRECT; NEXT_ACTIONS.IF_INCORRECT] ->
  (exists rest, s = action a +:+ ":" +:+ rest) /\ s ∉ Setup.nextActions.
Proof.
  unfold parseNextAction. intros H Haction.
  rewrite !elem_of_cons, elem_of_nil in Haction.
  destruct (negb (truthy (VStr s))).
  { injection H as <-. by destruct Haction as [?|[?|[]]]. }
  case_bool_decide as Hin.
  { injection H as <-. cbn [action ToString] in Haction.
    rewrite !elem_of_cons, elem_of_nil in Hin.
    destruct Hin as [[= ->]|[[= ->]|[[= ->]|[]]]]; by destruct Haction as [?|[?|[]]]. }
  cbn [string_method mbind outcome_bind bind] in H. unfold startsWith in H.
  change (NEXT_ACTIONS.IF_CORRECT +:+ ":") with "if_correct:" in H.
  change (NEXT_ACTIONS.IF_INCORRECT +:+ ":") with "if_incorrect:" in H.
  unfold Setup.nextActions. rewrite !elem_of_cons, elem_of_nil.
  destruct (String.prefix "if_correct:" s) eqn:Hc.
  { apply prefix_app in Hc as [rest ->].
    destruct (split_param _) as [p|]; [|done]. injection H as <-.
    split; [by exists rest|]. by intros [?|[?|[?|[?|[?|[]]]]]]. }
  destruct (String.prefix "if_incorrect:" s) eqn:Hi.
  { apply prefix_app in Hi as [rest ->].
    destruct (split_param _) as [p|]; [|done]. injection H as <-.
    split; [by exists rest|]. by intros [?|[?|[?|[?|[?|[]]]]]]. }
  injection H as <-. by destruct Haction as [?|[?|[]]].
Qed.

Lemma conditional_action_needs_a_colon_witness :
  (exists rest,
     "if_correct:25" = action {| action := "if_correct"; param := VStr "25" |}
                         +:+ ":" +:+ rest)
  /\ "if_correct:25" ∉ Setup.nextActions.
Proof.
  apply (conditional_action_needs_a_colon "if_correct:25"
           {| action := "if_correct"; param := VStr "25" |}).
  - reflexivity.
  - cbn [action]. constructor.
Defined.

(** ** Recording the events of a session *)

Section EventProperties.
Variable parseFloat : value -> option Q.
Variables videoTitle sessionId userId : value.

Lemma or_else_truthy v w : truthy v = true -> or_else v w = v.
Proof. unfold or_else. by intros ->. Qed.

Lemma strict_eq_VStr (a b : string) : strict_eq (VStr a) (VStr b) = String.eqb a b.
Proof.
  unfold strict_eq. destruct (String.eqb_spec a b) as [->|Hne].
  - by rewrite bool_decide_true.
  - rewrite bool_decide_false; [done|congruence].
Qed.

(** The step of the scan for an event of the session and video. *)
Lemma scan_event_of_session acc t type :
  scan_event videoTitle sessionId acc
    {| ue_timestamp := t; ue_sessionId := sessionId; ue_videoTitle := videoTitle;
       ue_eventType := VStr type |}
  = {| startEvent :=
         if String.eqb type "activity_started"
            && match startEvent acc with None => true | Some s => t <? s end
         then Some t else startEvent acc;
       endEvent :=
         if String.eqb type "video_completed"
            && match endEvent acc with None => true | Some e => t >? e end
         then Some t else endEvent acc;
       vs_pauseCount :=
         if String.eqb type "video_paused"
         then S (vs_pauseCount acc) else vs_pauseCount acc |}.
Proof.
  unfold scan_event. cbn [ue_sessionId ue_videoTitle ue_eventType ue_timestamp].
  rewrite !strict_eq_VStr. unfold strict_eq. by rewrite !bool_decide_true.
Qed.

(** X30: when a session that has no start and no completion event yet
    records an [activity_started] event at the time [t1] and then a
    [video_completed] event at the time [t2] with [recordUserEvent], the
    next report of the session and video has the viewing window from [t1]
    to [t2], [(t2 - t1) / 1000] seconds spent (as a double) and completion
    100, whatever the other sessions recorded; its pauses are those recorded
    before. *)
Theorem recorded_session_has_its_window (t1 t2 : Z) (other1 other2 : event_data)
    (events : option (list user_event)) analyticsData notesSheet :
  truthy sessionId = true ->
  truthy videoTitle = true ->
  event_times "activity_started" videoTitle sessionId (default [] events) = [] ->
  event_times "video_completed" videoTitle sessionId (default [] events) = [] ->
  let started := session_event sessionId videoTitle "activity_started" other1 in
  let completed := session_event sessionId videoTitle "video_completed" other2 in
  exists report,
    getStudentReport parseFloat videoTitle sessionId userId (Some analyticsData)
      (recordUserEvent t2 completed (recordUserEvent t1 started events).1).1
      notesSheet = Report report
    /\ viewingStatistics report
       = {| startTime := Some t1; endTime := Some t2;
            totalTimeSpent := Finite (round_double (inject_Z (t2 - t1) / 1000));
            completionPercentage := 100;
            pauseCount :=
              length (event_times "video_paused" videoTitle sessionId
                        (default [] events)) |}.
Proof.
  intros Hsession Htitle Hstarts Hends started completed.
  set (init := {| startEvent := None; endEvent := None; vs_pauseCount := 0 |}).
  assert (Hscan :
    foldl (scan_event videoTitle sessionId) init
      ((default [] events
        ++ [{| ue_timestamp := t1; ue_sessionId := sessionId;
               ue_videoTitle := videoTitle;
               ue_eventType := VStr "activity_started" |}])
       ++ [{| ue_timestamp := t2; ue_sessionId := sessionId;
              ue_videoTitle := videoTitle;
              ue_eventType := VStr "video_completed" |}])
    = {| startEvent := Some t1; endEvent := Some t2;
         vs_pauseCount :=
           length (event_times "video_paused" videoTitle sessionId
                     (default [] events)) |}).
  { destruct (scan_event_spec videoTitle sessionId (default [] events) init)
      as (H1 & H2 & H3).
    cbv zeta in H1, H2, H3. rewrite Hstarts in H1. rewrite Hends in H2.
    cbn in H1, H2, H3.
    rewrite !foldl_app. cbn [foldl]. rewrite !scan_event_of_session.
    cbn [String.eqb Ascii.eqb Bool.eqb andb startEvent endEvent vs_pauseCount].
    by rewrite H1, H2, H3. }
  unfold getStudentReport. cbn [recordUserEvent fst].
  unfold started, completed, session_event.
  cbn [ev_sessionId ev_videoTitle ev_eventType].
  rewrite !(or_else_truthy sessionId), !(or_else_truthy videoTitle) by done.
  change (or_else (VStr "activity_started") (VStr "")) with (VStr "activity_started").
  change (or_else (VStr "video_completed") (VStr "")) with (VStr "video_completed").
  change (match events with Some rows => rows | None => [] end) with (default [] events).
  change (default [] (Some ?sheet)) with sheet.
  fold init. rewrite Hscan.
  destruct (0 <? _)%nat; (eexists; split; [reflexivity|]); done.
Qed.

End EventProperties.

Lemma recorded_session_has_its_window_witness :
  let started :=
    session_event (VStr "s-9") (VStr "Lesson 1") "activity_started" example_event_data in
  let completed :=
    session_event (VStr "s-9") (VStr "Lesson 1") "video_completed" example_event_data in
  exists report,
    getStudentReport example_parseFloat (VStr "Lesson 1") (VStr "s-9") (VStr "anonymous")
      (Some example_analytics_sheet)
      (recordUserEvent 61000 completed
         (recordUserEvent 1000 started (Some example_events)).1).1
      None = Report report
    /\ viewingStatistics report
       = {| startTime := Some 1000; endTime := Some 61000;
            totalTimeSpent := Finite (round_double (inject_Z (61000 - 1000) / 1000));
            completionPercentage := 100;
            pauseCount :=
              length (event_times "video_paused" (VStr "Lesson 1") (VStr "s-9")
                        (default [] (Some example_events))) |}.
Proof.
  apply (recorded_session_has_its_window example_parseFloat (VStr "Lesson 1")
           (VStr "s-9") (VStr "anonymous") 1000 61000 example_event_data
           example_event_data (Some example_events) example_analytics_sheet None);
    reflexivity.
Defined.
